(** * PIL: the PBM/PGM/PPM plugin and the histogram statistics

    A shallow embedding of [src/PIL/PpmImagePlugin.py] and
    [src/PIL/ImageStat.py], and the properties of their header tokenizer,
    their mode dispatch and their per-band statistics.

    Conventions.  A Python [bytes] object is a [list byte], a [str] is a
    [string], an [int] is a [Z].  The file object [self.fp] is explicit
    state; the two [while] loops of the tokenizer take fuel, and running
    out of it is an outcome of its own, distinct from every Python
    exception. *)

From Stdlib Require Import ZArith List Strings.String Strings.Ascii Strings.Byte.
From Stdlib Require Import Lia Bool QArith DecimalString DecimalZ.
Import ListNotations.

Local Open Scope Z_scope.

(* ===================================================================== *)
(** * The Python runtime the two modules rely on *)
(* ===================================================================== *)

Module Py.

Definition bytes := list byte.

(** The literal [b"..."] for printable text. *)
Definition b (s : string) : bytes := list_byte_of_string s.

Definition CR : byte := x0d.
Definition LF : byte := x0a.

(** Truth value of a [bytes] object: non-empty. *)
Definition truthy (s : bytes) : bool :=
  match s with [] => false | _ :: _ => true end.

Fixpoint bytes_eqb (s t : bytes) : bool :=
  match s, t with
  | [], [] => true
  | x :: s', y :: t' => Byte.eqb x y && bytes_eqb s' t'
  | _, _ => false
  end.

Fixpoint startswith (p s : bytes) : bool :=
  match p, s with
  | [], _ => true
  | x :: p', y :: s' => Byte.eqb x y && startswith p' s'
  | _ :: _, [] => false
  end.

(** [sub in s] on two [bytes] objects is a substring test; the empty
    [bytes] is therefore [in] everything. *)
Fixpoint bytes_in (sub s : bytes) : bool :=
  startswith sub s ||
  match s with
  | [] => false
  | _ :: s' => bytes_in sub s'
  end.

(** Values interpolated in a message. *)
Inductive value :=
| VInt (z : Z)
| VBytes (s : bytes)
| VStr (s : string).

(** An f-string: its literal parts and the values interpolated between
    them, unformatted. *)
Inductive piece :=
| Lit (s : string)
| Val (v : value).

Definition message := list piece.

Inductive exn :=
| ValueError (msg : message)
| SyntaxError (msg : message)
| OSError (msg : message)
| TypeError (msg : message)
| IndexError
| ZeroDivisionError.

(** What running a piece of code gives. *)
Inductive outcome (A : Type) :=
| Returned (a : A)
| Raised (e : exn)
| OutOfFuel.
Arguments Returned {A} a.
Arguments Raised {A} e.
Arguments OutOfFuel {A}.

(** ** The file object

    [tell] is the current position and [unread] the bytes from there to
    the end of the file. *)
Record file := mkfile { tell : nat; unread : bytes }.

Definition open_bytes (s : bytes) : file := mkfile 0 s.

(** Code that reads [self.fp] and may raise. *)
Definition M (A : Type) := file -> outcome A * file.

Definition ret {A} (a : A) : M A := fun fp => (Returned a, fp).
Definition raise {A} (e : exn) : M A := fun fp => (Raised e, fp).
Definition out_of_fuel {A} : M A := fun fp => (OutOfFuel, fp).

Definition bind {A B} (m : M A) (k : A -> M B) : M B :=
  fun fp =>
    match m fp with
    | (Returned a, fp') => k a fp'
    | (Raised e, fp') => (Raised e, fp')
    | (OutOfFuel, fp') => (OutOfFuel, fp')
    end.

(** [fp.read(1)]: one byte, or [b""] at the end of the file. *)
Definition read1 : M bytes :=
  fun fp =>
    match unread fp with
    | [] => (Returned [], fp)
    | c :: rest => (Returned [c], mkfile (S (tell fp)) rest)
    end.

(** [fp.tell()]. *)
Definition ftell : M nat := fun fp => (Returned (tell fp), fp).

(** ** [int(token)] on a [bytes] object, base 10

    Optional surrounding white space, an optional sign, then decimal
    digits in which single underscores may separate digits. *)
Definition b_space : bytes := [x20; x09; x0a; x0b; x0c; x0d].

Definition isspace (c : byte) : bool := bytes_in [c] b_space.

Fixpoint lstrip (s : bytes) : bytes :=
  match s with
  | c :: s' => if isspace c then lstrip s' else s
  | [] => []
  end.

Definition strip (s : bytes) : bytes := rev (lstrip (rev (lstrip s))).

Definition digit_val (c : byte) : option Z :=
  let n := Z.of_N (Byte.to_N c) in
  if (48 <=? n) && (n <=? 57) then Some (n - 48) else None.

Fixpoint digits (acc : Z) (after_underscore : bool) (s : bytes) : option Z :=
  match s with
  | [] => if after_underscore then None else Some acc
  | c :: s' =>
      match digit_val c with
      | Some d => digits (10 * acc + d) false s'
      | None =>
          if Byte.eqb c "_"%byte && negb after_underscore
          then digits acc true s'
          else None
      end
  end.

Definition unsigned_literal (s : bytes) : option Z :=
  match s with
  | c :: s' =>
      match digit_val c with
      | Some d => digits d false s'
      | None => None
      end
  | [] => None
  end.

Definition int_literal (s : bytes) : option Z :=
  match strip s with
  | c :: s' =>
      if Byte.eqb c "-"%byte then option_map Z.opp (unsigned_literal s')
      else if Byte.eqb c "+"%byte then unsigned_literal s'
      else unsigned_literal (c :: s')
  | [] => None
  end.

Definition int (s : bytes) : M Z :=
  match int_literal s with
  | Some z => ret z
  | None =>
      raise (ValueError [Lit "invalid literal for int() with base 10: ";
                         Val (VBytes s)])
  end.

(** ["%d" % z], ASCII-encoded. *)
Definition str_of_int (z : Z) : string := NilZero.string_of_int (Z.to_int z).
Definition fmt_d (z : Z) : bytes := list_byte_of_string (str_of_int z).

End Py.

Declare Scope py_scope.
Delimit Scope py_scope with py.
Notation "x <- m ;; k" := (Py.bind m (fun x => k))
  (at level 61, m at next level, right associativity) : py_scope.
Notation "m ;;; k" := (Py.bind m (fun _ => k))
  (at level 61, right associativity) : py_scope.

(* ===================================================================== *)
(** * PpmImagePlugin *)
(* ===================================================================== *)

Module PpmImagePlugin.
Import Py.
Local Open Scope py_scope.

Definition b_whitespace : bytes := [x20; x09; x0a; x0b; x0c; x0d].

(** The dictionary [MODES], in the order it is written. *)
Definition MODES : list (bytes * string) :=
  [ (b"P4", "1"); (b"P5", "L"); (b"P6", "RGB");
    (b"P0CMYK", "CMYK");
    (b"PyP", "P"); (b"PyRGBA", "RGBA"); (b"PyCMYK", "CMYK") ]%string.

Fixpoint dict_get {V} (d : list (bytes * V)) (k : bytes) : option V :=
  match d with
  | [] => None
  | (k', v) :: d' => if bytes_eqb k' k then Some v else dict_get d' k
  end.

(** [_read_magic]: [for _ in range(6)], one byte a turn, left at the first
    white space or at the end of the file. *)
Fixpoint read_magic_loop (turns : nat) (magic : bytes) : M bytes :=
  match turns with
  | O => ret magic
  | S turns' =>
      c <- read1 ;;
      if negb (truthy c) || bytes_in c b_whitespace
      then ret magic
      else read_magic_loop turns' (magic ++ c)
  end.

Definition _read_magic : M bytes := read_magic_loop 6 [].

(** The inner loop of [_read_token]:
    [while self.fp.read(1) not in b"\r\n": pass]. *)
Fixpoint skip_comment (fuel : nat) : M unit :=
  match fuel with
  | O => out_of_fuel
  | S fuel' =>
      c <- read1 ;;
      if negb (bytes_in c [CR; LF]) then skip_comment fuel' else ret tt
  end.

(** The loop [while len(token) <= 10] of [_read_token]; it returns
    [token] as the loop leaves it. *)
Fixpoint read_token_loop (fuel : nat) (token : bytes) : M bytes :=
  match fuel with
  | O => out_of_fuel
  | S fuel' =>
      if (Z.of_nat (List.length token) <=? 10) then
        c <- read1 ;;
        if truthy c && bytes_in c b_whitespace && negb (truthy token) then
          (* skip whitespace at start *)
          read_token_loop fuel' token
        else if (truthy c && bytes_in c b_whitespace) || negb (truthy c) then
          ret token
        else if bytes_eqb c (b"#") then
          (* ignores rest of the line; stops at CR, LF or EOF *)
          skip_comment fuel' ;;;
          read_token_loop fuel' token
        else
          read_token_loop fuel' (token ++ c)
      else ret token
  end.

Definition _read_token (fuel : nat) : M bytes :=
  token <- read_token_loop fuel [] ;;
  if negb (truthy token) then
    (* Token was not even 1 byte *)
    raise (ValueError [Lit "Reached EOF while reading header"])
  else if (Z.of_nat (List.length token) >? 10) then
    raise (ValueError [Lit "Token too long in file header: "; Val (VBytes token)])
  else ret token.

(** What [_open] sets on the image file object. *)
Record PpmImageFile := {
  custom_mimetype : option string;
  mode : string;
  _size : Z * Z;
  (** [(codec, (x0, y0, x1, y1), offset, (rawmode, stride, orientation))] *)
  tile : list (string * (Z * Z * Z * Z) * nat * (string * Z * Z))
}.

Definition mimetypes : list (bytes * string) :=
  [ (b"P4", "image/x-portable-bitmap");
    (b"P5", "image/x-portable-graymap");
    (b"P6", "image/x-portable-pixmap") ]%string.

(** [int(self._read_token())]. *)
Definition read_int (fuel : nat) : M Z :=
  token <- _read_token fuel ;; int token.

(** [_open].  The loop [for ix in range(3)] is written out turn by turn:
    turn 0 reads [xsize], turn 1 reads [ysize] and leaves the loop in mode
    "1", turn 2 reads [maxval]. *)
Definition _open (fuel : nat) : M PpmImageFile :=
  magic_number <- _read_magic ;;
  mode <- match dict_get MODES magic_number with
          | Some mode => ret mode
          | None => raise (SyntaxError [Lit "not a PPM file"])
          end ;;
  let custom_mimetype := dict_get mimetypes magic_number in
  let '(self_mode, rawmode) :=
    if String.eqb mode "1" then ("1", "1;I")%string else (mode, mode) in
  xsize <- read_int fuel ;;
  ysize <- read_int fuel ;;
  modes <- (if String.eqb mode "1" then ret (self_mode, rawmode)
            else
              maxval <- read_int fuel ;;
              if maxval >? 255 then
                if negb (String.eqb mode "L") then
                  raise (ValueError [Lit "Too many colors for band: ";
                                     Val (VInt maxval)])
                else
                  ret ("I"%string,
                       if maxval <? 2 ^ 16 then "I;16B"%string
                       else "I;32B"%string)
              else ret (self_mode, rawmode)) ;;
  offset <- ftell ;;
  ret {| custom_mimetype := custom_mimetype;
         mode := fst modes;
         _size := (xsize, ysize);
         tile := [("raw"%string, (0, 0, xsize, ysize), offset,
                   (snd modes, 0, 1))] |}.

(** [_accept(prefix)]: [prefix[0:1] == b"P" and prefix[1] in b"0456y"].
    The slice never fails; the index does on a prefix of one byte, and is
    evaluated only when the first test holds. *)
Definition _accept (prefix : bytes) : outcome bool :=
  if bytes_eqb (firstn 1 prefix) (b"P") then
    match nth_error prefix 1 with
    | Some c => Returned (bytes_in [c] (b"0456y"))
    | None => Raised IndexError
    end
  else Returned false.

(** ** Saving *)

(** The image handed to [_save]: its mode, its size and, for a single-band
    image, what [im.getextrema()] returns. *)
Record Image := {
  im_mode : string;
  im_size : Z * Z;
  getextrema : Z * Z
}.

Definition tile_t : Type := string * (Z * Z * Z * Z) * nat * (string * Z * Z).

Section Save.

(** [ImageFile._save(im, fp, tile)] belongs to the generic encoder: given
    the bytes written to [fp] so far, it gives the outcome and the bytes
    written after it ran. *)
Variable ImageFile_save : Image -> bytes -> list tile_t -> outcome unit * bytes.

(** The first [if] chain of [_save]: [(rawmode, head)] by mode. *)
Definition select_rawmode (im : Image) : outcome (string * bytes) :=
  if String.eqb (im_mode im) "1" then Returned ("1;I"%string, b"P4")
  else if String.eqb (im_mode im) "L" then Returned ("L"%string, b"P5")
  else if String.eqb (im_mode im) "I" then
    if snd (getextrema im) <? 2 ^ 16 then Returned ("I;16B"%string, b"P5")
    else Returned ("I;32B"%string, b"P5")
  else if String.eqb (im_mode im) "RGB" then Returned ("RGB"%string, b"P6")
  else if String.eqb (im_mode im) "RGBA" then Returned ("RGB"%string, b"P6")
  else Raised (OSError [Lit "cannot write mode "; Val (VStr (im_mode im));
                        Lit " as PPM"]).

(** The maxval line written after the size line. *)
Definition maxval_line (rawmode : string) (head : bytes) : bytes :=
  (if bytes_eqb head (b"P6") then b"255" ++ [LF] else []) ++
  (if bytes_eqb head (b"P5") then
     if String.eqb rawmode "L" then b"255" ++ [LF]
     else if String.eqb rawmode "I;16B" then b"65535" ++ [LF]
     else if String.eqb rawmode "I;32B" then b"2147483648" ++ [LF]
     else []
   else []).

(** [_save(im, fp, filename)]; [fp] is the bytes written so far. *)
Definition _save (im : Image) (fp : bytes) : outcome unit * bytes :=
  match select_rawmode im with
  | Returned (rawmode, head) =>
      let fp1 := fp ++ head ++
                 ([LF] ++ fmt_d (fst (im_size im)) ++ b" " ++
                  fmt_d (snd (im_size im)) ++ [LF]) in
      let fp2 := fp1 ++ maxval_line rawmode head in
      ImageFile_save im fp2
        [("raw"%string, (0, 0, fst (im_size im), snd (im_size im)), 0%nat,
          (rawmode, 0, 1))]
  | Raised e => (Raised e, fp)
  | OutOfFuel => (OutOfFuel, fp)
  end.

End Save.

End PpmImagePlugin.

(* ===================================================================== *)
(** * ImageStat *)
(* ===================================================================== *)

Module ImageStat.
Import Py.

(** Code that may raise and reads no file. *)
Definition result (A : Type) : Type := (exn + A)%type.

Definition Ok {A} (a : A) : result A := inr a.
Definition Err {A} (e : exn) : result A := inl e.

Definition rbind {A B} (m : result A) (k : A -> result B) : result B :=
  match m with
  | inr a => k a
  | inl e => inl e
  end.

Notation "'do' x <- m ; k" := (rbind m (fun x => k))
  (at level 10, x name, m at level 100, k at level 200).

(** A list comprehension, or a loop that appends one value a turn. *)
Fixpoint mapM {A B} (f : A -> result B) (l : list A) : result (list B) :=
  match l with
  | [] => Ok []
  | a :: l' => do v <- f a; do vs <- mapM f l'; Ok (v :: vs)
  end.

(** A [for] loop that updates its variables [s] a turn. *)
Fixpoint foldM {A S} (f : A -> S -> result S) (l : list A) (s : S) : result S :=
  match l with
  | [] => Ok s
  | a :: l' => do s' <- f a s; foldM f l' s'
  end.

(** [l[i]] for [i >= 0]. *)
Definition getitem {A} (l : list A) (i : nat) : result A :=
  match nth_error l i with
  | Some a => Ok a
  | None => Err IndexError
  end.

(** [range(n)] and [range(0, n, 256)]. *)
Definition range (n : nat) : list nat := seq 0 n.
Definition range256 (n : nat) : list nat :=
  map (fun k => (k * 256)%nat) (seq 0 ((n + 255) / 256)%nat).

(** [functools.reduce(operator.add, l)], without an initial value. *)
Definition reduce_add (l : list Z) : result Z :=
  match l with
  | [] => Err (TypeError [Lit "reduce() of empty iterable with no initial value"])
  | x :: l' => Ok (fold_left Z.add l' x)
  end.

(** ** Floats

    A Python [float] is modelled by an exact rational: rounding, overflow
    and the special values are outside the model.  What is kept is where
    the operations raise: true division by zero, and the square root of a
    negative number. *)
Definition float := Q.

Definition float_of_int (z : Z) : float := inject_Z z.

(** [x / y] *)
Definition truediv (x y : float) : result float :=
  if Qeq_bool y 0 then Err ZeroDivisionError else Ok (x / y)%Q.

Section Stat.

(** The square root on the non-negative floats. *)
Variable sqrt : float -> float.

(** [math.sqrt(x)] *)
Definition math_sqrt (x : float) : result float :=
  if Qlt_le_dec x 0 then Err (ValueError [Lit "math domain error"])
  else Ok (sqrt x).

(** The mask handed on to [histogram]. *)
Variable Mask : Type.

(** What [Stat] may be given: a list of integers, an image (an object with
    a [histogram] method), or something else. *)
Inductive object :=
| PyList (l : list Z)
| PyImage (histogram : option Mask -> object)
| PyOther.

Record Stat := { h : list Z; bands : list nat }.

(** [Stat.__init__].  Only an image has a [histogram] attribute; for any
    other object the [AttributeError] is caught and the object itself is
    taken as the histogram.  A mask of [None] is the false one. *)
Definition __init__ (image_or_list : object) (mask : option Mask) : result Stat :=
  let self_h :=
    match image_or_list with
    | PyImage histogram =>
        match mask with
        | Some m => histogram (Some m)
        | None => histogram None
        end
    | _ => image_or_list
    end in
  match self_h with
  | PyList l =>
      Ok {| h := l; bands := range (List.length l / 256) |}
  | _ => Err (TypeError [Lit "first argument must be image or list"])
  end.

(** [minmax], local to [_getextrema]. *)
Definition minmax (histogram : list Z) : result (nat * nat) :=
  foldM (fun i '(n, x) =>
           do hi <- getitem histogram i;
           if negb (hi =? 0) then Ok (Nat.min n i, Nat.max x i)
           else Ok (n, x))
        (range 256) (255%nat, 0%nat).

Definition _getextrema (self : Stat) : result (list (nat * nat)) :=
  mapM (fun i => minmax (skipn i (h self))) (range256 (List.length (h self))).

Definition _getcount (self : Stat) : result (list Z) :=
  mapM (fun i => reduce_add (firstn 256 (skipn i (h self))))
       (range256 (List.length (h self))).

Definition _getsum (self : Stat) : result (list float) :=
  mapM (fun i =>
          foldM (fun j layerSum =>
                   do hij <- getitem (h self) (i + j);
                   Ok (layerSum + float_of_int (Z.of_nat j * hij))%Q)
                (range 256) 0%Q)
       (range256 (List.length (h self))).

Definition _getsum2 (self : Stat) : result (list float) :=
  mapM (fun i =>
          foldM (fun j sum2 =>
                   do hij <- getitem (h self) (i + j);
                   Ok (sum2 + float_of_int (Z.of_nat j ^ 2) * float_of_int hij)%Q)
                (range 256) 0%Q)
       (range256 (List.length (h self))).

(** The attributes [self.count], [self.sum], ... are computed on first
    access by [__getattr__] and kept; the methods are functions of [self.h]
    alone, so an access is modelled by the call. *)
Definition _getmean (self : Stat) : result (list float) :=
  mapM (fun i =>
          do sum <- _getsum self;
          do sum_i <- getitem sum i;
          do count <- _getcount self;
          do count_i <- getitem count i;
          truediv sum_i (float_of_int count_i))
       (bands self).

(** The scan [for j in range(256)] of [_getmedian], with its [break];
    the result is the value the loop variable [j] has when the loop is
    left.  The argument [j] is its value before the next turn; since
    [range(256)] is not empty, the one given at the start is never
    returned. *)
Fixpoint median_scan (hist : list Z) (b0 : nat) (half : Z)
    (s : Z) (j : nat) (js : list nat) : result nat :=
  match js with
  | [] => Ok j
  | j' :: js' =>
      do hj <- getitem hist (b0 + j');
      let s' := s + hj in
      if s' >? half then Ok j' else median_scan hist b0 half s' j' js'
  end.

Definition _getmedian (self : Stat) : result (list nat) :=
  mapM (fun i =>
          do count <- _getcount self;
          do count_i <- getitem count i;
          let half := count_i / 2 in
          let b0 := (i * 256)%nat in
          median_scan (h self) b0 half 0 0%nat (range 256))
       (bands self).

Definition _getrms (self : Stat) : result (list float) :=
  mapM (fun i =>
          do sum2 <- _getsum2 self;
          do sum2_i <- getitem sum2 i;
          do count <- _getcount self;
          do count_i <- getitem count i;
          do q <- truediv sum2_i (float_of_int count_i);
          math_sqrt q)
       (bands self).

Definition _getvar (self : Stat) : result (list float) :=
  mapM (fun i =>
          do count <- _getcount self;
          do n <- getitem count i;
          do sum2 <- _getsum2 self;
          do sum2_i <- getitem sum2 i;
          do sum <- _getsum self;
          do sum_i <- getitem sum i;
          do q <- truediv (sum_i * sum_i)%Q (float_of_int n);
          truediv (sum2_i - q)%Q (float_of_int n))
       (bands self).

Definition _getstddev (self : Stat) : result (list float) :=
  mapM (fun i =>
          do var <- _getvar self;
          do var_i <- getitem var i;
          math_sqrt var_i)
       (bands self).

End Stat.

Arguments PyList {Mask} l.
Arguments PyImage {Mask} histogram.
Arguments PyOther {Mask}.
Arguments __init__ {Mask} image_or_list mask.

End ImageStat.

(* ===================================================================== *)
(** * ImageStat: attributes computed on first access *)
(* ===================================================================== *)

(** [Stat.__getattr__] and the methods as they read the attributes of
    [self].  The object is the [Stat] of [__init__] (the attributes [h] and
    [bands], found by the normal lookup) and the attributes set later by
    [setattr].  An attribute is looked up in the object, then among the
    methods of the class, and only then handed to [__getattr__].  Names that
    start with an underscore other than the methods [_get...] (those that
    [object] or the class define otherwise) are outside this model. *)
Module ImageStatLazy.
Import Py ImageStat.

Inductive value :=
| VPairs (v : list (nat * nat))
| VInts (v : list Z)
| VFloats (v : list float)
| VNats (v : list nat)
| VMethod (name : string).

Inductive error :=
| Exn (e : exn)
| AttributeError (name : string).

Inductive outcome (A : Type) :=
| Returned (a : A)
| Raised (e : error)
| OutOfFuel.
Arguments Returned {A} a.
Arguments Raised {A} e.
Arguments OutOfFuel {A}.

Record object := { stat : Stat; attrs : list (string * value) }.

(** Code that reads and sets attributes of [self] and may raise. *)
Definition L (A : Type) := object -> outcome A * object.

Definition ret {A} (a : A) : L A := fun self => (Returned a, self).
Definition raise {A} (e : error) : L A := fun self => (Raised e, self).
Definition out_of_fuel {A} : L A := fun self => (OutOfFuel, self).

Definition bind {A B} (m : L A) (k : A -> L B) : L B :=
  fun self =>
    match m self with
    | (Returned a, self') => k a self'
    | (Raised e, self') => (Raised e, self')
    | (OutOfFuel, self') => (OutOfFuel, self')
    end.

Declare Scope lazy_scope.
Delimit Scope lazy_scope with lazy.
Notation "x <- m ;; k" := (bind m (fun x => k))
  (at level 61, m at next level, right associativity) : lazy_scope.
Local Open Scope lazy_scope.

(** Code that reads no attribute set by [setattr]. *)
Definition lift {A} (r : result A) : L A :=
  match r with
  | inr a => ret a
  | inl e => raise (Exn e)
  end.

(** [self.h] and [self.bands] together. *)
Definition read_stat : L Stat := fun self => (Returned (stat self), self).

Fixpoint mapL {A B} (f : A -> L B) (l : list A) : L (list B) :=
  match l with
  | [] => ret []
  | a :: l' => v <- f a ;; vs <- mapL f l' ;; ret (v :: vs)
  end.

Fixpoint assoc (name : string) (d : list (string * value)) : option value :=
  match d with
  | [] => None
  | (n, v) :: d' => if String.eqb n name then Some v else assoc name d'
  end.

(** [setattr(self, id, v)]. *)
Definition setattr (id : string) (v : value) : L unit :=
  fun self => (Returned tt, {| stat := stat self; attrs := (id, v) :: attrs self |}).

(** The methods of the class that the lookup can find. *)
Definition method_names : list string :=
  [ "_getextrema"; "_getcount"; "_getsum"; "_getsum2"; "_getmean";
    "_getmedian"; "_getrms"; "_getvar"; "_getstddev" ]%string.

Definition is_method (name : string) : bool :=
  existsb (String.eqb name) method_names.

(** The normal lookup of [self.name], before [__getattr__]. *)
Definition lookup (name : string) (self : object) : option value :=
  if String.eqb name "h" then Some (VInts (h (stat self)))
  else if String.eqb name "bands" then Some (VNats (bands (stat self)))
  else match assoc name (attrs self) with
       | Some v => Some v
       | None => if is_method name then Some (VMethod name) else None
       end.

Definition not_a_list {A} : L A :=
  raise (Exn (TypeError [Lit "object is not subscriptable"])).

Definition as_ints (v : value) : L (list Z) :=
  match v with VInts l => ret l | _ => not_a_list end.
Definition as_floats (v : value) : L (list float) :=
  match v with VFloats l => ret l | _ => not_a_list end.

Section Methods.

Variable sqrt : float -> float.

(** [self.name] for the attributes that may not be there yet. *)
Variable get : string -> L value.

(** The four methods that read [self.h] only. *)
Definition _getextrema : L value :=
  self <- read_stat ;; v <- lift (ImageStat._getextrema self) ;; ret (VPairs v).
Definition _getcount : L value :=
  self <- read_stat ;; v <- lift (ImageStat._getcount self) ;; ret (VInts v).
Definition _getsum : L value :=
  self <- read_stat ;; v <- lift (ImageStat._getsum self) ;; ret (VFloats v).
Definition _getsum2 : L value :=
  self <- read_stat ;; v <- lift (ImageStat._getsum2 self) ;; ret (VFloats v).

Definition _getmean : L value :=
  self <- read_stat ;;
  v <- mapL (fun i =>
               sum <- get "sum" ;; sum <- as_floats sum ;;
               sum_i <- lift (getitem sum i) ;;
               count <- get "count" ;; count <- as_ints count ;;
               count_i <- lift (getitem count i) ;;
               lift (truediv sum_i (float_of_int count_i)))
            (bands self) ;;
  ret (VFloats v).

Definition _getmedian : L value :=
  self <- read_stat ;;
  v <- mapL (fun i =>
               count <- get "count" ;; count <- as_ints count ;;
               count_i <- lift (getitem count i) ;;
               let half := count_i / 2 in
               let b0 := (i * 256)%nat in
               self <- read_stat ;;
               lift (median_scan (h self) b0 half 0 0%nat (range 256)))
            (bands self) ;;
  ret (VNats v).

Definition _getrms : L value :=
  self <- read_stat ;;
  v <- mapL (fun i =>
               sum2 <- get "sum2" ;; sum2 <- as_floats sum2 ;;
               sum2_i <- lift (getitem sum2 i) ;;
               count <- get "count" ;; count <- as_ints count ;;
               count_i <- lift (getitem count i) ;;
               q <- lift (truediv sum2_i (float_of_int count_i)) ;;
               lift (math_sqrt sqrt q))
            (bands self) ;;
  ret (VFloats v).

Definition _getvar : L value :=
  self <- read_stat ;;
  v <- mapL (fun i =>
               count <- get "count" ;; count <- as_ints count ;;
               n <- lift (getitem count i) ;;
               sum2 <- get "sum2" ;; sum2 <- as_floats sum2 ;;
               sum2_i <- lift (getitem sum2 i) ;;
               sum <- get "sum" ;; sum <- as_floats sum ;;
               sum_i <- lift (getitem sum i) ;;
               q <- lift (truediv (sum_i * sum_i)%Q (float_of_int n)) ;;
               lift (truediv (sum2_i - q)%Q (float_of_int n)))
            (bands self) ;;
  ret (VFloats v).

Definition _getstddev : L value :=
  self <- read_stat ;;
  v <- mapL (fun i =>
               var <- get "var" ;; var <- as_floats var ;;
               var_i <- lift (getitem var i) ;;
               lift (math_sqrt sqrt var_i))
            (bands self) ;;
  ret (VFloats v).

(** Calling what the lookup of a method name gave. *)
Definition call (m : value) : L value :=
  match m with
  | VMethod name =>
      if String.eqb name "_getextrema" then _getextrema
      else if String.eqb name "_getcount" then _getcount
      else if String.eqb name "_getsum" then _getsum
      else if String.eqb name "_getsum2" then _getsum2
      else if String.eqb name "_getmean" then _getmean
      else if String.eqb name "_getmedian" then _getmedian
      else if String.eqb name "_getrms" then _getrms
      else if String.eqb name "_getvar" then _getvar
      else if String.eqb name "_getstddev" then _getstddev
      else raise (AttributeError name)
  | _ => raise (Exn (TypeError [Lit "object is not callable"]))
  end.

End Methods.

(** [self.name]: the normal lookup, and [__getattr__] when it finds
    nothing.  The fuel bounds the depth of the attributes computed from
    attributes. *)
Fixpoint getattr (sqrt : float -> float) (fuel : nat) (name : string) : L value :=
  match fuel with
  | O => out_of_fuel
  | S fuel' =>
      fun self =>
        match lookup name self with
        | Some v => (Returned v, self)
        | None =>
            (* __getattr__(self, id) *)
            (if String.prefix "_get" name then raise (AttributeError name)
             else
               (* calculate missing attribute *)
               m <- getattr sqrt fuel' ("_get" ++ name) ;;
               v <- call sqrt (getattr sqrt fuel') m ;;
               _ <- setattr name v ;;
               ret v) self
        end
  end.

(** The object that [Stat(...)] returns. *)
Definition new (st : Stat) : object := {| stat := st; attrs := [] |}.

End ImageStatLazy.


(* ===================================================================== *)
(** * The vocabulary of the properties *)
(* ===================================================================== *)

Import Py PpmImagePlugin ImageStat.

(** ** The error conditions, under the names the specification uses *)

Definition NotThisFormat : exn := SyntaxError [Lit "not a PPM file"].
Definition UnexpectedEndOfHeader : exn :=
  ValueError [Lit "Reached EOF while reading header"].
Definition TokenTooLong (token : bytes) : exn :=
  ValueError [Lit "Token too long in file header: "; Val (VBytes token)].
Definition TooManyColorsForBand (maxval : Z) : exn :=
  ValueError [Lit "Too many colors for band: "; Val (VInt maxval)].
Definition UnsupportedEncodeMode (mode : string) : exn :=
  OSError [Lit "cannot write mode "; Val (VStr mode); Lit " as PPM"].
Definition EmptyChannel : exn := ZeroDivisionError.

(** ** Classes of header bytes *)

Definition is_ws (c : byte) : bool := bytes_in [c] b_whitespace.
Definition is_eol (c : byte) : bool := bytes_in [c] [CR; LF].
Definition is_hash (c : byte) : bool := bytes_eqb [c] (b"#").

(** A byte that [_read_token] appends to the token. *)
Definition token_byte (c : byte) : bool := negb (is_ws c) && negb (is_hash c).

(** A token ends at the end of the file or at a white space. *)
Definition ends_token (tail : bytes) : bool :=
  match tail with
  | [] => true
  | c :: _ => is_ws c
  end.

(** The file after the byte that ended the token, if any, was read. *)
Definition after_token (pos : nat) (tail : bytes) : file :=
  match tail with
  | [] => mkfile pos []
  | _ :: rest => mkfile (S pos) rest
  end.


(** The reading of the specification under which every byte that is not a
    white space is accumulated: a run of eleven such bytes, whatever comes
    after it, makes [_read_token] fail with [TokenTooLong]. *)
Definition long_run_too_long : Prop :=
  forall fuel run rest,
    forallb (fun c => negb (is_ws c)) run = true ->
    List.length run = 11%nat ->
    (List.length (run ++ rest) < fuel)%nat ->
    exists token fp',
      _read_token fuel (open_bytes (run ++ rest)) =
      (Raised (TokenTooLong token), fp').

(** The header [b"  12 #comment\n34"]. *)
Definition example_header : bytes := b"  12 #comment" ++ [LF] ++ b"34".

(** A generic encoder that writes no pixel, for the examples. *)
Definition no_pixels (im : Image) (fp : bytes) (tiles : list tile_t)
  : outcome unit * bytes := (Returned tt, fp).

(** ** Bins of a band *)

Definition Zsum (l : list Z) : Z := fold_right Z.add 0 l.

(** The 256 bins of band [i]. *)
Definition band_bins (hist : list Z) (i : nat) : list Z :=
  firstn 256 (skipn (i * 256) hist).

(** Bin [j] of band [i]. *)
Definition bin (hist : list Z) (i j : nat) : Z := nth j (band_bins hist i) 0.

(** The count of bins [0..j] of a band. *)
Definition cumulative (bins : list Z) (j : nat) : Z := Zsum (firstn (S j) bins).

(** One band with 3 counts in bin 0 and 1 count in bin 10. *)
Definition example_histogram : list Z :=
  [3; 0; 0; 0; 0; 0; 0; 0; 0; 0; 1] ++ repeat 0 245.

(** The same band, followed by a band with no count at all. *)
Definition two_band_histogram : list Z := example_histogram ++ repeat 0 256.

(** The two accumulations of [_getsum] and [_getsum2] over band [i]. *)
Definition band_sum (hist : list Z) (i : nat) : float :=
  fold_left (fun s j => (s + float_of_int (Z.of_nat j * bin hist i j))%Q)
            (seq 0 256) 0%Q.

Definition band_sum2 (hist : list Z) (i : nat) : float :=
  fold_left
    (fun s j => (s + float_of_int (Z.of_nat j ^ 2) * float_of_int (bin hist i j))%Q)
    (seq 0 256) 0%Q.

(** A histogram of [n] bands of non-negative counts. *)
Definition valid_histogram (hist : list Z) (n : nat) : Prop :=
  List.length hist = (n * 256)%nat /\ Forall (fun c => 0 <= c) hist.

(** ** Reading moves forward *)

(** From [fp] to [fp']: some bytes were consumed, the rest is still to be
    read, and the position grew by the number of bytes consumed. *)
Definition advances (fp fp' : file) : Prop :=
  exists consumed,
    unread fp = consumed ++ unread fp' /\
    tell fp' = (tell fp + List.length consumed)%nat.

Definition moves_forward {A} (m : M A) : Prop :=
  forall fp r fp', m fp = (r, fp') -> advances fp fp'.

(** The pairs (mode, raw mode) of an image that [_open] returned, by the
    mode [MODES] gives for the magic number. *)
Definition decoded_as (mode0 mode rawmode : string) : Prop :=
  (mode0 = "1" /\ mode = "1" /\ rawmode = "1;I")%string \/
  (mode0 <> "1"%string /\ mode = mode0 /\ rawmode = mode0) \/
  (mode0 = "L" /\ mode = "I" /\ (rawmode = "I;16B" \/ rawmode = "I;32B"))%string.

(** The bytes [_save] writes before the pixel data, when it chose the raw
    mode [rawmode] and the magic number [head]. *)
Definition written_header (im : Image) (rawmode : string) (head : bytes) : bytes :=
  head ++ [LF] ++ fmt_d (fst (im_size im)) ++ b" " ++
  fmt_d (snd (im_size im)) ++ [LF] ++ maxval_line rawmode head.

(** ** Attributes computed on first access *)

(** What the method behind the attribute [name] returns, as a value. *)
Definition stat_value (sqrt : float -> float) (name : string) (st : Stat)
  : option (result ImageStatLazy.value) :=
  if String.eqb name "extrema" then
    Some (do v <- _getextrema st; Ok (ImageStatLazy.VPairs v))
  else if String.eqb name "count" then
    Some (do v <- _getcount st; Ok (ImageStatLazy.VInts v))
  else if String.eqb name "sum" then
    Some (do v <- _getsum st; Ok (ImageStatLazy.VFloats v))
  else if String.eqb name "sum2" then
    Some (do v <- _getsum2 st; Ok (ImageStatLazy.VFloats v))
  else if String.eqb name "mean" then
    Some (do v <- _getmean st; Ok (ImageStatLazy.VFloats v))
  else if String.eqb name "median" then
    Some (do v <- _getmedian st; Ok (ImageStatLazy.VNats v))
  else if String.eqb name "rms" then
    Some (do v <- _getrms sqrt st; Ok (ImageStatLazy.VFloats v))
  else if String.eqb name "var" then
    Some (do v <- _getvar st; Ok (ImageStatLazy.VFloats v))
  else if String.eqb name "stddev" then
    Some (do v <- _getstddev sqrt st; Ok (ImageStatLazy.VFloats v))
  else None.

(** The outcome of code that reads attributes, for a result of the
    methods. *)
Definition embed {A} (r : result A) : ImageStatLazy.outcome A :=
  match r with
  | inr a => ImageStatLazy.Returned a
  | inl e => ImageStatLazy.Raised (ImageStatLazy.Exn e)
  end.

(** Every attribute that was set holds what its method returns. *)
Definition consistent (sqrt : float -> float) (self : ImageStatLazy.object) : Prop :=
  forall name v,
    ImageStatLazy.assoc name (ImageStatLazy.attrs self) = Some v ->
    stat_value sqrt name (ImageStatLazy.stat self) = Some (inr v).

(** From [self] to [self']: the same [h] and [bands], the attributes that
    were set are still set to the same values, and all is consistent. *)
Definition keeps (sqrt : float -> float) (self self' : ImageStatLazy.object) : Prop :=
  ImageStatLazy.stat self' = ImageStatLazy.stat self /\
  consistent sqrt self' /\
  forall name v,
    ImageStatLazy.assoc name (ImageStatLazy.attrs self) = Some v ->
    ImageStatLazy.assoc name (ImageStatLazy.attrs self') = Some v.

(** The code [m] does what [p] does, and keeps the object consistent. *)
Definition simulates (sqrt : float -> float) {A} (m : ImageStatLazy.L A)
    (p : result A) (self : ImageStatLazy.object) : Prop :=
  exists self', m self = (embed p, self') /\ keeps sqrt self self'.

(** The getter [get] gives the attribute [name] of an object of [st]: what
    [p] gives, kept in the object when it is a value. *)
Definition provides (sqrt : float -> float)
    (get : string -> ImageStatLazy.L ImageStatLazy.value)
    (name : string) (p : result ImageStatLazy.value) (st : Stat) : Prop :=
  forall self,
    consistent sqrt self -> ImageStatLazy.stat self = st ->
    exists self',
      get name self = (embed p, self') /\ keeps sqrt self self' /\
      forall v, p = inr v ->
                ImageStatLazy.assoc name (ImageStatLazy.attrs self') = Some v.

(* ===================================================================== *)
(** * The header tokenizer *)
(* ===================================================================== *)

Section Tokenizer.

Local Open Scope nat_scope.

Lemma read_token_loop_eq fuel token fp :
  read_token_loop (S fuel) token fp =
  if (Z.of_nat (List.length token) <=? 10)%Z then
    match unread fp with
    | [] => (Returned token, fp)
    | c :: rest =>
        let fp1 := mkfile (S (tell fp)) rest in
        if is_ws c then
          if truthy token then (Returned token, fp1)
          else read_token_loop fuel token fp1
        else if is_hash c then
          bind (skip_comment fuel) (fun _ => read_token_loop fuel token) fp1
        else read_token_loop fuel (token ++ [c]) fp1
    end
  else (Returned token, fp).
Proof.
  cbn [read_token_loop].
  destruct (Z.of_nat (List.length token) <=? 10)%Z; [|reflexivity].
  destruct fp as [o [|c rest]]; unfold bind at 1; unfold read1;
    cbn [unread tell truthy andb orb negb].
  - destruct token; reflexivity.
  - change (bytes_in [c] b_whitespace) with (is_ws c).
    change (bytes_eqb [c] (b "#")) with (is_hash c).
    destruct (is_ws c), token; cbn [truthy negb andb orb]; try reflexivity;
      destruct (is_hash c); reflexivity.
Qed.

Lemma skip_comment_eq fuel fp :
  skip_comment (S fuel) fp =
  match unread fp with
  | [] => (Returned tt, fp)
  | c :: rest =>
      let fp1 := mkfile (S (tell fp)) rest in
      if is_eol c then (Returned tt, fp1) else skip_comment fuel fp1
  end.
Proof.
  destruct fp as [o [|c rest]]; cbn [skip_comment]; unfold bind, read1;
    cbn [unread tell]; [reflexivity|].
  change (bytes_in [c] [CR; LF]) with (is_eol c).
  destruct (is_eol c); reflexivity.
Qed.

(** *** Fuel: more than the number of unread bytes is enough, and then
    the amount does not matter *)

Lemma skip_comment_returns fuel : forall fp,
  List.length (unread fp) < fuel ->
  exists fp', skip_comment fuel fp = (Returned tt, fp') /\
              List.length (unread fp') <= List.length (unread fp).
Proof.
  induction fuel as [|fuel IH]; intros [o l] Hf; cbn [unread] in *; [lia|].
  rewrite skip_comment_eq; cbn [unread tell].
  destruct l as [|c rest].
  - eexists; split; [reflexivity|]. cbn; lia.
  - cbn [List.length] in Hf. destruct (is_eol c).
    + eexists; split; [reflexivity|]. cbn; lia.
    + destruct (IH (mkfile (S o) rest)) as [fp' [E L]]; [cbn; lia|].
      exists fp'; split; [exact E|]. cbn in *; lia.
Qed.

Lemma skip_comment_fuel fuel : forall fuel' fp,
  List.length (unread fp) < fuel -> List.length (unread fp) < fuel' ->
  skip_comment fuel fp = skip_comment fuel' fp.
Proof.
  induction fuel as [|fuel IH]; intros [|fuel'] [o l] Hf Hf';
    cbn [unread] in *; try lia.
  rewrite !skip_comment_eq; cbn [unread tell].
  destruct l as [|c rest]; [reflexivity|]. cbn [List.length] in *.
  destruct (is_eol c); [reflexivity|]. apply IH; cbn; lia.
Qed.

Lemma read_token_loop_fuel fuel : forall fuel' token fp,
  List.length (unread fp) < fuel -> List.length (unread fp) < fuel' ->
  read_token_loop fuel token fp = read_token_loop fuel' token fp.
Proof.
  induction fuel as [|fuel IH]; intros [|fuel'] token [o l] Hf Hf';
    cbn [unread] in *; try lia.
  rewrite !read_token_loop_eq; cbn [unread tell].
  destruct (Z.of_nat (List.length token) <=? 10)%Z; [|reflexivity].
  destruct l as [|c rest]; [reflexivity|]. cbn [List.length] in *.
  cbv zeta. destruct (is_ws c).
  { destruct (truthy token); [reflexivity|]. apply IH; cbn; lia. }
  destruct (is_hash c); [|apply IH; cbn; lia].
  unfold bind.
  rewrite (skip_comment_fuel fuel fuel') by (cbn; lia).
  destruct (skip_comment_returns fuel' (mkfile (S o) rest)) as [fp' [E L]];
    [cbn; lia|].
  rewrite E. cbn [unread] in L. apply IH; lia.
Qed.

Lemma read_token_loop_returns fuel : forall token fp,
  List.length (unread fp) < fuel ->
  exists token' fp', read_token_loop fuel token fp = (Returned token', fp').
Proof.
  induction fuel as [|fuel IH]; intros token [o l] Hf; cbn [unread] in *; [lia|].
  rewrite read_token_loop_eq; cbn [unread tell].
  destruct (Z.of_nat (List.length token) <=? 10)%Z; [|eauto].
  destruct l as [|c rest]; [eauto|]. cbn [List.length] in *.
  cbv zeta. destruct (is_ws c).
  { destruct (truthy token); [eauto|]. apply IH; cbn; lia. }
  destruct (is_hash c); [|apply IH; cbn; lia].
  unfold bind.
  destruct (skip_comment_returns fuel (mkfile (S o) rest)) as [fp' [E L]];
    [cbn; lia|].
  rewrite E. cbn [unread] in L. apply IH; lia.
Qed.

(** *** One turn of the loop, by the byte that is read *)

Lemma loop_eof fuel token o :
  0 < fuel ->
  read_token_loop fuel token (mkfile o []) = (Returned token, mkfile o []).
Proof.
  destruct fuel; [lia|]. intros _. rewrite read_token_loop_eq.
  destruct (_ <=? _)%Z; reflexivity.
Qed.

Lemma loop_full fuel token fp :
  0 < fuel -> 10 < List.length token ->
  read_token_loop fuel token fp = (Returned token, fp).
Proof.
  destruct fuel; [lia|]. intros _ H. rewrite read_token_loop_eq.
  destruct (Z.leb_spec (Z.of_nat (List.length token)) 10); [lia|reflexivity].
Qed.

Lemma loop_leading_ws fuel c o rest :
  is_ws c = true -> List.length (c :: rest) < fuel ->
  read_token_loop fuel [] (mkfile o (c :: rest)) =
  read_token_loop fuel [] (mkfile (S o) rest).
Proof.
  destruct fuel; cbn [List.length]; [lia|]. intros W Hf.
  rewrite read_token_loop_eq at 1. cbn [unread tell List.length Z.of_nat Z.leb Z.compare truthy].
  cbv zeta. rewrite W. apply read_token_loop_fuel; cbn; lia.
Qed.

Lemma loop_stop_ws fuel token c o rest :
  is_ws c = true -> token <> [] -> List.length token <= 10 -> 0 < fuel ->
  read_token_loop fuel token (mkfile o (c :: rest)) =
  (Returned token, mkfile (S o) rest).
Proof.
  destruct fuel; [lia|]. intros W Hne Hl _.
  rewrite read_token_loop_eq. cbn [unread tell]. cbv zeta. rewrite W.
  destruct (Z.leb_spec (Z.of_nat (List.length token)) 10); [|lia].
  destruct token; [congruence|reflexivity].
Qed.

Lemma loop_token_byte fuel token c o rest :
  token_byte c = true -> List.length token <= 10 ->
  List.length (c :: rest) < fuel ->
  read_token_loop fuel token (mkfile o (c :: rest)) =
  read_token_loop fuel (token ++ [c]) (mkfile (S o) rest).
Proof.
  destruct fuel; cbn [List.length]; [lia|]. intros T Hl Hf.
  unfold token_byte in T. apply andb_true_iff in T as [W H].
  apply negb_true_iff in W, H.
  rewrite read_token_loop_eq at 1. cbn [unread tell]. cbv zeta. rewrite W, H.
  destruct (Z.leb_spec (Z.of_nat (List.length token)) 10); [|lia].
  apply read_token_loop_fuel; cbn; lia.
Qed.

Lemma ws_not_hash c : is_ws c = true -> is_hash c = false.
Proof. destruct c; cbv; congruence. Qed.

Lemma loop_hash fuel token o rest :
  List.length token <= 10 -> List.length (x23 :: rest) < fuel ->
  read_token_loop fuel token (mkfile o (x23 :: rest)) =
  bind (skip_comment fuel) (fun _ => read_token_loop fuel token)
       (mkfile (S o) rest).
Proof.
  destruct fuel; cbn [List.length]; [lia|]. intros Hl Hf.
  rewrite read_token_loop_eq at 1. cbn [unread tell]. cbv zeta.
  change (is_ws x23) with false. change (is_hash x23) with true. cbv iota.
  destruct (Z.leb_spec (Z.of_nat (List.length token)) 10); [|lia].
  unfold bind.
  rewrite (skip_comment_fuel fuel (S fuel)) by (cbn; lia).
  destruct (skip_comment_returns (S fuel) (mkfile (S o) rest)) as [fp' [E L]];
    [cbn; lia|].
  rewrite E. cbn [unread] in L. apply read_token_loop_fuel; lia.
Qed.

(** *** The comment loop *)


Lemma skip_comment_to_eof cmt : forall fuel o,
  forallb (fun c => negb (is_eol c)) cmt = true ->
  List.length cmt < fuel ->
  skip_comment fuel (mkfile o cmt) = (Returned tt, mkfile (o + List.length cmt) []).
Proof.
  induction cmt as [|c cmt IH]; intros [|fuel] o Hc Hf;
    cbn [List.length] in *; try lia; rewrite skip_comment_eq;
    cbn [unread tell]; cbv zeta.
  - do 2 f_equal; lia.
  - cbn [forallb] in Hc. apply andb_true_iff in Hc as [Hc1 Hc2].
    apply negb_true_iff in Hc1. rewrite Hc1.
    rewrite IH by (auto; lia). do 2 f_equal; lia.
Qed.

(** *** Runs of bytes *)

Lemma loop_skip_ws ws : forall fuel o rest,
  forallb is_ws ws = true -> List.length (ws ++ rest) < fuel ->
  read_token_loop fuel [] (mkfile o (ws ++ rest)) =
  read_token_loop fuel [] (mkfile (o + List.length ws) rest).
Proof.
  induction ws as [|c ws IH]; intros fuel o rest Hw Hf; cbn [app List.length] in *.
  - do 2 f_equal; lia.
  - cbn [forallb] in Hw. apply andb_true_iff in Hw as [Hw1 Hw2].
    rewrite loop_leading_ws by (auto; cbn; lia).
    rewrite IH by (auto; lia). do 2 f_equal; lia.
Qed.

Lemma loop_accumulate tok : forall fuel token o rest,
  forallb token_byte tok = true ->
  List.length token + List.length tok <= 11 ->
  List.length (tok ++ rest) < fuel ->
  read_token_loop fuel token (mkfile o (tok ++ rest)) =
  read_token_loop fuel (token ++ tok) (mkfile (o + List.length tok) rest).
Proof.
  induction tok as [|c tok IH]; intros fuel token o rest Ht Hl Hf;
    cbn [app List.length] in *.
  - rewrite app_nil_r. do 2 f_equal; lia.
  - cbn [forallb] in Ht. apply andb_true_iff in Ht as [Ht1 Ht2].
    rewrite loop_token_byte by (auto; cbn; lia).
    rewrite IH by (auto; rewrite ?length_app in *; cbn; lia).
    rewrite <- app_assoc. cbn [app]. do 2 f_equal; lia.
Qed.

Lemma loop_end fuel token o tail :
  ends_token tail = true -> token <> [] -> List.length token <= 10 ->
  0 < fuel ->
  read_token_loop fuel token (mkfile o tail) = (Returned token, after_token o tail).
Proof.
  intros He Hne Hl Hf. destruct tail as [|c rest]; cbn [ends_token after_token] in *.
  - apply loop_eof; lia.
  - apply loop_stop_ws; auto.
Qed.

(** *** What the loop can leave *)

Lemma skip_comment_shrinks fuel : forall fp r fp',
  skip_comment fuel fp = (r, fp') ->
  List.length (unread fp') <= List.length (unread fp).
Proof.
  induction fuel as [|fuel IH]; intros [o l] r fp' E.
  - inversion E; subst; lia.
  - rewrite skip_comment_eq in E; cbn [unread tell] in *.
    destruct l as [|c rest]; [inversion E; subst; cbn; lia|].
    cbv zeta in E. destruct (is_eol c).
    + inversion E; subst; cbn; lia.
    + apply IH in E. cbn in *; lia.
Qed.

Lemma read_token_loop_leaves fuel : forall token fp token' fp',
  read_token_loop fuel token fp = (Returned token', fp') ->
  List.length token <= 11 ->
  List.length token' <= 11 /\ (token' = [] -> unread fp' = []).
Proof.
  induction fuel as [|fuel IH]; intros token [o l] token' fp' E Hl;
    [discriminate|].
  rewrite read_token_loop_eq in E; cbn [unread tell] in E.
  destruct (Z.leb_spec (Z.of_nat (List.length token)) 10) as [Hle|Hgt].
  2:{ inversion E; subst. split; [lia|]. intros ->. cbn in Hgt; lia. }
  destruct l as [|c rest].
  { inversion E; subst. split; [lia|]. reflexivity. }
  cbv zeta in E. destruct (is_ws c).
  { destruct token as [|t1 token]; cbn [truthy] in E.
    - eapply IH; [exact E|cbn; lia].
    - inversion E; subst. split; [lia|discriminate]. }
  destruct (is_hash c).
  - unfold bind in E.
    destruct (skip_comment fuel (mkfile (S o) rest)) as [[[]|e|] fp2];
      try discriminate.
    eapply IH; [exact E|lia].
  - eapply IH; [exact E|]. rewrite length_app; cbn; lia.
Qed.

Lemma skip_comment_never_raises fuel : forall fp e fp',
  skip_comment fuel fp <> (Raised e, fp').
Proof.
  induction fuel as [|fuel IH]; intros [o l] e fp'; [discriminate|].
  rewrite skip_comment_eq; cbn [unread tell].
  destruct l as [|c rest]; [discriminate|]. cbv zeta.
  destruct (is_eol c); [discriminate|apply IH].
Qed.

Lemma read_token_loop_never_raises fuel : forall token fp e fp',
  read_token_loop fuel token fp <> (Raised e, fp').
Proof.
  induction fuel as [|fuel IH]; intros token [o l] e fp'; [discriminate|].
  rewrite read_token_loop_eq; cbn [unread tell].
  destruct (_ <=? _)%Z; [|discriminate].
  destruct l as [|c rest]; [discriminate|]. cbv zeta.
  destruct (is_ws c); [destruct (truthy token); [discriminate|apply IH]|].
  destruct (is_hash c); [|apply IH]. unfold bind.
  destruct (skip_comment fuel (mkfile (S o) rest)) as [[[]|e'|] fp2] eqn:K;
    [apply IH| |discriminate].
  exfalso. exact (skip_comment_never_raises _ _ _ _ K).
Qed.

End Tokenizer.

(* ===================================================================== *)
(** * Properties of the tokenizer *)
(* ===================================================================== *)

Section TokenizerProperties.

Local Open Scope nat_scope.

(** Side conditions: the classes of the bytes, and lengths. *)
Ltac lengths :=
  repeat first [ rewrite length_app | progress cbn [List.length app] ].
Ltac lengths_in H :=
  repeat first [ rewrite length_app in H | progress cbn [List.length app] in H ].
Ltac side := first [ assumption | discriminate | lengths; lia ].

(** C8.  [_read_token] skips leading white space and then accumulates the
    bytes that follow: (1) leading white space is passed over; (2) when the
    end of the input comes with nothing accumulated it fails with
    [UnexpectedEndOfHeader]; (3) a run of one to ten token bytes ended by a
    white space or by the end of the input is returned as the token; (4) a
    run of eleven token bytes fails with [TokenTooLong], which carries these
    eleven bytes; (5) on every input, a returned token has one to ten bytes,
    [UnexpectedEndOfHeader] is raised with the input exhausted, and
    [TokenTooLong] carries eleven bytes; (6) two reads of
    [b"  12 #comment\n34"] give [b"12"] then [b"34"].  A token byte is a
    byte that is neither white space nor the comment sign. *)
Theorem read_token_spec :
  (forall fuel o ws s,
      forallb is_ws ws = true -> List.length (ws ++ s) < fuel ->
      _read_token fuel (mkfile o (ws ++ s)) =
      _read_token fuel (mkfile (o + List.length ws) s))
  /\
  (forall fuel o ws,
      forallb is_ws ws = true -> List.length ws < fuel ->
      _read_token fuel (mkfile o ws) =
      (Raised UnexpectedEndOfHeader, mkfile (o + List.length ws) []))
  /\
  (forall fuel o ws tok tail,
      forallb is_ws ws = true ->
      forallb token_byte tok = true -> 1 <= List.length tok <= 10 ->
      ends_token tail = true ->
      List.length (ws ++ tok ++ tail) < fuel ->
      _read_token fuel (mkfile o (ws ++ tok ++ tail)) =
      (Returned tok, after_token (o + List.length ws + List.length tok) tail))
  /\
  (forall fuel o ws run rest,
      forallb is_ws ws = true ->
      forallb token_byte run = true -> List.length run = 11 ->
      List.length (ws ++ run ++ rest) < fuel ->
      _read_token fuel (mkfile o (ws ++ run ++ rest)) =
      (Raised (TokenTooLong run), mkfile (o + List.length ws + 11) rest))
  /\
  (forall fuel fp r fp',
      _read_token fuel fp = (r, fp') ->
      match r with
      | Returned token => 1 <= List.length token <= 10
      | Raised e =>
          (e = UnexpectedEndOfHeader /\ unread fp' = []) \/
          (exists token, e = TokenTooLong token /\ List.length token = 11)
      | OutOfFuel => fuel <= List.length (unread fp)
      end)
  /\
  (exists fp1 fp2,
      _read_token 17 (open_bytes example_header) = (Returned (b"12"), fp1) /\
      _read_token 17 fp1 = (Returned (b"34"), fp2)).
Proof.
  repeat apply conj.
  - intros fuel o ws s Hw Hf. unfold _read_token, bind.
    rewrite loop_skip_ws by assumption. reflexivity.
  - intros fuel o ws Hw Hf. unfold _read_token, bind.
    rewrite <- (app_nil_r ws) at 1.
    rewrite loop_skip_ws by (rewrite ?app_nil_r; assumption).
    rewrite loop_eof by lia. reflexivity.
  - intros fuel o ws tok tail Hw Ht Hl He Hf. unfold _read_token, bind.
    lengths_in Hf.
    rewrite loop_skip_ws by side.
    rewrite loop_accumulate by side.
    cbn [app]. rewrite loop_end; try lia; auto.
    + destruct tok as [|t tok]; [cbn in Hl; lia|]. cbn [truthy negb].
      destruct (Z.gtb_spec (Z.of_nat (List.length (t :: tok))) 10); [lia|].
      reflexivity.
    + intros ->. cbn in Hl; lia.
  - intros fuel o ws run rest Hw Hr Hl Hf. unfold _read_token, bind.
    lengths_in Hf.
    rewrite loop_skip_ws by side.
    rewrite loop_accumulate by side.
    cbn [app]. rewrite loop_full by lia.
    destruct run as [|t run]; [discriminate|]. cbn [truthy negb].
    destruct (Z.gtb_spec (Z.of_nat (List.length (t :: run))) 10); [|lia].
    rewrite Hl. reflexivity.
  - intros fuel fp r fp' E. unfold _read_token, bind in E.
    destruct (read_token_loop fuel [] fp) as [[token|e|] fp1] eqn:L.
    + apply read_token_loop_leaves in L as [L1 L2]; [|cbn; lia].
      destruct token as [|t token]; cbn [truthy negb] in E.
      * inversion E; subst. left. split; [reflexivity|]. auto.
      * destruct (Z.gtb_spec (Z.of_nat (List.length (t :: token))) 10);
          inversion E; subst.
        -- right. exists (t :: token). split; [reflexivity|]. lia.
        -- cbn [List.length] in *. lia.
    + destruct (Nat.lt_ge_cases (List.length (unread fp)) fuel) as [Hlt|Hge].
      * destruct (read_token_loop_returns fuel [] fp Hlt) as [t [f R]].
        congruence.
      * exfalso. exact (read_token_loop_never_raises _ _ _ _ _ L).
    + inversion E; subst.
      destruct (Nat.lt_ge_cases (List.length (unread fp)) fuel) as [Hlt|Hge];
        [|exact Hge].
      destruct (read_token_loop_returns fuel [] fp Hlt) as [t [f R]].
      congruence.
  - exists (mkfile 5 (x23 :: b"comment" ++ [LF] ++ b"34")), (mkfile 16 []).
    split; vm_compute; reflexivity.
Qed.

Lemma read_token_spec_witness :
  _read_token 20 (open_bytes (b"  " ++ b"12345678901" ++ b" 7")) =
  (Raised (TokenTooLong (b"12345678901")), mkfile 13 (b" 7")).
Proof.
  destruct read_token_spec as (_ & _ & _ & H & _).
  apply (H 20 0 (b"  ") (b"12345678901") (b" 7")); [reflexivity..|cbn; lia].
Defined.

(** C8, as it is stated, fails: the comment sign is not a white space and
    is not accumulated either.  The eleven bytes [b"1234567890#"] give the
    token of the first ten, the comment that [#] starts being empty; and on
    [b"#2345678901"] all eleven bytes are a comment, so that the end of the
    input comes with nothing accumulated. *)
Lemma long_run_with_comment_sign :
  _read_token 20 (open_bytes (b"1234567890#")) =
    (Returned (b"1234567890"), mkfile 11 [])
  /\ _read_token 20 (open_bytes (b"#2345678901")) =
    (Raised UnexpectedEndOfHeader, mkfile 11 [])
  /\ ~ long_run_too_long.
Proof.
  assert (E : _read_token 20 (open_bytes (b"1234567890#")) =
              (Returned (b"1234567890"), mkfile 11 []))
    by (vm_compute; reflexivity).
  split; [exact E|]. split; [vm_compute; reflexivity|].
  intros H.
  destruct (H 20 (b"1234567890#") [] eq_refl eq_refl) as (token & fp' & R).
  - cbn. lia.
  - rewrite app_nil_r in R. rewrite E in R. discriminate R.
Qed.




(** C10.  [_read_token] terminates on every finite input: with more fuel
    than there are unread bytes it gives an outcome that is not [OutOfFuel],
    the same for every such amount of fuel.  When the input ends inside a
    comment, the comment loop stops at the end of the input; the token loop
    then leaves with the token accumulated so far, so that [_read_token]
    returns this token, or fails with [UnexpectedEndOfHeader] when it is
    empty. *)
Theorem read_token_terminates :
  (forall fuel fp,
      List.length (unread fp) < fuel ->
      exists r fp',
        _read_token fuel fp = (r, fp') /\ r <> OutOfFuel /\
        forall fuel', List.length (unread fp) < fuel' ->
                      _read_token fuel' fp = (r, fp'))
  /\
  (forall fuel o cmt,
      forallb (fun c => negb (is_eol c)) cmt = true ->
      List.length cmt < fuel ->
      skip_comment fuel (mkfile o cmt) =
      (Returned tt, mkfile (o + List.length cmt) []))
  /\
  (forall fuel o token cmt,
      List.length token <= 10 ->
      forallb (fun c => negb (is_eol c)) cmt = true ->
      List.length (x23 :: cmt) < fuel ->
      read_token_loop fuel token (mkfile o (x23 :: cmt)) =
      (Returned token, mkfile (o + 1 + List.length cmt) []))
  /\
  (forall fuel o ws tok cmt,
      forallb is_ws ws = true ->
      forallb token_byte tok = true -> List.length tok <= 10 ->
      forallb (fun c => negb (is_eol c)) cmt = true ->
      List.length (ws ++ tok ++ x23 :: cmt) < fuel ->
      _read_token fuel (mkfile o (ws ++ tok ++ x23 :: cmt)) =
      (match tok with
       | [] => Raised UnexpectedEndOfHeader
       | _ :: _ => Returned tok
       end,
       mkfile (o + List.length ws + List.length tok + 1 + List.length cmt) [])).
Proof.
  assert (Hash : forall fuel o token cmt,
             List.length token <= 10 ->
             forallb (fun c => negb (is_eol c)) cmt = true ->
             List.length (x23 :: cmt) < fuel ->
             read_token_loop fuel token (mkfile o (x23 :: cmt)) =
             (Returned token, mkfile (o + 1 + List.length cmt) [])).
  { intros fuel o token cmt Hl Hc Hf. cbn [List.length] in Hf.
    rewrite loop_hash by (cbn; lia). unfold bind.
    rewrite skip_comment_to_eof by (auto; lia).
    rewrite loop_eof by lia. do 2 f_equal; lia. }
  repeat apply conj.
  - intros fuel fp Hf.
    destruct (read_token_loop_returns fuel [] fp Hf) as [token [fp1 L]].
    assert (A : forall fuel', List.length (unread fp) < fuel' ->
                  _read_token fuel' fp =
                  (token <- ret token ;; 
                   if negb (truthy token) then raise UnexpectedEndOfHeader
                   else if (Z.of_nat (List.length token) >? 10)%Z
                        then raise (TokenTooLong token)
                        else ret token)%py fp1).
    { intros fuel' Hf'. unfold _read_token, bind.
      rewrite (read_token_loop_fuel fuel' fuel) by assumption.
      rewrite L. reflexivity. }
    unfold bind, ret in A.
    destruct (negb (truthy token)).
    { do 2 eexists. split; [apply A; assumption|]. split; [discriminate|exact A]. }
    destruct (Z.of_nat (List.length token) >? 10)%Z.
    { do 2 eexists. split; [apply A; assumption|]. split; [discriminate|exact A]. }
    do 2 eexists. split; [apply A; assumption|]. split; [discriminate|exact A].
  - intros; apply skip_comment_to_eof; assumption.
  - exact Hash.
  - intros fuel o ws tok cmt Hw Ht Hl Hc Hf. unfold _read_token, bind.
    lengths_in Hf.
    rewrite loop_skip_ws by side.
    rewrite loop_accumulate by side.
    cbn [app]. rewrite Hash by side.
    destruct tok as [|t tok]; cbn [truthy negb].
    + reflexivity.
    + destruct (Z.gtb_spec (Z.of_nat (List.length (t :: tok))) 10); [lia|].
      reflexivity.
Qed.

Lemma read_token_terminates_witness :
  _read_token 9 (open_bytes (b" " ++ b"12" ++ x23 :: b"tail")) =
    (Returned (b"12"), mkfile 8 [])
  /\ _read_token 7 (open_bytes (b" " ++ [] ++ x23 :: b"tail")) =
    (Raised UnexpectedEndOfHeader, mkfile 6 []).
Proof.
  destruct read_token_terminates as (_ & _ & _ & H).
  split.
  - apply (H 9 0 (b" ") (b"12") (b"tail")); first [reflexivity | cbn; lia].
  - apply (H 7 0 (b" ") [] (b"tail")); first [reflexivity | cbn; lia].
Defined.

End TokenizerProperties.

(* ===================================================================== *)
(** * Properties of the codec *)
(* ===================================================================== *)

Section Decode.

Variable fuel : nat.
Variables fp fp1 fp2 fp3 fp4 : file.
Variable magic_number : bytes.
Variable mode0 : string.
Variables xsize ysize maxval : Z.

(** The header is read: a magic number of [MODES], then three tokens that
    are integers. *)
Hypothesis Hmagic : _read_magic fp = (Returned magic_number, fp1).
Hypothesis Hmode : dict_get MODES magic_number = Some mode0.
Hypothesis Hxsize : read_int fuel fp1 = (Returned xsize, fp2).
Hypothesis Hysize : read_int fuel fp2 = (Returned ysize, fp3).
Hypothesis Hmaxval : read_int fuel fp3 = (Returned maxval, fp4).

Lemma open_after_header :
  String.eqb mode0 "1" = false ->
  _open fuel fp =
  (modes <- (if maxval >? 255 then
               if negb (String.eqb mode0 "L") then
                 raise (TooManyColorsForBand maxval)
               else
                 ret ("I"%string,
                      if maxval <? 2 ^ 16 then "I;16B"%string
                      else "I;32B"%string)
             else ret (mode0, mode0)) ;;
   offset <- ftell ;;
   ret {| custom_mimetype := dict_get mimetypes magic_number;
          mode := fst modes;
          _size := (xsize, ysize);
          tile := [("raw"%string, (0, 0, xsize, ysize), offset,
                    (snd modes, 0, 1))] |})%py fp4.
Proof.
  intros Hb. unfold _open.
  unfold bind at 1. rewrite Hmagic.
  unfold bind at 1. rewrite Hmode. unfold ret at 1.
  rewrite Hb.
  unfold bind at 1. rewrite Hxsize.
  unfold bind at 1. rewrite Hysize.
  unfold bind at 1. unfold bind at 1. rewrite Hmaxval.
  reflexivity.
Qed.

End Decode.

(** C1.  When the magic number stands for mode "L" and the maxval token is
    an integer above 255, [_open] succeeds, the mode it reports is "I", and
    the raw mode of its one tile is "I;16B" exactly when [maxval < 65536]
    and "I;32B" otherwise. *)
Theorem open_wide_grayscale fuel fp fp1 fp2 fp3 fp4 magic_number xsize ysize maxval :
  _read_magic fp = (Returned magic_number, fp1) ->
  dict_get MODES magic_number = Some "L"%string ->
  read_int fuel fp1 = (Returned xsize, fp2) ->
  read_int fuel fp2 = (Returned ysize, fp3) ->
  read_int fuel fp3 = (Returned maxval, fp4) ->
  255 < maxval ->
  exists im rawmode,
    _open fuel fp = (Returned im, fp4) /\
    mode im = "I"%string /\
    _size im = (xsize, ysize) /\
    tile im = [("raw"%string, (0, 0, xsize, ysize), tell fp4, (rawmode, 0, 1))] /\
    (maxval < 65536 -> rawmode = "I;16B"%string) /\
    (65536 <= maxval -> rawmode = "I;32B"%string) /\
    (rawmode = "I;16B"%string <-> maxval < 65536).
Proof.
  intros Hmagic Hmode Hx Hy Hm Hgt.
  rewrite (open_after_header fuel fp fp1 fp2 fp3 fp4 magic_number "L"
             xsize ysize maxval) by (assumption || reflexivity).
  destruct (Z.gtb_spec maxval 255); [|lia].
  cbn [String.eqb Ascii.eqb Bool.eqb negb]. unfold bind, ret, ftell.
  change (2 ^ 16) with 65536.
  eexists.
  exists (if maxval <? 65536 then "I;16B"%string else "I;32B"%string).
  split; [reflexivity|]. cbn [mode _size tile fst snd].
  destruct (Z.ltb_spec maxval 65536); repeat split; intros;
    solve [lia | reflexivity | congruence].
Qed.

Lemma open_wide_grayscale_witness :
  (exists im, fst (_open 20 (open_bytes (b"P5 2 3 65535" ++ [LF] ++ b"xx"))) = Returned im /\
              mode im = "I"%string /\
              tile im = [("raw", (0, 0, 2, 3), 13%nat, ("I;16B", 0, 1))]%string) /\
  (exists im, fst (_open 20 (open_bytes (b"P5 2 3 65536" ++ [LF] ++ b"xx"))) = Returned im /\
              mode im = "I"%string /\
              tile im = [("raw", (0, 0, 2, 3), 13%nat, ("I;32B", 0, 1))]%string) /\
  (exists im, fst (_open 20 (open_bytes (b"P5 2 3 70000" ++ [LF] ++ b"xx"))) = Returned im /\
              mode im = "I"%string /\
              tile im = [("raw", (0, 0, 2, 3), 13%nat, ("I;32B", 0, 1))]%string).
Proof.
  repeat apply conj.
  - destruct (open_wide_grayscale 20
                (open_bytes (b"P5 2 3 65535" ++ [LF] ++ b"xx"))
                (mkfile 3 (b"2 3 65535" ++ [LF] ++ b"xx"))
                (mkfile 5 (b"3 65535" ++ [LF] ++ b"xx"))
                (mkfile 7 (b"65535" ++ [LF] ++ b"xx"))
                (mkfile 13 (b"xx")) (b"P5") 2 3 65535)
      as (im & rawmode & E & Hm & _ & Ht & H16 & _);
      try reflexivity.
    exists im. rewrite E, Hm, Ht, H16 by lia. repeat split.
  - destruct (open_wide_grayscale 20
                (open_bytes (b"P5 2 3 65536" ++ [LF] ++ b"xx"))
                (mkfile 3 (b"2 3 65536" ++ [LF] ++ b"xx"))
                (mkfile 5 (b"3 65536" ++ [LF] ++ b"xx"))
                (mkfile 7 (b"65536" ++ [LF] ++ b"xx"))
                (mkfile 13 (b"xx")) (b"P5") 2 3 65536)
      as (im & rawmode & E & Hm & _ & Ht & _ & H32 & _);
      try reflexivity.
    exists im. rewrite E, Hm, Ht, H32 by lia. repeat split.
  - destruct (open_wide_grayscale 20
                (open_bytes (b"P5 2 3 70000" ++ [LF] ++ b"xx"))
                (mkfile 3 (b"2 3 70000" ++ [LF] ++ b"xx"))
                (mkfile 5 (b"3 70000" ++ [LF] ++ b"xx"))
                (mkfile 7 (b"70000" ++ [LF] ++ b"xx"))
                (mkfile 13 (b"xx")) (b"P5") 2 3 70000)
      as (im & rawmode & E & Hm & _ & Ht & _ & H32 & _);
      try reflexivity.
    exists im. rewrite E, Hm, Ht, H32 by lia. repeat split.
Defined.

(** C9.  When the magic number stands for a mode that is neither "1" nor
    "L" (RGB, CMYK, P, RGBA) and the maxval token is an integer above 255,
    [_open] fails with [TooManyColorsForBand], which carries the maxval. *)
Theorem open_too_many_colors fuel fp fp1 fp2 fp3 fp4 magic_number mode0
    xsize ysize maxval :
  _read_magic fp = (Returned magic_number, fp1) ->
  dict_get MODES magic_number = Some mode0 ->
  mode0 <> "1"%string -> mode0 <> "L"%string ->
  read_int fuel fp1 = (Returned xsize, fp2) ->
  read_int fuel fp2 = (Returned ysize, fp3) ->
  read_int fuel fp3 = (Returned maxval, fp4) ->
  255 < maxval ->
  _open fuel fp = (Raised (TooManyColorsForBand maxval), fp4).
Proof.
  intros Hmagic Hmode H1 HL Hx Hy Hm Hgt.
  apply String.eqb_neq in H1, HL.
  rewrite (open_after_header fuel fp fp1 fp2 fp3 fp4 magic_number mode0
             xsize ysize maxval) by assumption.
  destruct (Z.gtb_spec maxval 255); [|lia].
  rewrite HL. reflexivity.
Qed.

Lemma open_too_many_colors_witness :
  _open 20 (open_bytes (b"P6 2 3 256" ++ [LF] ++ b"xx")) =
  (Raised (TooManyColorsForBand 256), mkfile 11 (b"xx")).
Proof.
  apply (open_too_many_colors 20 _
           (mkfile 3 (b"2 3 256" ++ [LF] ++ b"xx"))
           (mkfile 5 (b"3 256" ++ [LF] ++ b"xx"))
           (mkfile 7 (b"256" ++ [LF] ++ b"xx"))
           (mkfile 11 (b"xx")) (b"P6") "RGB" 2 3 256);
    first [reflexivity | discriminate | lia].
Defined.

Section Encode.

Variable ImageFile_save : Image -> bytes -> list tile_t -> outcome unit * bytes.

(** C2.  For an image of mode "I", [_save] writes the magic number [P5],
    the size line and then the maxval line, and hands the pixels to the
    generic encoder with one raw tile: when the maximum of the image is
    below 65536 the maxval written is [65535] and the raw mode "I;16B",
    otherwise the maxval written is [2147483648] and the raw mode
    "I;32B". *)
Theorem save_wide_integer (im : Image) (fp : bytes) :
  im_mode im = "I"%string ->
  _save ImageFile_save im fp =
  ImageFile_save im
    (fp ++ b"P5" ++ [LF] ++ fmt_d (fst (im_size im)) ++ b" " ++
     fmt_d (snd (im_size im)) ++ [LF] ++
     (if snd (getextrema im) <? 65536 then b"65535" else b"2147483648") ++ [LF])
    [("raw"%string, (0, 0, fst (im_size im), snd (im_size im)), 0%nat,
      (if snd (getextrema im) <? 65536 then "I;16B"%string else "I;32B"%string,
       0, 1))].
Proof.
  intros Hm.
  unfold _save, select_rawmode. rewrite Hm.
  cbn [String.eqb Ascii.eqb Bool.eqb].
  change (2 ^ 16) with 65536.
  destruct (snd (getextrema im) <? 65536);
    unfold maxval_line;
    cbn [bytes_eqb b list_byte_of_string Byte.eqb String.eqb Ascii.eqb Bool.eqb andb];
    rewrite <- ?app_assoc; reflexivity.
Qed.

End Encode.

Lemma save_wide_integer_witness :
  _save no_pixels {| im_mode := "I"; im_size := (2, 1); getextrema := (0, 65536) |} [] =
    (Returned tt, b"P5" ++ [LF] ++ b"2 1" ++ [LF] ++ b"2147483648" ++ [LF])
  /\
  _save no_pixels {| im_mode := "I"; im_size := (2, 1); getextrema := (0, 65535) |} [] =
    (Returned tt, b"P5" ++ [LF] ++ b"2 1" ++ [LF] ++ b"65535" ++ [LF]).
Proof.
  split.
  - exact (save_wide_integer no_pixels
             {| im_mode := "I"; im_size := (2, 1); getextrema := (0, 65536) |} []
             eq_refl).
  - exact (save_wide_integer no_pixels
             {| im_mode := "I"; im_size := (2, 1); getextrema := (0, 65535) |} []
             eq_refl).
Defined.

(* ===================================================================== *)
(** * The statistics: loops and bands *)
(* ===================================================================== *)

Section Loops.

Context {A B S : Type}.

Lemma mapM_pure (f : A -> result B) (g : A -> B) (l : list A) :
  (forall a, In a l -> f a = Ok (g a)) -> mapM f l = Ok (map g l).
Proof.
  induction l as [|a l IH]; intros H; cbn [mapM map]; [reflexivity|].
  rewrite (H a) by (left; reflexivity). cbn [rbind Ok].
  rewrite IH by (intros; apply H; right; assumption). reflexivity.
Qed.

(** A comprehension raises [e] as soon as one element does and no element
    raises anything else. *)
Lemma mapM_raises (f : A -> result B) (e : exn) (l : list A) (a : A) :
  In a l -> f a = Err e ->
  (forall x, In x l -> f x = Err e \/ exists v, f x = Ok v) ->
  mapM f l = Err e.
Proof.
  induction l as [|x l IH]; intros Hin Ha Hall; [contradiction|].
  cbn [mapM]. destruct (Hall x (or_introl eq_refl)) as [E|[v E]]; rewrite E.
  - reflexivity.
  - cbn [rbind Ok]. destruct Hin as [->|Hin]; [rewrite Ha in E; discriminate|].
    rewrite IH; auto. intros y Hy. apply Hall. right; assumption.
Qed.

Lemma foldM_pure (f : A -> S -> result S) (g : A -> S -> S) (l : list A) :
  forall s,
  (forall a s', In a l -> f a s' = Ok (g a s')) ->
  foldM f l s = Ok (fold_left (fun s' a => g a s') l s).
Proof.
  induction l as [|a l IH]; intros s H; cbn [foldM fold_left]; [reflexivity|].
  rewrite (H a) by (left; reflexivity). cbn [rbind Ok].
  apply IH. intros; apply H; right; assumption.
Qed.

Lemma mapM_map {C} (f : A -> result B) (g : C -> A) (l : list C) :
  mapM f (map g l) = mapM (fun x => f (g x)) l.
Proof.
  induction l as [|c l IH]; cbn [map mapM]; [reflexivity|].
  rewrite IH. reflexivity.
Qed.

(** A comprehension over [g 0, ..., g (n - 1)] whose elements all return. *)
Lemma mapM_seq (f : A -> result B) (g : nat -> A) (P : nat -> B -> Prop) n :
  forall a,
  (forall i, (a <= i < a + n)%nat -> exists v, f (g i) = Ok v /\ P i v) ->
  exists vs, mapM f (map g (seq a n)) = Ok vs /\ List.length vs = n /\
             forall i, (i < n)%nat ->
                       exists v, nth_error vs i = Some v /\ P (a + i)%nat v.
Proof.
  induction n as [|n IH]; intros a H; cbn [seq map mapM].
  - exists []. repeat split. intros i Hi; inversion Hi.
  - destruct (H a) as [v [E Pv]]; [lia|]. rewrite E. cbn [rbind Ok].
    destruct (IH (Datatypes.S a)) as [vs [Evs [L N]]];
      [intros i Hi; apply H; lia|].
    rewrite Evs. cbn [rbind Ok]. exists (v :: vs).
    split; [reflexivity|]. split; [cbn; lia|].
    intros [|i] Hi; cbn [nth_error].
    + exists v. rewrite Nat.add_0_r. auto.
    + destruct (N i) as [w [Ew Pw]]; [lia|]. exists w.
      rewrite Nat.add_succ_r. auto.
Qed.

End Loops.

Section Bands.

Local Open Scope nat_scope.

Lemma getitem_ok {A} (l : list A) (i : nat) (d : A) :
  i < List.length l -> getitem l i = Ok (nth i l d).
Proof.
  intros H. unfold getitem. rewrite (nth_error_nth' l d H). reflexivity.
Qed.

Lemma getitem_band hist i j :
  j < 256 -> getitem hist (i * 256 + j) = getitem (band_bins hist i) j.
Proof.
  intros H. unfold getitem, band_bins.
  rewrite nth_error_firstn, nth_error_skipn.
  destruct (Nat.ltb_spec j 256); [reflexivity|lia].
Qed.

Lemma getitem_tail hist i j :
  j < 256 -> getitem (skipn (i * 256) hist) j = getitem (band_bins hist i) j.
Proof.
  intros H. unfold getitem, band_bins. rewrite nth_error_firstn.
  destruct (Nat.ltb_spec j 256); [reflexivity|lia].
Qed.

Lemma Zsum_fold_left l : forall x, fold_left Z.add l x = (x + Zsum l)%Z.
Proof.
  induction l as [|y l IH]; intros x; cbn [fold_left Zsum fold_right]; [lia|].
  rewrite IH. unfold Zsum. lia.
Qed.

Lemma Zsum_app l1 l2 : Zsum (l1 ++ l2) = (Zsum l1 + Zsum l2)%Z.
Proof.
  induction l1 as [|x l1 IH]; cbn [app Zsum fold_right] in *; [reflexivity|].
  unfold Zsum in *. rewrite IH. lia.
Qed.

Lemma Zsum_nonneg l : Forall (fun c => (0 <= c)%Z) l -> (0 <= Zsum l)%Z.
Proof.
  induction 1 as [|x l Hx _ IH]; cbn [Zsum fold_right]; [lia|].
  unfold Zsum in *. lia.
Qed.

Lemma cumulative_step bins j :
  j < List.length bins ->
  cumulative bins j = (Zsum (firstn j bins) + nth j bins 0%Z)%Z.
Proof.
  unfold cumulative. revert j.
  induction bins as [|x bins IH]; intros j H; cbn [List.length] in H; [lia|].
  destruct j as [|j].
  - cbn. lia.
  - change (firstn (S (S j)) (x :: bins)) with (x :: firstn (S j) bins).
    change (firstn (S j) (x :: bins)) with (x :: firstn j bins).
    cbn [Zsum fold_right nth]. fold (Zsum (firstn (S j) bins)).
    fold (Zsum (firstn j bins)). rewrite IH by lia. lia.
Qed.

Lemma reduce_add_Zsum l : l <> [] -> reduce_add l = Ok (Zsum l).
Proof.
  destruct l as [|x l]; [congruence|]. intros _. cbn [reduce_add].
  rewrite Zsum_fold_left. reflexivity.
Qed.

Variable hist : list Z.
Variable nb : nat.
Hypothesis Hlen : List.length hist = nb * 256.

Lemma bands_of_length : range (List.length hist / 256) = seq 0 nb.
Proof. unfold range. rewrite Hlen, Nat.div_mul by lia. reflexivity. Qed.

Lemma starts_of_length :
  range256 (List.length hist) = map (fun k => k * 256) (seq 0 nb).
Proof.
  unfold range256. rewrite Hlen.
  replace ((nb * 256 + 255) / 256) with nb; [reflexivity|].
  apply Nat.div_unique with (r := 255); lia.
Qed.

Lemma band_bins_length i : i < nb -> List.length (band_bins hist i) = 256.
Proof.
  intros H. unfold band_bins. rewrite length_firstn, length_skipn. lia.
Qed.

Lemma band_bins_nonneg i :
  Forall (fun c => (0 <= c)%Z) hist ->
  Forall (fun c => (0 <= c)%Z) (band_bins hist i).
Proof.
  intros H. rewrite Forall_forall in *. intros x Hx. apply H.
  unfold band_bins in Hx.
  rewrite <- (firstn_skipn (i * 256) hist). apply in_or_app. right.
  rewrite <- (firstn_skipn 256 (skipn (i * 256) hist)).
  apply in_or_app. left; exact Hx.
Qed.

(** Over a list of the right length, [__init__] and [_getcount]. *)
Lemma getcount_bands bs :
  _getcount {| h := hist; bands := bs |} =
  Ok (map (fun i => Zsum (band_bins hist i)) (seq 0 nb)).
Proof.
  unfold _getcount; cbn [h]. rewrite starts_of_length.
  rewrite (mapM_pure _ (fun s => Zsum (firstn 256 (skipn s hist)))).
  - rewrite map_map. reflexivity.
  - intros a Ha. apply in_map_iff in Ha as [k [<- Hk]]. apply in_seq in Hk.
    apply reduce_add_Zsum. intros E.
    pose proof (band_bins_length k ltac:(lia)) as L.
    unfold band_bins in L. rewrite E in L. discriminate.
Qed.

End Bands.

Lemma init_list {Mask : Type} (mask : option Mask) (l : list Z) (st : Stat) :
  __init__ (PyList l) mask = Ok st ->
  st = {| h := l; bands := range (List.length l / 256) |}.
Proof. unfold __init__, Ok. intros E. congruence. Qed.

(* ===================================================================== *)
(** * Properties of the statistics *)
(* ===================================================================== *)

Section Construction.

Context {Mask : Type}.


End Construction.


Section Extrema.

Local Open Scope nat_scope.

Variable bins : list Z.
Hypothesis Hbins : List.length bins = 256.

(** After bins [0 .. i-1]: nothing seen yet, or the first and the last
    non-zero bin so far. *)
Definition extrema_inv (i : nat) (p : nat * nat) : Prop :=
  ((forall j, j < i -> nth j bins 0%Z = 0%Z) /\ p = (255, 0)) \/
  (fst p <= snd p < i /\
   nth (fst p) bins 0%Z <> 0%Z /\ nth (snd p) bins 0%Z <> 0%Z /\
   (forall j, j < fst p -> nth j bins 0%Z = 0%Z) /\
   (forall j, snd p < j < i -> nth j bins 0%Z = 0%Z)).

Lemma minmax_loop len : forall a p,
  a + len <= 256 -> extrema_inv a p ->
  exists p',
    foldM (fun i '(n, x) =>
             do hi <- getitem bins i;
             if negb (hi =? 0)%Z then Ok (Nat.min n i, Nat.max x i)
             else Ok (n, x))
          (seq a len) p = Ok p' /\
    extrema_inv (a + len) p'.
Proof.
  induction len as [|len IH]; intros a [n x] Ha Inv; cbn [seq foldM].
  - exists (n, x). rewrite Nat.add_0_r. auto.
  - rewrite (getitem_ok bins a 0%Z) by lia. cbn [rbind Ok].
    destruct (Z.eqb_spec (nth a bins 0%Z) 0) as [E|E]; cbn [negb rbind Ok].
    + destruct (IH (Datatypes.S a) (n, x)) as [p' [F I]]; [lia| |].
      * destruct Inv as [[Z0 P]|(R & Hn & Hx & Lo & Hi)]; [left|right].
        -- split; [|exact P]. intros j Hj.
           destruct (Nat.eq_dec j a) as [->|]; [exact E|apply Z0; lia].
        -- cbn [fst snd] in *. repeat split; auto; try lia.
           intros j Hj. destruct (Nat.eq_dec j a) as [->|]; [exact E|apply Hi; lia].
      * exists p'. rewrite Nat.add_succ_r. auto.
    + destruct (IH (Datatypes.S a) (Nat.min n a, Nat.max x a)) as [p' [F I]]; [lia| |].
      * right. cbn [fst snd].
        destruct Inv as [[Z0 P]|(R & Hn & Hx & Lo & Hi)].
        -- inversion P; subst.
           rewrite (Nat.min_r 255 a), (Nat.max_r 0 a) by lia.
           repeat split; auto; try lia; intros j Hj; lia.
        -- cbn [fst snd] in *.
           rewrite (Nat.min_l n a), (Nat.max_r x a) by lia.
           repeat split; auto; try lia; intros j Hj; lia.
      * exists p'. rewrite Nat.add_succ_r. auto.
Qed.

Lemma minmax_bins :
  exists p, minmax bins = Ok p /\ extrema_inv 256 p.
Proof.
  apply (minmax_loop 256 0 (255, 0)); [lia|].
  left. split; [|reflexivity]. intros j Hj; inversion Hj.
Qed.

End Extrema.

Lemma foldM_ext {A S} (f g : A -> S -> result S) (l : list A) :
  forall s, (forall a s', In a l -> f a s' = g a s') -> foldM f l s = foldM g l s.
Proof.
  induction l as [|a l IH]; intros s H; cbn [foldM]; [reflexivity|].
  rewrite (H a) by (left; reflexivity). destruct (g a s); cbn [rbind]; [reflexivity|].
  apply IH. intros; apply H; right; assumption.
Qed.

Section ExtremaProperty.

Local Open Scope nat_scope.
Context {Mask : Type}.

(** C7.  Over a histogram of [nb] bands, [_getextrema] returns one pair a
    band: [(255, 0)] when every bin of the band is zero; otherwise the index
    of the first non-zero bin and the index of the last one; hence [(k, k)]
    when bin [k] is the only non-zero bin. *)
Theorem extrema_first_last (mask : option Mask) (hist : list Z) (nb : nat)
    (st : Stat) :
  List.length hist = nb * 256 ->
  __init__ (PyList hist) mask = Ok st ->
  exists v,
    _getextrema st = Ok v /\ List.length v = nb /\
    forall i, i < nb ->
      exists lo hi,
        nth_error v i = Some (lo, hi) /\
        ((forall j, j < 256 -> bin hist i j = 0%Z) -> (lo, hi) = (255, 0)) /\
        (forall k, k < 256 -> bin hist i k <> 0%Z ->
           lo <= hi < 256 /\
           bin hist i lo <> 0%Z /\ (forall j, j < lo -> bin hist i j = 0%Z) /\
           bin hist i hi <> 0%Z /\
           (forall j, hi < j < 256 -> bin hist i j = 0%Z)) /\
        (forall k, k < 256 -> bin hist i k <> 0%Z ->
           (forall j, j < 256 -> j <> k -> bin hist i j = 0%Z) ->
           (lo, hi) = (k, k)).
Proof.
  intros Hlen Hinit. apply init_list in Hinit. subst st.
  unfold _getextrema; cbn [h]. rewrite (starts_of_length hist nb Hlen).
  destruct (mapM_seq (fun s => minmax (skipn s hist)) (fun k => k * 256)
              (fun i p => extrema_inv (band_bins hist i) 256 p) nb 0)
    as [v [E [L N]]].
  { intros i Hi.
    destruct (minmax_bins (band_bins hist i)) as [p [Ep Ip]];
      [apply (band_bins_length hist nb Hlen); lia|].
    exists p. split; [|exact Ip]. rewrite <- Ep. unfold minmax.
    apply foldM_ext. intros a [n x] Ha. apply in_seq in Ha.
    rewrite getitem_tail by lia. reflexivity. }
  exists v. split; [exact E|]. split; [exact L|].
  intros i Hi. destruct (N i Hi) as [[lo hi] [Ev Inv]]. cbn [Nat.add] in Inv.
  exists lo, hi. split; [exact Ev|]. unfold bin.
  destruct Inv as [[Z0 P]|(R & Hn & Hx & Lo & Hi')]; cbn [fst snd] in *.
  - split; [|split].
    + intros _. exact P.
    + intros k Hk Hnz. exfalso. apply Hnz. apply Z0. exact Hk.
    + intros k Hk Hnz _. exfalso. apply Hnz. apply Z0. exact Hk.
  - split; [|split].
    + intros Z0. exfalso. apply Hn. apply Z0. lia.
    + intros k Hk Hnz. repeat split; auto; lia.
    + intros k Hk Hnz Only.
      assert (lo = k).
      { destruct (Nat.eq_dec lo k); [assumption|].
        exfalso. apply Hn. apply Only; lia. }
      assert (hi = k).
      { destruct (Nat.eq_dec hi k); [assumption|].
        exfalso. apply Hx. apply Only; lia. }
      congruence.
Qed.

End ExtremaProperty.

Lemma extrema_first_last_witness :
  exists v,
    _getextrema {| h := two_band_histogram; bands := range 2 |} = Ok v /\
    nth_error v 0 = Some (0, 10)%nat /\ nth_error v 1 = Some (255, 0)%nat.
Proof.
  destruct (@extrema_first_last unit None two_band_histogram 2
              {| h := two_band_histogram; bands := range 2 |}
              eq_refl eq_refl)
    as [v [E _]].
  exists v. split; [exact E|].
  vm_compute in E. inversion E. split; reflexivity.
Defined.

Section Median.

Local Open Scope nat_scope.

Variable hist : list Z.
Variable i : nat.
Variable half : Z.
Hypothesis Hbins : List.length (band_bins hist i) = 256.

(** The scan from bin [a] on, when no earlier bin passed the threshold:
    it stops at the first bin whose cumulative count is above [half], or
    runs to the end and leaves the last index. *)
Lemma median_scan_from len : forall a s j0,
  a + len <= 256 ->
  s = Zsum (firstn a (band_bins hist i)) ->
  (forall j, j < a -> (cumulative (band_bins hist i) j <= half)%Z) ->
  exists m,
    median_scan hist (i * 256) half s j0 (seq a len) = Ok m /\
    ((a <= m < a + len /\
      (half < cumulative (band_bins hist i) m)%Z /\
      forall j, j < m -> (cumulative (band_bins hist i) j <= half)%Z)
     \/
     ((forall j, j < a + len -> (cumulative (band_bins hist i) j <= half)%Z) /\
      m = match len with 0 => j0 | Datatypes.S _ => a + len - 1 end)).
Proof.
  induction len as [|len IH]; intros a s j0 Ha Hs Hbelow; cbn [seq median_scan].
  - exists j0. split; [reflexivity|]. right. split; [|reflexivity].
    intros j Hj. apply Hbelow. lia.
  - rewrite getitem_band by lia.
    rewrite (getitem_ok _ a 0%Z) by lia. cbn [rbind Ok].
    assert (Hc : (s + nth a (band_bins hist i) 0 = cumulative (band_bins hist i) a)%Z)
      by (rewrite cumulative_step by lia; lia).
    rewrite Hc.
    destruct (Z.gtb_spec (cumulative (band_bins hist i) a) half) as [Hgt|Hle].
    + exists a. split; [reflexivity|]. left. repeat split; try lia.
      exact Hbelow.
    + destruct (IH (Datatypes.S a) (cumulative (band_bins hist i) a) a)
        as [m [E Hm]]; [lia|reflexivity| |].
      * intros j Hj. destruct (Nat.eq_dec j a) as [->|]; [lia|apply Hbelow; lia].
      * exists m. split; [exact E|].
        destruct Hm as [(R & G & L)|[L ->]]; [left|right].
        -- repeat split; auto; lia.
        -- split; [intros j Hj; apply L; lia|]. destruct len; lia.
Qed.

Lemma median_scan_band :
  exists m,
    median_scan hist (i * 256) half 0 0 (range 256) = Ok m /\
    m < 256 /\
    ((half < cumulative (band_bins hist i) m)%Z /\
     (forall j, j < m -> (cumulative (band_bins hist i) j <= half)%Z)
     \/
     (forall j, j < 256 -> (cumulative (band_bins hist i) j <= half)%Z) /\
     m = 255).
Proof.
  destruct (median_scan_from 256 0 0%Z 0) as [m [E Hm]];
    [lia|reflexivity|intros j Hj; lia|].
  exists m. split; [exact E|].
  destruct Hm as [(R & G & L)|[L ->]].
  - split; [lia|]. left. auto.
  - split; [lia|]. right. auto.
Qed.

End Median.

Lemma cumulative_le_total bins j :
  Forall (fun c => 0 <= c) bins -> cumulative bins j <= Zsum bins.
Proof.
  intros H. unfold cumulative.
  rewrite <- (firstn_skipn (S j) bins) at 2. rewrite Zsum_app.
  assert (0 <= Zsum (skipn (S j) bins)); [|lia].
  apply Zsum_nonneg. rewrite Forall_forall in *. intros x Hx. apply H.
  rewrite <- (firstn_skipn (S j) bins). apply in_or_app. right; exact Hx.
Qed.

Lemma cumulative_last bins :
  List.length bins = 256%nat -> cumulative bins 255 = Zsum bins.
Proof.
  intros H. unfold cumulative. rewrite firstn_all2 by lia. reflexivity.
Qed.

Section MedianProperty.

Local Open Scope nat_scope.
Context {Mask : Type}.

(** C6.  Over a histogram of [nb] bands of non-negative counts,
    [_getmedian] returns one bin index a band.  When the count of the band
    is positive, it is the smallest index [m] whose cumulative count (bins
    [0..m]) is above [count // 2]; when the count is 0 it is 255.  On the
    band with 3 counts in bin 0 and 1 count in bin 10 the median is 0. *)
Theorem median_smallest_above_half (mask : option Mask) (hist : list Z)
    (nb : nat) (st : Stat) :
  valid_histogram hist nb ->
  __init__ (PyList hist) mask = Ok st ->
  (exists v,
    _getmedian st = Ok v /\ List.length v = nb /\
    forall i, i < nb ->
      exists m,
        nth_error v i = Some m /\ m < 256 /\
        ((0 < Zsum (band_bins hist i))%Z ->
           (Zsum (band_bins hist i) / 2 < cumulative (band_bins hist i) m)%Z /\
           forall j, j < m ->
             (cumulative (band_bins hist i) j <= Zsum (band_bins hist i) / 2)%Z) /\
        (Zsum (band_bins hist i) = 0%Z -> m = 255))
  /\ (forall st0, __init__ (PyList example_histogram) mask = Ok st0 ->
                 _getmedian st0 = Ok [0]).
Proof.
  intros [Hlen Hpos] Hinit. split.
  2:{ intros st0 E. inversion E; subst. vm_compute. reflexivity. }
  apply init_list in Hinit. subst st.
  unfold _getmedian. cbn [bands h].
  rewrite (bands_of_length hist nb Hlen).
  replace (seq 0 nb) with (map (fun i => i) (seq 0 nb)) by apply map_id.
  match goal with
  | |- context [mapM ?f _] =>
      destruct (mapM_seq f (fun i => i)
              (fun i m =>
                 m < 256 /\
                 ((0 < Zsum (band_bins hist i))%Z ->
                  (Zsum (band_bins hist i) / 2 < cumulative (band_bins hist i) m)%Z /\
                  forall j, j < m ->
                    (cumulative (band_bins hist i) j <= Zsum (band_bins hist i) / 2)%Z) /\
                 (Zsum (band_bins hist i) = 0%Z -> m = 255))
              nb 0) as [v [E [L N]]]
  end.
  { intros i Hi. cbv beta.
    rewrite (getcount_bands hist nb Hlen (map (fun i => i) (seq 0 nb))).
    cbn [rbind Ok].
    rewrite (getitem_ok _ i 0%Z) by (rewrite length_map, length_seq; lia).
    rewrite (nth_indep _ 0%Z (Zsum (band_bins hist 0)))
      by (rewrite length_map, length_seq; lia).
    rewrite (map_nth (fun k => Zsum (band_bins hist k))), seq_nth by lia.
    cbn [rbind Ok Nat.add].
    pose proof (band_bins_length hist nb Hlen i ltac:(lia)) as Hb.
    pose proof (band_bins_nonneg hist i Hpos) as Hn.
    destruct (median_scan_band hist i (Zsum (band_bins hist i) / 2) Hb)
      as [m [Em [Hm C]]].
    exists m. split; [exact Em|]. split; [exact Hm|].
    pose proof (cumulative_last _ Hb) as Hlast.
    destruct C as [[G Lo]|[Lo ->]].
    - split; [auto|]. intros Z0. exfalso.
      pose proof (cumulative_le_total _ m Hn). rewrite Z0 in *.
      change (0 / 2)%Z with 0%Z in G. lia.
    - split; [|reflexivity]. intros Hc. exfalso.
      specialize (Lo 255 ltac:(lia)). rewrite Hlast in Lo.
      assert (Zsum (band_bins hist i) / 2 < Zsum (band_bins hist i))%Z
        by (apply Z.div_lt; lia).
      lia. }
  exists v. split; [exact E|]. split; [exact L|].
  intros i Hi. destruct (N i Hi) as [m [Ev Pm]]. exists m. auto.
Qed.

End MedianProperty.

Lemma median_smallest_above_half_witness :
  exists v,
    _getmedian {| h := two_band_histogram; bands := range 2 |} = Ok v /\
    nth_error v 0 = Some 0%nat /\ nth_error v 1 = Some 255%nat.
Proof.
  assert (V : valid_histogram two_band_histogram 2).
  { split; [reflexivity|]. apply Forall_forall. intros x Hx.
    unfold two_band_histogram, example_histogram in Hx.
    repeat (apply in_app_or in Hx; destruct Hx as [Hx|Hx]);
      try (apply repeat_spec in Hx; subst; lia).
    cbn [In] in Hx. lia. }
  destruct (@median_smallest_above_half unit None two_band_histogram 2
              {| h := two_band_histogram; bands := range 2 |} V eq_refl)
    as [[v [E _]] _].
  exists v. split; [exact E|].
  vm_compute in E. inversion E. split; reflexivity.
Defined.

Lemma float_of_int_nonneg z : (0 <= z)%Z -> (0 <= float_of_int z)%Q.
Proof.
  intros H. unfold float_of_int. change 0%Q with (inject_Z 0).
  rewrite <- Zle_Qle. exact H.
Qed.

Section Nonnegative.

Local Open Scope nat_scope.

Lemma bin_nonneg hist i j :
  Forall (fun c => (0 <= c)%Z) hist -> (0 <= bin hist i j)%Z.
Proof.
  intros H. unfold bin.
  destruct (Nat.lt_ge_cases j (List.length (band_bins hist i))) as [Hj|Hj].
  - pose proof (band_bins_nonneg hist i H) as F. rewrite Forall_forall in F.
    apply F. apply nth_In. exact Hj.
  - rewrite nth_overflow by exact Hj. lia.
Qed.

Lemma band_sum2_nonneg hist i :
  Forall (fun c => (0 <= c)%Z) hist -> (0 <= band_sum2 hist i)%Q.
Proof.
  intros H. unfold band_sum2.
  assert (G : forall l s, (0 <= s)%Q ->
            (0 <= fold_left
                    (fun s j => (s + float_of_int (Z.of_nat j ^ 2)
                                     * float_of_int (bin hist i j))%Q) l s)%Q).
  { induction l as [|j l IH]; intros s Hs; cbn [fold_left]; [exact Hs|].
    apply IH.
    rewrite <- (Qplus_0_r 0). apply Qplus_le_compat; [exact Hs|].
    apply Qmult_le_0_compat; apply float_of_int_nonneg;
      [apply Z.pow_nonneg; lia|apply bin_nonneg; exact H]. }
  apply G. apply Qle_refl.
Qed.

Lemma Zsum_zero l :
  (forall j, j < List.length l -> nth j l 0%Z = 0%Z) -> Zsum l = 0%Z.
Proof.
  induction l as [|x l IH]; intros H; cbn [Zsum fold_right]; [reflexivity|].
  fold (Zsum l). rewrite IH.
  - specialize (H 0 ltac:(cbn; lia)). cbn in H. lia.
  - intros j Hj. apply (H (Datatypes.S j)). cbn; lia.
Qed.

Lemma getitem_map_seq {A} (g : nat -> A) nb i :
  i < nb -> getitem (map g (seq 0 nb)) i = Ok (g i).
Proof.
  intros Hi. unfold getitem.
  rewrite nth_error_map, nth_error_seq.
  destruct (Nat.ltb_spec i nb); [reflexivity|lia].
Qed.

End Nonnegative.

Section Moments.

Local Open Scope nat_scope.

Variable hist : list Z.
Variable nb : nat.
Hypothesis Hlen : List.length hist = nb * 256.

Lemma getsum_bands bs :
  _getsum {| h := hist; bands := bs |} = Ok (map (band_sum hist) (seq 0 nb)).
Proof.
  unfold _getsum; cbn [h]. rewrite (starts_of_length hist nb Hlen), mapM_map.
  apply mapM_pure. intros i Hi. apply in_seq in Hi.
  unfold band_sum, range.
  apply (foldM_pure _ (fun j s => (s + float_of_int (Z.of_nat j * bin hist i j))%Q)).
  intros j s Hj. apply in_seq in Hj.
  rewrite getitem_band by lia.
  rewrite (getitem_ok _ j 0%Z)
    by (rewrite (band_bins_length hist nb Hlen) by lia; lia).
  reflexivity.
Qed.

Lemma getsum2_bands bs :
  _getsum2 {| h := hist; bands := bs |} = Ok (map (band_sum2 hist) (seq 0 nb)).
Proof.
  unfold _getsum2; cbn [h]. rewrite (starts_of_length hist nb Hlen), mapM_map.
  apply mapM_pure. intros i Hi. apply in_seq in Hi.
  unfold band_sum2, range.
  apply (foldM_pure _
           (fun j s => (s + float_of_int (Z.of_nat j ^ 2)
                            * float_of_int (bin hist i j))%Q)).
  intros j s Hj. apply in_seq in Hj.
  rewrite getitem_band by lia.
  rewrite (getitem_ok _ j 0%Z)
    by (rewrite (band_bins_length hist nb Hlen) by lia; lia).
  reflexivity.
Qed.

End Moments.

Lemma truediv_zero x : truediv x (float_of_int 0) = Err ZeroDivisionError.
Proof. reflexivity. Qed.

Lemma truediv_cases x y :
  truediv x y = Err ZeroDivisionError \/ truediv x y = Ok (x / y)%Q.
Proof. unfold truediv. destruct (Qeq_bool y 0); auto. Qed.

Section EmptyBand.

Local Open Scope nat_scope.
Context {Mask : Type}.
Variable sqrt : float -> float.

(** C5.  Over a histogram of [nb] bands of non-negative counts in which
    the 256 bins of some band are all zero, [_getmean], [_getvar] and
    [_getrms] each fail with [EmptyChannel], the error of the division by a
    count of zero; none of them returns a list of values. *)
Theorem empty_band_raises (mask : option Mask) (hist : list Z) (nb : nat)
    (st : Stat) (k : nat) :
  valid_histogram hist nb ->
  __init__ (PyList hist) mask = Ok st ->
  k < nb ->
  (forall j, j < 256 -> bin hist k j = 0%Z) ->
  _getmean st = Err EmptyChannel /\
  _getvar st = Err EmptyChannel /\
  _getrms sqrt st = Err EmptyChannel.
Proof.
  intros [Hlen Hpos] Hinit Hk Hzero. apply init_list in Hinit. subst st.
  assert (Hcount : Zsum (band_bins hist k) = 0%Z).
  { apply Zsum_zero. rewrite (band_bins_length hist nb Hlen) by exact Hk.
    exact Hzero. }
  assert (Hin : In k (seq 0 nb)) by (apply in_seq; lia).
  unfold EmptyChannel, _getmean, _getvar, _getrms. cbn [bands h].
  rewrite (bands_of_length hist nb Hlen).
  rewrite (getsum_bands hist nb Hlen (seq 0 nb)),
          (getsum2_bands hist nb Hlen (seq 0 nb)),
          (getcount_bands hist nb Hlen (seq 0 nb)).
  split; [|split].
  - apply (mapM_raises _ _ _ k Hin); cbn [rbind Ok].
    + rewrite !getitem_map_seq by exact Hk. cbn [rbind Ok].
      rewrite Hcount. apply truediv_zero.
    + intros i Hi. apply in_seq in Hi.
      rewrite !getitem_map_seq by lia. cbn [rbind Ok].
      destruct (truediv_cases (band_sum hist i)
                  (float_of_int (Zsum (band_bins hist i)))) as [E|E];
        rewrite E; eauto.
  - apply (mapM_raises _ _ _ k Hin); cbn [rbind Ok].
    + rewrite !getitem_map_seq by exact Hk. cbn [rbind Ok].
      rewrite Hcount. rewrite truediv_zero. reflexivity.
    + intros i Hi. apply in_seq in Hi.
      rewrite !getitem_map_seq by lia. cbn [rbind Ok].
      destruct (truediv_cases (band_sum hist i * band_sum hist i)%Q
                  (float_of_int (Zsum (band_bins hist i)))) as [E|E];
        rewrite E; cbn [rbind Err Ok]; [left; reflexivity|].
      match goal with
      | |- context [truediv ?x ?y] => destruct (truediv_cases x y) as [E'|E']
      end; rewrite E'; eauto.
  - apply (mapM_raises _ _ _ k Hin); cbn [rbind Ok].
    + rewrite !getitem_map_seq by exact Hk. cbn [rbind Ok].
      rewrite Hcount. rewrite truediv_zero. reflexivity.
    + intros i Hi. apply in_seq in Hi.
      rewrite !getitem_map_seq by lia. cbn [rbind Ok].
      unfold truediv.
      destruct (Qeq_bool (float_of_int (Zsum (band_bins hist i))) 0);
        cbn [rbind Err Ok]; [left; reflexivity|].
      right. unfold math_sqrt.
      destruct (Qlt_le_dec _ 0) as [Hneg|_]; [|eauto].
      exfalso. apply (Qlt_not_le _ _ Hneg).
      unfold Qdiv. apply Qmult_le_0_compat.
      * apply band_sum2_nonneg. exact Hpos.
      * apply Qinv_le_0_compat. apply float_of_int_nonneg.
        apply Zsum_nonneg. apply band_bins_nonneg. exact Hpos.
Qed.

End EmptyBand.

Lemma empty_band_raises_witness :
  _getmean {| h := two_band_histogram; bands := range 2 |} = Err EmptyChannel /\
  _getvar {| h := two_band_histogram; bands := range 2 |} = Err EmptyChannel /\
  _getrms (fun x => x) {| h := two_band_histogram; bands := range 2 |}
    = Err EmptyChannel.
Proof.
  assert (V : valid_histogram two_band_histogram 2).
  { split; [reflexivity|]. apply Forall_forall. intros x Hx.
    unfold two_band_histogram, example_histogram in Hx.
    repeat (apply in_app_or in Hx; destruct Hx as [Hx|Hx]);
      try (apply repeat_spec in Hx; subst; lia).
    cbn [In] in Hx. lia. }
  apply (@empty_band_raises unit (fun x => x) None two_band_histogram 2 _ 1%nat V
           eq_refl); [lia|].
  intros j Hj. unfold bin, band_bins.
  replace (skipn (1 * 256) two_band_histogram) with (repeat 0%Z 256)
    by reflexivity.
  rewrite firstn_all2 by (rewrite repeat_length; lia).
  apply nth_repeat_lt. lia.
Defined.

(* ===================================================================== *)
(** * More on the header reader *)
(* ===================================================================== *)

Section Forward.

Local Open Scope nat_scope.

Lemma advances_refl fp : advances fp fp.
Proof. exists []. split; [reflexivity|cbn; lia]. Qed.

Lemma advances_trans fp1 fp2 fp3 :
  advances fp1 fp2 -> advances fp2 fp3 -> advances fp1 fp3.
Proof.
  intros [c1 [U1 T1]] [c2 [U2 T2]]. exists (c1 ++ c2). split.
  - rewrite U1, U2, app_assoc. reflexivity.
  - rewrite T2, T1, length_app. lia.
Qed.

Lemma forward_ret {A} (a : A) : moves_forward (ret a).
Proof. intros fp r fp' E. inversion E; subst. apply advances_refl. Qed.

Lemma forward_raise {A} e : moves_forward (@raise A e).
Proof. intros fp r fp' E. inversion E; subst. apply advances_refl. Qed.

Lemma forward_out_of_fuel {A} : moves_forward (@out_of_fuel A).
Proof. intros fp r fp' E. inversion E; subst. apply advances_refl. Qed.

Lemma forward_read1 : moves_forward read1.
Proof.
  intros [o [|c rest]] r fp' E; unfold read1 in E; cbn [unread tell] in E;
    inversion E; subst.
  - apply advances_refl.
  - exists [c]. split; [reflexivity|cbn; lia].
Qed.

Lemma forward_ftell : moves_forward ftell.
Proof. intros fp r fp' E. inversion E; subst. apply advances_refl. Qed.

Lemma forward_bind {A B} (m : M A) (k : A -> M B) :
  moves_forward m -> (forall a, moves_forward (k a)) -> moves_forward (bind m k).
Proof.
  intros Hm Hk fp r fp' E. unfold bind in E.
  destruct (m fp) as [[a|e|] fp1] eqn:Em.
  - eapply advances_trans; [eapply Hm; exact Em|eapply Hk; exact E].
  - inversion E; subst. eapply Hm; exact Em.
  - inversion E; subst. eapply Hm; exact Em.
Qed.

Lemma forward_int s : moves_forward (int s).
Proof.
  unfold int. destruct (int_literal s); [apply forward_ret|apply forward_raise].
Qed.

Lemma forward_read_magic_loop turns : forall magic,
  moves_forward (read_magic_loop turns magic).
Proof.
  induction turns as [|turns IH]; intros magic; cbn [read_magic_loop].
  - apply forward_ret.
  - apply forward_bind; [apply forward_read1|]. intros c.
    destruct (negb (truthy c) || bytes_in c b_whitespace);
      [apply forward_ret|apply IH].
Qed.

Lemma forward_skip_comment fuel : moves_forward (skip_comment fuel).
Proof.
  induction fuel as [|fuel IH]; cbn [skip_comment].
  - apply forward_out_of_fuel.
  - apply forward_bind; [apply forward_read1|]. intros c.
    destruct (negb (bytes_in c [CR; LF])); [apply IH|apply forward_ret].
Qed.

Lemma forward_read_token_loop fuel : forall token,
  moves_forward (read_token_loop fuel token).
Proof.
  induction fuel as [|fuel IH]; intros token; cbn [read_token_loop].
  - apply forward_out_of_fuel.
  - destruct (Z.of_nat (List.length token) <=? 10)%Z; [|apply forward_ret].
    apply forward_bind; [apply forward_read1|]. intros c.
    destruct (truthy c && bytes_in c b_whitespace && negb (truthy token));
      [apply IH|].
    destruct (truthy c && bytes_in c b_whitespace || negb (truthy c));
      [apply forward_ret|].
    destruct (bytes_eqb c (b "#")); [|apply IH].
    apply forward_bind; [apply forward_skip_comment|]. intros _. apply IH.
Qed.

Lemma forward_read_token fuel : moves_forward (_read_token fuel).
Proof.
  unfold _read_token. apply forward_bind; [apply forward_read_token_loop|].
  intros token. destruct (negb (truthy token)); [apply forward_raise|].
  destruct (Z.of_nat (List.length token) >? 10)%Z;
    [apply forward_raise|apply forward_ret].
Qed.

Lemma forward_read_int fuel : moves_forward (read_int fuel).
Proof.
  unfold read_int. apply forward_bind; [apply forward_read_token|].
  intros token. apply forward_int.
Qed.

Lemma forward_open fuel : moves_forward (_open fuel).
Proof.
  unfold _open.
  apply forward_bind; [apply forward_read_magic_loop|]. intros magic_number.
  apply forward_bind.
  { destruct (dict_get MODES magic_number); [apply forward_ret|apply forward_raise]. }
  intros mode0. destruct (String.eqb mode0 "1").
  - apply forward_bind; [apply forward_read_int|]. intros xsize.
    apply forward_bind; [apply forward_read_int|]. intros ysize.
    apply forward_bind; [apply forward_ret|]. intros modes.
    apply forward_bind; [apply forward_ftell|]. intros offset.
    apply forward_ret.
  - apply forward_bind; [apply forward_read_int|]. intros xsize.
    apply forward_bind; [apply forward_read_int|]. intros ysize.
    apply forward_bind.
    { apply forward_bind; [apply forward_read_int|]. intros maxval.
      destruct (maxval >? 255)%Z; [|apply forward_ret].
      destruct (negb (String.eqb mode0 "L")); [apply forward_raise|apply forward_ret]. }
    intros modes.
    apply forward_bind; [apply forward_ftell|]. intros offset.
    apply forward_ret.
Qed.

End Forward.

(** X1.  Reading the header only moves forward: whatever [_read_magic],
    [_read_token] and [_open] give (a value, an exception, or no result for
    lack of fuel), the bytes left unread are a suffix of the bytes that were
    unread before, and the position has grown by exactly the number of bytes
    in between. *)
Theorem header_reading_moves_forward (fuel : nat) :
  moves_forward _read_magic /\
  moves_forward (_read_token fuel) /\
  moves_forward (_open fuel).
Proof.
  split; [apply forward_read_magic_loop|].
  split; [apply forward_read_token|apply forward_open].
Qed.

Section TokenBytes.

Local Open Scope nat_scope.

Lemma read_token_loop_token_bytes fuel : forall token fp token' fp',
  read_token_loop fuel token fp = (Returned token', fp') ->
  forallb token_byte token = true ->
  forallb token_byte token' = true.
Proof.
  induction fuel as [|fuel IH]; intros token [o l] token' fp' E Ht;
    [discriminate|].
  rewrite read_token_loop_eq in E; cbn [unread tell] in E.
  destruct (Z.of_nat (List.length token) <=? 10)%Z;
    [|inversion E; subst; exact Ht].
  destruct l as [|c rest]; [inversion E; subst; exact Ht|].
  cbv zeta in E. destruct (is_ws c) eqn:W.
  { destruct (truthy token); [inversion E; subst; exact Ht|].
    eapply IH; [exact E|exact Ht]. }
  destruct (is_hash c) eqn:H.
  - unfold bind in E.
    destruct (skip_comment fuel (mkfile (S o) rest)) as [[[]|e|] fp2];
      try discriminate.
    eapply IH; [exact E|exact Ht].
  - eapply IH; [exact E|]. rewrite forallb_app, Ht. cbn [forallb andb].
    unfold token_byte. rewrite W, H. reflexivity.
Qed.

Lemma read_token_raises fuel fp e fp' :
  _read_token fuel fp = (Raised e, fp') ->
  e = UnexpectedEndOfHeader \/ exists token, e = TokenTooLong token.
Proof.
  unfold _read_token, bind. intros E.
  destruct (read_token_loop fuel [] fp) as [[token|e0|] fp1] eqn:L.
  - destruct (negb (truthy token)); [inversion E; subst; left; reflexivity|].
    destruct (Z.of_nat (List.length token) >? 10)%Z; inversion E; subst.
    right. exists token. reflexivity.
  - exfalso. exact (read_token_loop_never_raises _ _ _ _ _ L).
  - discriminate.
Qed.

End TokenBytes.

(** X2.  A token that [_read_token] returns holds no white space and no
    comment sign, whatever the input: every byte of it is a byte that is
    neither one of the six white-space bytes nor [#]. *)
Theorem read_token_only_token_bytes fuel fp token fp' :
  _read_token fuel fp = (Returned token, fp') ->
  forallb token_byte token = true.
Proof.
  unfold _read_token, bind. intros E.
  destruct (read_token_loop fuel [] fp) as [[token0|e0|] fp1] eqn:L;
    try discriminate.
  apply read_token_loop_token_bytes in L; [|reflexivity].
  destruct (negb (truthy token0)); [discriminate|].
  destruct (Z.of_nat (List.length token0) >? 10)%Z; inversion E; subst.
  exact L.
Qed.

Lemma read_token_only_token_bytes_witness :
  forallb token_byte (b"12") = true.
Proof.
  exact (read_token_only_token_bytes 17 (open_bytes example_header) (b"12")
           (mkfile 5 (x23 :: b"comment" ++ [LF] ++ b"34")) eq_refl).
Defined.

Section Magic.

Local Open Scope nat_scope.

Lemma read_magic_loop_eq turns magic fp :
  read_magic_loop (S turns) magic fp =
  match unread fp with
  | [] => (Returned magic, fp)
  | c :: rest =>
      if is_ws c then (Returned magic, mkfile (S (tell fp)) rest)
      else read_magic_loop turns (magic ++ [c]) (mkfile (S (tell fp)) rest)
  end.
Proof.
  cbn [read_magic_loop]. unfold bind at 1, read1.
  destruct fp as [o [|c rest]]; cbn [unread tell truthy negb orb]; [reflexivity|].
  change (bytes_in [c] b_whitespace) with (is_ws c).
  destruct (is_ws c); reflexivity.
Qed.

Lemma read_magic_run m : forall turns magic o tail,
  forallb (fun c => negb (is_ws c)) m = true ->
  List.length m < turns -> ends_token tail = true ->
  read_magic_loop turns magic (mkfile o (m ++ tail)) =
  (Returned (magic ++ m), after_token (o + List.length m) tail).
Proof.
  induction m as [|c m IH]; intros [|turns] magic o tail Hm Hl Ht;
    cbn [List.length app] in *; try lia; rewrite read_magic_loop_eq;
    cbn [unread tell].
  - rewrite app_nil_r, Nat.add_0_r.
    destruct tail as [|t tail]; cbn [ends_token after_token] in *;
      [reflexivity|rewrite Ht; reflexivity].
  - cbn [forallb] in Hm. apply andb_true_iff in Hm as [Hc Hm].
    apply negb_true_iff in Hc. rewrite Hc.
    rewrite IH by (auto; lia). rewrite <- app_assoc.
    replace (S o + List.length m) with (o + S (List.length m)) by lia.
    reflexivity.
Qed.

Lemma read_magic_full m : forall turns magic o rest,
  forallb (fun c => negb (is_ws c)) m = true ->
  List.length m = turns ->
  read_magic_loop turns magic (mkfile o (m ++ rest)) =
  (Returned (magic ++ m), mkfile (o + List.length m) rest).
Proof.
  induction m as [|c m IH]; intros [|turns] magic o rest Hm Hl;
    cbn [List.length app] in *; try lia.
  - cbn [read_magic_loop]. rewrite app_nil_r, Nat.add_0_r. reflexivity.
  - rewrite read_magic_loop_eq; cbn [unread tell].
    cbn [forallb] in Hm. apply andb_true_iff in Hm as [Hc Hm].
    apply negb_true_iff in Hc. rewrite Hc.
    rewrite IH by (auto; lia). rewrite <- app_assoc.
    replace (S o + List.length m) with (o + S (List.length m)) by lia.
    reflexivity.
Qed.

Lemma read_magic_loop_bound turns : forall magic fp r fp',
  read_magic_loop turns magic fp = (r, fp') ->
  forallb (fun c => negb (is_ws c)) magic = true ->
  exists magic', r = Returned magic' /\
    List.length magic' <= List.length magic + turns /\
    forallb (fun c => negb (is_ws c)) magic' = true.
Proof.
  induction turns as [|turns IH]; intros magic [o l] r fp' E Hm.
  - inversion E; subst. exists magic. repeat split; auto; lia.
  - rewrite read_magic_loop_eq in E; cbn [unread tell] in E.
    destruct l as [|c rest].
    + inversion E; subst. exists magic. repeat split; auto; lia.
    + destruct (is_ws c) eqn:W.
      * inversion E; subst. exists magic. repeat split; auto; lia.
      * apply IH in E.
        -- destruct E as [magic' [-> [L F]]]. exists magic'.
           split; [reflexivity|]. split; [|exact F].
           rewrite length_app in L. cbn [List.length] in L. lia.
        -- rewrite forallb_app, Hm. cbn [forallb]. rewrite W. reflexivity.
Qed.

(** X3.  [_read_magic] never fails and returns at most six bytes, none of
    them a white space.  A run of fewer than six such bytes that is ended by
    a white space or by the end of the file is returned whole, and the white
    space that ends it is consumed; of a longer run the first six bytes are
    returned, and the seventh byte is left unread. *)
Theorem read_magic_spec :
  (forall fp r fp',
      _read_magic fp = (r, fp') ->
      exists magic, r = Returned magic /\ List.length magic <= 6 /\
                    forallb (fun c => negb (is_ws c)) magic = true)
  /\
  (forall o m tail,
      forallb (fun c => negb (is_ws c)) m = true ->
      List.length m < 6 -> ends_token tail = true ->
      _read_magic (mkfile o (m ++ tail)) =
      (Returned m, after_token (o + List.length m) tail))
  /\
  (forall o m rest,
      forallb (fun c => negb (is_ws c)) m = true ->
      List.length m = 6 ->
      _read_magic (mkfile o (m ++ rest)) = (Returned m, mkfile (o + 6) rest)).
Proof.
  repeat apply conj.
  - intros fp r fp' E. apply read_magic_loop_bound in E; [|reflexivity].
    exact E.
  - intros o m tail Hm Hl Ht. unfold _read_magic.
    rewrite read_magic_run by assumption. reflexivity.
  - intros o m rest Hm Hl. unfold _read_magic.
    rewrite read_magic_full by assumption. rewrite Hl. reflexivity.
Qed.

Lemma read_magic_spec_witness :
  _read_magic (open_bytes (b"P5" ++ b" 1 1")) = (Returned (b"P5"), mkfile 3 (b"1 1"))
  /\ _read_magic (open_bytes (b"P0CMYK" ++ b"12")) =
     (Returned (b"P0CMYK"), mkfile 6 (b"12")).
Proof.
  destruct read_magic_spec as (_ & H1 & H2). split.
  - apply (H1 0 (b"P5") (b" 1 1")); first [reflexivity | cbn; lia].
  - apply (H2 0 (b"P0CMYK") (b"12")); reflexivity.
Defined.

End Magic.

Section Dispatch.

Local Open Scope nat_scope.

Lemma bytes_eqb_eq s : forall t, bytes_eqb s t = true -> s = t.
Proof.
  induction s as [|x s IH]; intros [|y t] E; cbn [bytes_eqb] in E;
    try discriminate; [reflexivity|].
  apply andb_true_iff in E as [E1 E2]. apply byte_dec_bl in E1.
  apply IH in E2. congruence.
Qed.

(** The keys of [MODES]. *)
Lemma modes_keys magic mode0 :
  dict_get MODES magic = Some mode0 ->
  In (magic, mode0)
     [ (b"P4", "1"); (b"P5", "L"); (b"P6", "RGB"); (b"P0CMYK", "CMYK");
       (b"PyP", "P"); (b"PyRGBA", "RGBA"); (b"PyCMYK", "CMYK") ]%string.
Proof.
  unfold MODES. cbn [dict_get]. intros E.
  repeat match type of E with
         | (if bytes_eqb ?k magic then _ else _) = _ =>
             let K := fresh "K" in
             destruct (bytes_eqb k magic) eqn:K;
             [apply bytes_eqb_eq in K; subst magic; inversion E; subst mode0;
              cbn [In]; tauto|]
         end.
  discriminate.
Qed.

Lemma read_int_raises fuel fp e fp' :
  read_int fuel fp = (Raised e, fp') -> exists msg, e = ValueError msg.
Proof.
  unfold read_int, bind. intros E.
  destruct (_read_token fuel fp) as [[token|e0|] fp1] eqn:T.
  - unfold int in E. destruct (int_literal token); inversion E; subst. eauto.
  - inversion E; subst.
    apply read_token_raises in T as [->|[token ->]];
      unfold UnexpectedEndOfHeader, TokenTooLong; eauto.
  - discriminate.
Qed.

End Dispatch.

(** X4.  The sniffing predicate covers the table of magic numbers: a prefix
    that starts with a key of [MODES] is accepted.  It accepts more than the
    table: [b"P0"] followed by a white space is accepted, and [_open] then
    fails with [NotThisFormat].  A prefix that does not start with [P] is
    refused, and on the one-byte prefix [b"P"] the index fails with
    [IndexError]. *)
Theorem accept_covers_modes :
  (forall magic mode0 rest,
      dict_get MODES magic = Some mode0 ->
      _accept (magic ++ rest) = Returned true)
  /\
  (forall fuel tail,
      ends_token tail = true ->
      _accept (b"P0" ++ tail) = Returned true /\
      _open fuel (open_bytes (b"P0" ++ tail)) =
        (Raised NotThisFormat, after_token 2 tail))
  /\
  (forall c rest, c <> "P"%byte -> _accept (c :: rest) = Returned false)
  /\ _accept [] = Returned false
  /\ _accept (b"P") = Raised IndexError.
Proof.
  repeat apply conj; try reflexivity.
  - intros magic mode0 rest E. apply modes_keys in E. cbn [In] in E.
    repeat (destruct E as [E|E]; [inversion E; subst; reflexivity|]).
    contradiction.
  - intros fuel tail Ht. split; [reflexivity|].
    unfold _open, _read_magic. unfold bind at 1. unfold open_bytes.
    rewrite (read_magic_run (b"P0") 6 [] 0 tail)
      by (reflexivity || (cbn; lia) || assumption).
    reflexivity.
  - intros c rest Hc. unfold _accept.
    change (bytes_eqb (firstn 1 (c :: rest)) (b "P"))
      with (Byte.eqb c "P" && true).
    destruct (Byte.eqb c "P") eqn:E; [|reflexivity].
    apply byte_dec_bl in E. contradiction.
Qed.

Lemma accept_covers_modes_witness :
  _accept (b"P5" ++ b" 640 480 255") = Returned true.
Proof.
  destruct accept_covers_modes as (H & _).
  exact (H (b"P5") "L"%string (b" 640 480 255") eq_refl).
Defined.

Section OpenOutcomes.

Local Open Scope nat_scope.

Lemma read_magic_returns fp :
  exists magic fp1, _read_magic fp = (Returned magic, fp1).
Proof.
  destruct (_read_magic fp) as [r fp1] eqn:E.
  destruct (read_magic_loop_bound 6 [] fp r fp1 E eq_refl) as [magic [-> _]].
  eauto.
Qed.

(** [_open], once the magic number is read. *)
Lemma open_after_magic fuel fp magic fp1 :
  _read_magic fp = (Returned magic, fp1) ->
  _open fuel fp =
  match dict_get MODES magic with
  | None => (Raised NotThisFormat, fp1)
  | Some mode0 =>
      (xsize <- read_int fuel ;;
       ysize <- read_int fuel ;;
       modes <- (if String.eqb mode0 "1" then ret ("1", "1;I")%string
                 else
                   maxval <- read_int fuel ;;
                   if (maxval >? 255)%Z then
                     if negb (String.eqb mode0 "L") then
                       raise (TooManyColorsForBand maxval)
                     else
                       ret ("I"%string,
                            if (maxval <? 2 ^ 16)%Z then "I;16B"%string
                            else "I;32B"%string)
                   else ret (mode0, mode0)) ;;
       offset <- ftell ;;
       ret {| custom_mimetype := dict_get mimetypes magic;
              mode := fst modes;
              _size := (xsize, ysize);
              tile := [("raw"%string, (0, 0, xsize, ysize)%Z, offset,
                        (snd modes, 0, 1)%Z)] |})%py fp1
  end.
Proof.
  intros E. unfold _open. unfold bind at 1. rewrite E.
  unfold bind at 1.
  destruct (dict_get MODES magic) as [mode0|]; [|reflexivity].
  unfold ret at 1. destruct (String.eqb mode0 "1"); reflexivity.
Qed.

End OpenOutcomes.

(** X5.  [_open] fails with [NotThisFormat] when the magic number is not a
    key of [MODES], before any token is read: the file is left where
    [_read_magic] left it.  Every other failure of [_open] is a [ValueError]
    raised after a known magic number. *)
Theorem open_failures fuel fp :
  (forall magic fp1,
      _read_magic fp = (Returned magic, fp1) ->
      dict_get MODES magic = None ->
      _open fuel fp = (Raised NotThisFormat, fp1))
  /\
  (forall e fp',
      _open fuel fp = (Raised e, fp') ->
      exists magic fp1,
        _read_magic fp = (Returned magic, fp1) /\
        ((dict_get MODES magic = None /\ e = NotThisFormat /\ fp' = fp1) \/
         (exists mode0 msg,
             dict_get MODES magic = Some mode0 /\ e = ValueError msg))).
Proof.
  split.
  - intros magic fp1 Em Ed. rewrite (open_after_magic fuel fp magic fp1 Em), Ed.
    reflexivity.
  - intros e fp' E.
    destruct (read_magic_returns fp) as [magic [fp1 Em]].
    exists magic, fp1. split; [exact Em|].
    rewrite (open_after_magic fuel fp magic fp1 Em) in E.
    destruct (dict_get MODES magic) as [mode0|].
    2:{ left. inversion E; subst. auto. }
    right. exists mode0.
    unfold bind at 1 in E.
    destruct (read_int fuel fp1) as [[xsize|e1|] fp2] eqn:Ex;
      [|inversion E; subst; apply read_int_raises in Ex as [msg ->]; eauto
       |discriminate].
    unfold bind at 1 in E.
    destruct (read_int fuel fp2) as [[ysize|e2|] fp3] eqn:Ey;
      [|inversion E; subst; apply read_int_raises in Ey as [msg ->]; eauto
       |discriminate].
    unfold bind at 1 in E.
    destruct (String.eqb mode0 "1"); [discriminate|].
    unfold bind at 1 in E.
    destruct (read_int fuel fp3) as [[maxval|e3|] fp4] eqn:Ev;
      [|inversion E; subst; apply read_int_raises in Ev as [msg ->]; eauto
       |discriminate].
    destruct (maxval >? 255)%Z; [|discriminate].
    destruct (negb (String.eqb mode0 "L")); [|discriminate].
    inversion E; subst. unfold TooManyColorsForBand. eauto.
Qed.

Lemma open_failures_witness :
  _open 5 (open_bytes (b"GIF89a")) = (Raised NotThisFormat, mkfile 6 []).
Proof.
  destruct (open_failures 5 (open_bytes (b"GIF89a"))) as (H & _).
  exact (H (b"GIF89a") (mkfile 6 []) eq_refl eq_refl).
Defined.

(** X6.  An image that [_open] returns has exactly one tile: it is raw,
    covers the whole image [(0, 0, xsize, ysize)], and starts at the position
    where the header reading stopped.  The magic number is a key of [MODES],
    and the mode and the raw mode are those of the magic number (with raw
    mode "1;I" for mode "1"), or mode "I" with raw mode "I;16B" or "I;32B"
    when the magic number stands for "L". *)
Theorem open_result_shape fuel fp im fp' :
  _open fuel fp = (Returned im, fp') ->
  exists magic fp1 mode0 rawmode,
    _read_magic fp = (Returned magic, fp1) /\
    dict_get MODES magic = Some mode0 /\
    custom_mimetype im = dict_get mimetypes magic /\
    tile im = [("raw"%string, (0, 0, fst (_size im), snd (_size im)), tell fp',
                (rawmode, 0, 1))] /\
    decoded_as mode0 (mode im) rawmode.
Proof.
  intros E.
  destruct (read_magic_returns fp) as [magic [fp1 Em]].
  rewrite (open_after_magic fuel fp magic fp1 Em) in E.
  destruct (dict_get MODES magic) as [mode0|] eqn:Ed; [|discriminate].
  unfold bind at 1 in E.
  destruct (read_int fuel fp1) as [[xsize|e1|] fp2]; try discriminate.
  unfold bind at 1 in E.
  destruct (read_int fuel fp2) as [[ysize|e2|] fp3]; try discriminate.
  unfold bind at 1 in E.
  exists magic, fp1, mode0.
  destruct (String.eqb_spec mode0 "1") as [H1|H1].
  - unfold ret at 1, bind, ftell, ret in E. inversion E; subst.
    exists "1;I"%string. cbn [custom_mimetype tile _size mode fst snd].
    refine (conj Em (conj Ed (conj eq_refl (conj eq_refl _)))).
    left. auto.
  - unfold bind at 1 in E.
    destruct (read_int fuel fp3) as [[maxval|e3|] fp4]; try discriminate.
    destruct (maxval >? 255)%Z.
    + destruct (String.eqb_spec mode0 "L") as [HL|HL]; cbn [negb] in E;
        [|discriminate].
      unfold ret at 1, bind, ftell, ret in E. inversion E; subst.
      exists (if (maxval <? 2 ^ 16)%Z then "I;16B" else "I;32B")%string.
      cbn [custom_mimetype tile _size mode fst snd].
      refine (conj Em (conj Ed (conj eq_refl (conj eq_refl _)))).
      right; right. destruct (maxval <? _)%Z; auto.
    + unfold ret at 1, bind, ftell, ret in E. inversion E; subst.
      exists mode0. cbn [custom_mimetype tile _size mode fst snd].
      refine (conj Em (conj Ed (conj eq_refl (conj eq_refl _)))).
      right; left. auto.
Qed.

Lemma open_result_shape_witness :
  exists rawmode,
    decoded_as "1" "1" rawmode /\ rawmode = "1;I"%string.
Proof.
  destruct (open_result_shape 20 (open_bytes (b"P4 8 2" ++ [LF] ++ b"xx"))
              {| custom_mimetype := Some "image/x-portable-bitmap"%string;
                 mode := "1"; _size := (8, 2);
                 tile := [("raw", (0, 0, 8, 2), 7%nat, ("1;I", 0, 1))]%string |}
              (mkfile 7 (b"xx")) eq_refl)
    as (magic & fp1 & mode0 & rawmode & Em & Ed & _ & Ht & Hd).
  exists rawmode. cbn in Ht. inversion Ht; subst rawmode.
  vm_compute in Em. inversion Em; subst. vm_compute in Ed. inversion Ed; subst.
  split; [exact Hd|reflexivity].
Defined.

(** X7.  For the bilevel magic number (mode "1") [_open] reads two tokens
    only, the width and the height: it returns mode "1" with the raw mode
    "1;I", and the pixel data start right where the height token ended; no
    maxval is read. *)
Theorem open_bilevel fuel fp fp1 fp2 fp3 magic xsize ysize :
  _read_magic fp = (Returned magic, fp1) ->
  dict_get MODES magic = Some "1"%string ->
  read_int fuel fp1 = (Returned xsize, fp2) ->
  read_int fuel fp2 = (Returned ysize, fp3) ->
  _open fuel fp =
  (Returned {| custom_mimetype := dict_get mimetypes magic;
               mode := "1";
               _size := (xsize, ysize);
               tile := [("raw"%string, (0, 0, xsize, ysize), tell fp3,
                         ("1;I"%string, 0, 1))] |},
   fp3).
Proof.
  intros Em Ed Ex Ey.
  rewrite (open_after_magic fuel fp magic fp1 Em), Ed.
  unfold bind at 1. rewrite Ex. unfold bind at 1. rewrite Ey.
  reflexivity.
Qed.

Lemma open_bilevel_witness :
  _open 20 (open_bytes (b"P4 8 2" ++ [LF] ++ b"255 ")) =
  (Returned {| custom_mimetype := Some "image/x-portable-bitmap"%string;
               mode := "1"; _size := (8, 2);
               tile := [("raw", (0, 0, 8, 2), 7%nat, ("1;I", 0, 1))]%string |},
   mkfile 7 (b"255 ")).
Proof.
  exact (open_bilevel 20 (open_bytes (b"P4 8 2" ++ [LF] ++ b"255 "))
           (mkfile 3 (b"8 2" ++ [LF] ++ b"255 "))
           (mkfile 5 (b"2" ++ [LF] ++ b"255 "))
           (mkfile 7 (b"255 ")) (b"P4") 8 2 eq_refl eq_refl eq_refl eq_refl).
Defined.

(** X8.  For every other magic number, a maxval of at most 255 gives the
    mode of the magic number, with the raw mode of the same name.  The
    maxval is not checked from below: zero and negative values are taken as
    well. *)
Theorem open_eight_bit fuel fp fp1 fp2 fp3 fp4 magic mode0 xsize ysize maxval :
  _read_magic fp = (Returned magic, fp1) ->
  dict_get MODES magic = Some mode0 ->
  mode0 <> "1"%string ->
  read_int fuel fp1 = (Returned xsize, fp2) ->
  read_int fuel fp2 = (Returned ysize, fp3) ->
  read_int fuel fp3 = (Returned maxval, fp4) ->
  maxval <= 255 ->
  _open fuel fp =
  (Returned {| custom_mimetype := dict_get mimetypes magic;
               mode := mode0;
               _size := (xsize, ysize);
               tile := [("raw"%string, (0, 0, xsize, ysize), tell fp4,
                         (mode0, 0, 1))] |},
   fp4).
Proof.
  intros Em Ed H1 Ex Ey Ev Hle. apply String.eqb_neq in H1.
  rewrite (open_after_magic fuel fp magic fp1 Em), Ed.
  unfold bind at 1. rewrite Ex. unfold bind at 1. rewrite Ey.
  rewrite H1. unfold bind at 1. unfold bind at 1. rewrite Ev.
  destruct (Z.gtb_spec maxval 255); [lia|]. reflexivity.
Qed.

Lemma open_eight_bit_witness :
  _open 20 (open_bytes (b"P6 2 3 -1" ++ [LF] ++ b"xx")) =
  (Returned {| custom_mimetype := Some "image/x-portable-pixmap"%string;
               mode := "RGB"; _size := (2, 3);
               tile := [("raw", (0, 0, 2, 3), 10%nat, ("RGB", 0, 1))]%string |},
   mkfile 10 (b"xx")).
Proof.
  apply (open_eight_bit 20 (open_bytes (b"P6 2 3 -1" ++ [LF] ++ b"xx"))
           (mkfile 3 (b"2 3 -1" ++ [LF] ++ b"xx"))
           (mkfile 5 (b"3 -1" ++ [LF] ++ b"xx"))
           (mkfile 7 (b"-1" ++ [LF] ++ b"xx"))
           (mkfile 10 (b"xx")) (b"P6") "RGB" 2 3 (-1));
    first [reflexivity | discriminate | lia].
Defined.

Section SaveHeaders.

Variable ImageFile_save : Image -> bytes -> list tile_t -> outcome unit * bytes.

(** X9.  For the modes "1", "L", "RGB" and "RGBA", [_save] writes the magic
    number, a line with the width and the height in decimal, and the maxval
    line [255] except for mode "1", and then hands the image to the generic
    encoder with one raw tile over the whole image: [P4] with raw mode "1;I"
    for "1", [P5] with "L" for "L", [P6] with "RGB" for "RGB" and for "RGBA"
    alike. *)
Theorem save_header (im : Image) (fp : bytes)
    (magic : bytes) (rawmode : string) (maxval : bytes) :
  In (im_mode im, (magic, rawmode, maxval))
     [ ("1"%string, (b"P4", "1;I"%string, []));
       ("L"%string, (b"P5", "L"%string, b"255" ++ [LF]));
       ("RGB"%string, (b"P6", "RGB"%string, b"255" ++ [LF]));
       ("RGBA"%string, (b"P6", "RGB"%string, b"255" ++ [LF])) ] ->
  _save ImageFile_save im fp =
  ImageFile_save im
    (fp ++ magic ++ [LF] ++ fmt_d (fst (im_size im)) ++ b" " ++
     fmt_d (snd (im_size im)) ++ [LF] ++ maxval)
    [("raw"%string, (0, 0, fst (im_size im), snd (im_size im)), 0%nat,
      (rawmode, 0, 1))].
Proof.
  intros H. cbn [In] in H.
  destruct H as [H|[H|[H|[H|[]]]]]; inversion H as [[Hm Hmagic Hraw Hmax]];
    unfold _save, select_rawmode; rewrite <- Hm;
    cbn [String.eqb Ascii.eqb Bool.eqb]; unfold maxval_line;
    cbn [bytes_eqb b list_byte_of_string Byte.eqb String.eqb Ascii.eqb Bool.eqb andb];
    rewrite <- ?app_assoc, ?app_nil_r; reflexivity.
Qed.

(** X10.  For every other mode but "I", [_save] fails with
    [UnsupportedEncodeMode], which carries the mode; nothing is written and
    the generic encoder is not run. *)
Theorem save_unsupported_mode (im : Image) (fp : bytes) :
  ~ In (im_mode im) ["1"; "L"; "I"; "RGB"; "RGBA"]%string ->
  _save ImageFile_save im fp = (Raised (UnsupportedEncodeMode (im_mode im)), fp).
Proof.
  intros H. cbn [In] in H. unfold _save, select_rawmode.
  destruct (String.eqb_spec (im_mode im) "1"); [exfalso; apply H; auto|].
  destruct (String.eqb_spec (im_mode im) "L"); [exfalso; apply H; auto|].
  destruct (String.eqb_spec (im_mode im) "I"); [exfalso; apply H; auto|].
  destruct (String.eqb_spec (im_mode im) "RGB"); [exfalso; apply H; auto|].
  destruct (String.eqb_spec (im_mode im) "RGBA"); [exfalso; apply H; auto 6|].
  reflexivity.
Qed.

End SaveHeaders.

Lemma save_header_witness :
  _save no_pixels {| im_mode := "RGBA"; im_size := (640, 480); getextrema := (0, 0) |} [] =
  (Returned tt, b"P6" ++ [LF] ++ b"640 480" ++ [LF] ++ b"255" ++ [LF]).
Proof.
  apply (save_header no_pixels
           {| im_mode := "RGBA"; im_size := (640, 480); getextrema := (0, 0) |} []
           (b"P6") "RGB" (b"255" ++ [LF])).
  cbn [In im_mode]. right; right; right; left. reflexivity.
Defined.

Lemma save_unsupported_mode_witness :
  _save no_pixels {| im_mode := "CMYK"; im_size := (1, 1); getextrema := (0, 0) |}
        (b"kept") =
  (Raised (UnsupportedEncodeMode "CMYK"), b"kept").
Proof.
  apply (save_unsupported_mode no_pixels
           {| im_mode := "CMYK"; im_size := (1, 1); getextrema := (0, 0) |} (b"kept")).
  cbn [In im_mode]. intros H.
  repeat (destruct H as [H|H]; [discriminate|]). exact H.
Defined.

(* ===================================================================== *)
(** * Writing a header and reading it back *)
(* ===================================================================== *)

Section Decimal.

Local Open Scope nat_scope.

(** The digits of [d], as bytes. *)
Let uint_bytes (d : Decimal.uint) : bytes :=
  list_byte_of_string (NilEmpty.string_of_uint d).

(** A decimal digit, or the minus sign. *)
Let plain (c : byte) : bool :=
  match digit_val c with Some _ => true | None => Byte.eqb c "-" end.

Lemma plain_token_byte c : plain c = true -> token_byte c = true.
Proof. destruct c; cbv; congruence. Qed.

Lemma plain_not_space c : plain c = true -> isspace c = false.
Proof. destruct c; cbv; congruence. Qed.

Lemma uint_bytes_plain d : forallb plain (uint_bytes d) = true.
Proof.
  induction d; [reflexivity|..];
    change (forallb plain (uint_bytes d) = true) in IHd;
    match goal with
    | |- forallb plain (uint_bytes (?D d)) = true =>
        change (uint_bytes (D d))
          with (hd x00 (uint_bytes (D Decimal.Nil)) :: uint_bytes d)
    end; cbn [forallb hd]; rewrite IHd; reflexivity.
Qed.

Lemma digits_uint d : forall acc,
  digits (Z.pos acc) false (uint_bytes d) = Some (Z.pos (Pos.of_uint_acc d acc)).
Proof.
  induction d; intros acc; [reflexivity|..];
    match goal with
    | |- digits _ false (uint_bytes (?D ?x)) = _ =>
        change (uint_bytes (D x))
          with (hd x00 (uint_bytes (D Decimal.Nil)) :: uint_bytes x)
    end; cbn [hd digits]; unfold uint_bytes at 1;
    cbn [NilEmpty.string_of_uint list_byte_of_string list_ascii_of_string map hd];
    match goal with
    | |- context [digit_val ?c] =>
        let v := eval cbv in (digit_val c) in change (digit_val c) with v
    end; cbv iota; cbn [Pos.of_uint_acc];
    match goal with
    | IH : forall acc, _ |- digits ?z false _ = Some (Z.pos (Pos.of_uint_acc _ ?p)) =>
        replace z with (Z.pos p) by lia; apply IH
    end.
Qed.

Lemma digits_uint_0 d :
  digits 0 false (uint_bytes d) = Some (Z.of_N (Pos.of_uint d)).
Proof.
  induction d; [reflexivity|..];
    match goal with
    | |- digits _ false (uint_bytes (?D ?x)) = _ =>
        change (uint_bytes (D x))
          with (hd x00 (uint_bytes (D Decimal.Nil)) :: uint_bytes x)
    end; cbn [hd digits]; unfold uint_bytes at 1;
    cbn [NilEmpty.string_of_uint list_byte_of_string list_ascii_of_string map hd];
    match goal with
    | |- context [digit_val ?c] =>
        let v := eval cbv in (digit_val c) in change (digit_val c) with v
    end; cbv iota; cbn [Pos.of_uint Z.of_N];
    first [ assumption | apply digits_uint ].
Qed.

Lemma unsigned_literal_uint d :
  unsigned_literal (list_byte_of_string (NilZero.string_of_uint d)) =
  Some (Z.of_uint d).
Proof.
  unfold Z.of_uint.
  destruct d; [reflexivity|..]; unfold NilZero.string_of_uint;
    match goal with
    | |- unsigned_literal (list_byte_of_string (NilEmpty.string_of_uint (?D d))) = _ =>
        change (list_byte_of_string (NilEmpty.string_of_uint (D d)))
          with (hd x00 (uint_bytes (D Decimal.Nil)) :: uint_bytes d)
    end; cbn [hd unsigned_literal]; unfold uint_bytes at 1;
    cbn [NilEmpty.string_of_uint list_byte_of_string list_ascii_of_string map hd];
    match goal with
    | |- context [digit_val ?c] =>
        let v := eval cbv in (digit_val c) in change (digit_val c) with v
    end; cbv iota; cbn [Pos.of_uint Z.of_N];
    first [ apply digits_uint_0 | apply digits_uint ].
Qed.

Lemma string_of_uint_plain d :
  forallb plain (list_byte_of_string (NilZero.string_of_uint d)) = true.
Proof. destruct d; [reflexivity|..]; apply uint_bytes_plain. Qed.

Lemma string_of_uint_nonempty d :
  list_byte_of_string (NilZero.string_of_uint d) <> [].
Proof. destruct d; discriminate. Qed.

Lemma fmt_d_plain z : forallb plain (fmt_d z) = true.
Proof.
  unfold fmt_d, str_of_int. destruct (Z.to_int z) as [d|d];
    cbn [NilZero.string_of_int]; [apply string_of_uint_plain|].
  change (list_byte_of_string (String "-" (NilZero.string_of_uint d)))
    with ("-"%byte :: list_byte_of_string (NilZero.string_of_uint d)).
  cbn [forallb]. rewrite string_of_uint_plain. reflexivity.
Qed.

Lemma fmt_d_token_bytes z : forallb token_byte (fmt_d z) = true.
Proof.
  pose proof (fmt_d_plain z) as H. induction (fmt_d z) as [|c l IH];
    [reflexivity|].
  cbn [forallb] in *. apply andb_true_iff in H as [Hc Hl].
  rewrite (plain_token_byte c Hc), (IH Hl). reflexivity.
Qed.

Lemma fmt_d_nonempty z : fmt_d z <> [].
Proof.
  unfold fmt_d, str_of_int. destruct (Z.to_int z) as [d|d];
    cbn [NilZero.string_of_int]; [apply string_of_uint_nonempty|discriminate].
Qed.

Lemma lstrip_plain l :
  forallb plain l = true -> lstrip l = l.
Proof.
  destruct l as [|c l]; [reflexivity|]. cbn [forallb lstrip]. intros H.
  apply andb_true_iff in H as [Hc _]. rewrite (plain_not_space c Hc).
  reflexivity.
Qed.

Lemma strip_plain l : forallb plain l = true -> strip l = l.
Proof.
  intros H. unfold strip. rewrite (lstrip_plain l H).
  rewrite lstrip_plain; [apply rev_involutive|].
  apply forallb_forall. intros x Hx. apply in_rev in Hx.
  rewrite forallb_forall in H. auto.
Qed.

(** Parsing what ["%d"] printed gives the integer back. *)
Lemma int_literal_fmt_d z : int_literal (fmt_d z) = Some z.
Proof.
  unfold int_literal. rewrite (strip_plain _ (fmt_d_plain z)).
  pose proof (DecimalZ.of_to z) as R. unfold fmt_d, str_of_int.
  destruct (Z.to_int z) as [d|d]; cbn [NilZero.string_of_int Z.of_int] in *.
  - pose proof (unsigned_literal_uint d) as U.
    pose proof (string_of_uint_plain d) as P.
    destruct (list_byte_of_string (NilZero.string_of_uint d)) as [|c l];
      [discriminate|].
    cbn [forallb] in P. apply andb_true_iff in P as [Pc _].
    assert (Hm : Byte.eqb c "-" = false).
    { cbn [unsigned_literal] in U. unfold plain in Pc.
      destruct (digit_val c) eqn:D; [|discriminate].
      destruct (Byte.eqb c "-") eqn:E; [|reflexivity].
      apply byte_dec_bl in E. subst c. discriminate. }
    assert (Hp : Byte.eqb c "+" = false).
    { destruct (Byte.eqb c "+") eqn:E; [|reflexivity].
      apply byte_dec_bl in E. subst c. discriminate. }
    rewrite Hm, Hp, U, R. reflexivity.
  - change (list_byte_of_string (String "-" (NilZero.string_of_uint d)))
      with ("-"%byte :: list_byte_of_string (NilZero.string_of_uint d)).
    change (Byte.eqb "-" "-") with true. cbv iota.
    rewrite unsigned_literal_uint. cbn [option_map]. rewrite R. reflexivity.
Qed.

End Decimal.

Section RoundTrip.

Local Open Scope nat_scope.

Ltac lengths :=
  repeat first [ rewrite length_app | progress cbn [List.length app] ].
Ltac lengths_in H :=
  repeat first [ rewrite length_app in H | progress cbn [List.length app] in H ].

(** A token of one to ten token bytes, from the start of the unread
    bytes. *)
Lemma read_token_run fuel o tok tail :
  forallb token_byte tok = true -> tok <> [] -> List.length tok <= 10 ->
  ends_token tail = true -> List.length (tok ++ tail) < fuel ->
  _read_token fuel (mkfile o (tok ++ tail)) =
  (Returned tok, after_token (o + List.length tok) tail).
Proof.
  intros Ht Hne Hl He Hf. lengths_in Hf. unfold _read_token, bind.
  rewrite loop_accumulate by (auto; lengths; lia).
  cbn [app]. rewrite loop_end by (auto; lia).
  destruct tok as [|t tok]; [congruence|]. cbn [truthy negb].
  destruct (Z.gtb_spec (Z.of_nat (List.length (t :: tok))) 10); [lia|].
  reflexivity.
Qed.

(** A number printed by ["%d"], read back by [int(self._read_token())]. *)
Lemma read_int_fmt_d fuel o z tail :
  List.length (fmt_d z) <= 10 ->
  ends_token tail = true -> List.length (fmt_d z ++ tail) < fuel ->
  read_int fuel (mkfile o (fmt_d z ++ tail)) =
  (Returned z, after_token (o + List.length (fmt_d z)) tail).
Proof.
  intros Hl He Hf. unfold read_int, bind.
  rewrite read_token_run
    by (auto using fmt_d_token_bytes, fmt_d_nonempty).
  unfold int. rewrite int_literal_fmt_d. reflexivity.
Qed.

Variable head : bytes.
Variable mode0 : string.
Variables w h : Z.
Variable pixels : bytes.
Variable fuel : nat.

Hypothesis Hhead : forallb (fun c => negb (is_ws c)) head = true.
Hypothesis Hshort : List.length head < 6.
Hypothesis Hmode : dict_get MODES head = Some mode0.
Hypothesis Hw : List.length (fmt_d w) <= 10.
Hypothesis Hh : List.length (fmt_d h) <= 10.

(** A header without maxval line, read in mode "1". *)
Lemma open_written_bilevel :
  mode0 = "1"%string ->
  List.length (head ++ [LF] ++ fmt_d w ++ b" " ++ fmt_d h ++ [LF] ++ pixels)
    < fuel ->
  _open fuel (open_bytes (head ++ [LF] ++ fmt_d w ++ b" " ++ fmt_d h
                          ++ [LF] ++ pixels)) =
  (Returned
     {| custom_mimetype := dict_get mimetypes head;
        mode := "1"; _size := (w, h);
        tile := [("raw"%string, (0, 0, w, h)%Z,
                  List.length (head ++ [LF] ++ fmt_d w ++ b" " ++ fmt_d h ++ [LF]),
                  ("1;I"%string, 0, 1)%Z)] |},
   mkfile (List.length (head ++ [LF] ++ fmt_d w ++ b" " ++ fmt_d h ++ [LF]))
          pixels).
Proof.
  intros H1 Hf. subst mode0. change (b" ") with [x20] in *. lengths_in Hf.
  assert (Em : _read_magic (open_bytes (head ++ [LF] ++ fmt_d w ++ [x20]
                                        ++ fmt_d h ++ [LF] ++ pixels))
               = (Returned head,
                  mkfile (List.length head + 1)
                         (fmt_d w ++ [x20] ++ fmt_d h ++ [LF] ++ pixels))).
  { unfold _read_magic, open_bytes.
    rewrite read_magic_run by (auto; lia). cbn [app after_token].
    do 2 f_equal. lia. }
  rewrite (open_after_magic fuel _ _ _ Em), Hmode.
  unfold bind at 1.
  rewrite read_int_fmt_d by (auto; lengths; lia).
  cbn [app after_token].
  unfold bind at 1.
  rewrite read_int_fmt_d by (auto; lengths; lia).
  cbn [app after_token String.eqb Ascii.eqb Bool.eqb].
  unfold bind, ret, ftell. cbn [tell fst snd].
  match goal with
  | |- (_, mkfile ?n _) = (_, mkfile ?m _) =>
      replace m with n by (lengths; lia)
  end.
  reflexivity.
Qed.

(** A header with the maxval line [mv]. *)
Lemma open_written_maxval mv :
  mode0 <> "1"%string ->
  List.length (fmt_d mv) <= 10 ->
  List.length (head ++ [LF] ++ fmt_d w ++ b" " ++ fmt_d h ++ [LF] ++
               fmt_d mv ++ [LF] ++ pixels) < fuel ->
  _open fuel (open_bytes (head ++ [LF] ++ fmt_d w ++ b" " ++ fmt_d h ++ [LF]
                          ++ fmt_d mv ++ [LF] ++ pixels)) =
  (modes <- (if (mv >? 255)%Z then
               if negb (String.eqb mode0 "L") then
                 raise (TooManyColorsForBand mv)
               else
                 ret ("I"%string,
                      if (mv <? 2 ^ 16)%Z then "I;16B"%string
                      else "I;32B"%string)
             else ret (mode0, mode0)) ;;
   offset <- ftell ;;
   ret {| custom_mimetype := dict_get mimetypes head;
          mode := fst modes;
          _size := (w, h);
          tile := [("raw"%string, (0, 0, w, h)%Z, offset,
                    (snd modes, 0, 1)%Z)] |})%py
    (mkfile (List.length (head ++ [LF] ++ fmt_d w ++ b" " ++ fmt_d h ++ [LF]
                          ++ fmt_d mv ++ [LF]))
            pixels).
Proof.
  intros H1 Hv Hf. apply String.eqb_neq in H1.
  change (b" ") with [x20] in *. lengths_in Hf.
  assert (Em : _read_magic (open_bytes (head ++ [LF] ++ fmt_d w ++ [x20]
                                        ++ fmt_d h ++ [LF] ++ fmt_d mv
                                        ++ [LF] ++ pixels))
               = (Returned head,
                  mkfile (List.length head + 1)
                         (fmt_d w ++ [x20] ++ fmt_d h ++ [LF] ++ fmt_d mv
                          ++ [LF] ++ pixels))).
  { unfold _read_magic, open_bytes.
    rewrite read_magic_run by (auto; lia). cbn [app after_token].
    do 2 f_equal. lia. }
  rewrite (open_after_magic fuel _ _ _ Em), Hmode.
  unfold bind at 1.
  rewrite read_int_fmt_d by (auto; lengths; lia).
  cbn [app after_token].
  unfold bind at 1.
  rewrite read_int_fmt_d by (auto; lengths; lia).
  cbn [app after_token]. rewrite H1.
  unfold bind at 1. unfold bind at 1.
  rewrite read_int_fmt_d by (auto; lengths; lia).
  cbn [app after_token].
  match goal with
  | |- context [mkfile ?n pixels] =>
      match goal with
      | |- _ = _ (mkfile ?m pixels) => replace m with n by (lengths; lia)
      end
  end.
  reflexivity.
Qed.

End RoundTrip.

(** X11.  What [_save] writes, [_open] reads back.  When [_save] chooses
    the raw mode [rawmode] and the magic number [head] for an image whose
    width and height print in at most ten characters each, it writes the
    header and hands the generic encoder one raw tile in mode [rawmode];
    and [_open], on that header followed by any pixel bytes, returns the
    size of the image, the mode of the image ("RGB" for an "RGBA" image,
    whose alpha is not saved), and one raw tile in the same raw mode
    [rawmode] that starts right after the header, where the pixel bytes
    are. *)
Theorem save_open_round_trip (im : Image) (rawmode : string)
    (head pixels : bytes) (fuel : nat) :
  select_rawmode im = Returned (rawmode, head) ->
  (List.length (fmt_d (fst (im_size im))) <= 10)%nat ->
  (List.length (fmt_d (snd (im_size im))) <= 10)%nat ->
  (List.length (written_header im rawmode head ++ pixels) < fuel)%nat ->
  (forall encoder fp,
      _save encoder im fp =
      encoder im (fp ++ written_header im rawmode head)
        [("raw"%string, (0, 0, fst (im_size im), snd (im_size im)), 0%nat,
          (rawmode, 0, 1))])
  /\
  _open fuel (open_bytes (written_header im rawmode head ++ pixels)) =
  (Returned
     {| custom_mimetype := dict_get mimetypes head;
        mode := if String.eqb (im_mode im) "RGBA" then "RGB" else im_mode im;
        _size := im_size im;
        tile := [("raw"%string, (0, 0, fst (im_size im), snd (im_size im)),
                  List.length (written_header im rawmode head),
                  (rawmode, 0, 1))] |},
   mkfile (List.length (written_header im rawmode head)) pixels).
Proof.
  intros Hsel Hw Hh Hf. split.
  { intros encoder fp. unfold _save. rewrite Hsel. unfold written_header.
    repeat rewrite <- app_assoc. reflexivity. }
  destruct im as [m [w h] ext]. cbn [im_size im_mode getextrema fst snd] in *.
  unfold written_header in *. cbn [im_size fst snd] in *.
  unfold select_rawmode in Hsel. cbn [im_mode getextrema snd] in Hsel.
  destruct (String.eqb_spec m "1") as [->|N1].
  { inversion Hsel; subst rawmode head. clear Hsel.
    change (maxval_line "1;I" (b "P4")) with (@nil byte) in *.
    rewrite app_nil_r in *. repeat rewrite <- app_assoc in *.
    apply (open_written_bilevel (b "P4") "1" w h pixels fuel
             eq_refl ltac:(cbn; lia) eq_refl Hw Hh eq_refl Hf). }
  destruct (String.eqb_spec m "L") as [->|NL].
  { inversion Hsel; subst rawmode head. clear Hsel.
    change (maxval_line "L" (b "P5")) with (fmt_d 255 ++ [LF]) in *.
    repeat rewrite <- app_assoc in *.
    rewrite (open_written_maxval (b "P5") "L" w h pixels fuel
               eq_refl ltac:(cbn; lia) eq_refl Hw Hh 255%Z
               ltac:(discriminate) ltac:(cbn; lia) Hf).
    reflexivity. }
  destruct (String.eqb_spec m "I") as [->|NI].
  { change (2 ^ 16)%Z with 65536%Z in Hsel.
    destruct (Z.ltb_spec (snd ext) 65536);
      inversion Hsel; subst rawmode head; clear Hsel.
    - change (maxval_line "I;16B" (b "P5")) with (fmt_d 65535 ++ [LF]) in *.
      repeat rewrite <- app_assoc in *.
      rewrite (open_written_maxval (b "P5") "L" w h pixels fuel
                 eq_refl ltac:(cbn; lia) eq_refl Hw Hh 65535%Z
                 ltac:(discriminate) ltac:(cbn; lia) Hf).
      reflexivity.
    - change (maxval_line "I;32B" (b "P5")) with (fmt_d 2147483648 ++ [LF]) in *.
      repeat rewrite <- app_assoc in *.
      rewrite (open_written_maxval (b "P5") "L" w h pixels fuel
                 eq_refl ltac:(cbn; lia) eq_refl Hw Hh 2147483648%Z
                 ltac:(discriminate) ltac:(cbn; lia) Hf).
      reflexivity. }
  destruct (String.eqb_spec m "RGB") as [->|NR].
  { inversion Hsel; subst rawmode head. clear Hsel.
    change (maxval_line "RGB" (b "P6")) with (fmt_d 255 ++ [LF]) in *.
    repeat rewrite <- app_assoc in *.
    rewrite (open_written_maxval (b "P6") "RGB" w h pixels fuel
               eq_refl ltac:(cbn; lia) eq_refl Hw Hh 255%Z
               ltac:(discriminate) ltac:(cbn; lia) Hf).
    reflexivity. }
  destruct (String.eqb_spec m "RGBA") as [->|NA]; [|discriminate].
  inversion Hsel; subst rawmode head. clear Hsel.
  change (maxval_line "RGB" (b "P6")) with (fmt_d 255 ++ [LF]) in *.
  repeat rewrite <- app_assoc in *.
  rewrite (open_written_maxval (b "P6") "RGB" w h pixels fuel
             eq_refl ltac:(cbn; lia) eq_refl Hw Hh 255%Z
             ltac:(discriminate) ltac:(cbn; lia) Hf).
  reflexivity.
Qed.

Lemma save_open_round_trip_witness :
  _open 40 (open_bytes (b"P5" ++ [LF] ++ b"640 480" ++ [LF] ++ b"2147483648"
                        ++ [LF] ++ b"pixels")) =
  (Returned {| custom_mimetype := Some "image/x-portable-graymap"%string;
               mode := "I"; _size := (640, 480);
               tile := [("raw", (0, 0, 640, 480), 22%nat, ("I;32B", 0, 1))]%string |},
   mkfile 22 (b"pixels")).
Proof.
  destruct (save_open_round_trip
              {| im_mode := "I"; im_size := (640, 480); getextrema := (0, 70000) |}
              "I;32B" (b"P5") (b"pixels") 40 eq_refl
              ltac:(vm_compute; lia) ltac:(vm_compute; lia)
              ltac:(vm_compute; lia)) as [_ H].
  exact H.
Defined.

(* ===================================================================== *)
(** * More on the statistics *)
(* ===================================================================== *)

Section MoreLoops.

Context {A B S : Type}.

Lemma foldM_raises (f : A -> S -> result S) (e : exn) (l : list A) (a : A) :
  In a l -> (forall s, f a s = Err e) ->
  (forall x s, In x l -> f x s = Err e \/ exists s', f x s = Ok s') ->
  forall s, foldM f l s = Err e.
Proof.
  induction l as [|x l IH]; intros Hin Ha Hall s; [contradiction|].
  cbn [foldM]. destruct (Hall x s (or_introl eq_refl)) as [E|[s' E]]; rewrite E.
  - reflexivity.
  - cbn [rbind Ok]. destruct Hin as [->|Hin]; [rewrite Ha in E; discriminate|].
    apply IH; auto. intros y t Hy. apply Hall. right; assumption.
Qed.

Lemma foldM_cases (f : A -> S -> result S) (e : exn) (l : list A) :
  (forall x s, f x s = Err e \/ exists s', f x s = Ok s') ->
  forall s, foldM f l s = Err e \/ exists s', foldM f l s = Ok s'.
Proof.
  intros Hall. induction l as [|x l IH]; intros s; cbn [foldM].
  - right. eexists. reflexivity.
  - destruct (Hall x s) as [E|[s' E]]; rewrite E; [left; reflexivity|].
    cbn [rbind Ok]. apply IH.
Qed.

(** What a comprehension returned, element by element. *)
Lemma mapM_nth (f : A -> result B) (l : list A) : forall v,
  mapM f l = Ok v ->
  List.length v = List.length l /\
  forall i a b, nth_error l i = Some a -> nth_error v i = Some b -> f a = Ok b.
Proof.
  induction l as [|x l IH]; intros v E; cbn [mapM] in E.
  - inversion E; subst. split; [reflexivity|]. intros [|i] a b H; discriminate.
  - destruct (f x) as [e|y] eqn:Ex; [discriminate|]. cbn [rbind] in E.
    destruct (mapM f l) as [e|vs] eqn:El; [discriminate|]. cbn [rbind Ok] in E.
    inversion E; subst. destruct (IH vs eq_refl) as [L N].
    split; [cbn; lia|]. intros [|i] a b Ha Hb; cbn [nth_error] in *.
    + inversion Ha; inversion Hb; subst. exact Ex.
    + eapply N; eassumption.
Qed.

End MoreLoops.

Section Ragged.

Local Open Scope nat_scope.

Lemma firstn_plus {T} n m : forall l : list T,
  firstn (n + m) l = firstn n l ++ firstn m (skipn n l).
Proof.
  induction n as [|n IH]; intros [|x l]; cbn [Nat.add firstn skipn app];
    try reflexivity.
  - rewrite firstn_nil. reflexivity.
  - rewrite IH. reflexivity.
Qed.

Lemma Zsum_bands hist m :
  Zsum (map (fun k => Zsum (band_bins hist k)) (seq 0 m)) =
  Zsum (firstn (m * 256) hist).
Proof.
  induction m as [|m IH]; [reflexivity|].
  rewrite seq_S, map_app, Zsum_app, IH. cbn [map Nat.add].
  replace (S m * 256) with (m * 256 + 256) by lia.
  rewrite firstn_plus, Zsum_app. unfold band_bins.
  cbn [Zsum fold_right]. lia.
Qed.

Lemma getcount_any hist bs :
  _getcount {| h := hist; bands := bs |} =
  Ok (map (fun k => Zsum (band_bins hist k))
          (seq 0 ((List.length hist + 255) / 256))).
Proof.
  unfold _getcount, range256; cbn [h]. rewrite mapM_map.
  apply mapM_pure. intros k Hk. apply in_seq in Hk.
  apply reduce_add_Zsum. intros E. unfold band_bins in E.
  assert (L : List.length (firstn 256 (skipn (k * 256) hist)) = 0)
    by (rewrite E; reflexivity).
  rewrite length_firstn, length_skipn in L.
  assert ((List.length hist + 255) / 256 * 256 <= List.length hist + 255)
    by (rewrite Nat.mul_comm; apply Nat.Div0.mul_div_le).
  lia.
Qed.

(** The scans of one band read [256] bins: they fail with [IndexError] on
    a band that is cut short, and with nothing else. *)
Lemma scan_short {St} (g : nat -> Z -> St -> St) (l : list Z) s0 (off : nat) :
  List.length l < off + 256 ->
  foldM (fun j s => do hij <- getitem l (off + j); Ok (g j hij s))
        (range 256) s0 = Err IndexError.
Proof.
  intros Hl. unfold range.
  destruct (Nat.le_gt_cases off (List.length l)) as [Ho|Ho].
  - apply (foldM_raises _ _ _ (List.length l - off)).
    + apply in_seq. lia.
    + intros s. unfold getitem.
      replace (off + (List.length l - off)) with (List.length l) by lia.
      rewrite (proj2 (nth_error_None l (List.length l))) by lia. reflexivity.
    + intros x s _. unfold getitem. destruct (nth_error l (off + x));
        cbn [rbind Ok Err]; eauto.
  - apply (foldM_raises _ _ _ 0).
    + apply in_seq. lia.
    + intros s. unfold getitem.
      rewrite (proj2 (nth_error_None l (off + 0))) by lia. reflexivity.
    + intros x s _. unfold getitem. destruct (nth_error l (off + x));
        cbn [rbind Ok Err]; eauto.
Qed.

Lemma scan_cases {St} (g : nat -> Z -> St -> St) (l : list Z) s0 (off : nat) :
  foldM (fun j s => do hij <- getitem l (off + j); Ok (g j hij s))
        (range 256) s0 = Err IndexError \/
  exists s', foldM (fun j s => do hij <- getitem l (off + j); Ok (g j hij s))
                   (range 256) s0 = Ok s'.
Proof.
  apply foldM_cases. intros x s. unfold getitem.
  destruct (nth_error l (off + x)); cbn [rbind Ok Err]; eauto.
Qed.

(** Over a list whose length is not a multiple of 256, the last start of
    [range(0, len, 256)] is the start of a band that is cut short. *)
Lemma last_start (hist : list Z) :
  List.length hist mod 256 <> 0 ->
  In (List.length hist / 256 * 256) (range256 (List.length hist)) /\
  List.length hist < List.length hist / 256 * 256 + 256.
Proof.
  intros Hr. pose proof (Nat.div_mod_eq (List.length hist) 256) as D.
  pose proof (Nat.mod_upper_bound (List.length hist) 256 ltac:(lia)) as U.
  split; [|lia]. unfold range256. apply in_map_iff.
  exists (List.length hist / 256). split; [reflexivity|]. apply in_seq.
  split; [lia|]. cbn [Nat.add].
  replace ((List.length hist + 255) / 256) with (List.length hist / 256 + 1);
    [lia|].
  apply Nat.div_unique with (r := List.length hist mod 256 - 1); lia.
Qed.

End Ragged.

(** X12.  [_getcount] never fails, whatever the length of the list: it
    returns one count for every started run of 256 values (the length
    divided by 256, rounded up), and the counts add up to the sum of the
    whole list. *)
Theorem count_adds_up (self : Stat) :
  exists counts,
    _getcount self = Ok counts /\
    List.length counts = ((List.length (h self) + 255) / 256)%nat /\
    Zsum counts = Zsum (h self).
Proof.
  destruct self as [hist bs]. cbn [h]. eexists.
  split; [apply getcount_any|]. split.
  - rewrite length_map, length_seq. reflexivity.
  - rewrite Zsum_bands. rewrite firstn_all2; [reflexivity|].
    assert (List.length hist + 255
            < 256 * S ((List.length hist + 255) / 256))%nat
      by (apply Nat.mul_succ_div_gt; lia).
    lia.
Qed.

Section RaggedProperties.

Local Open Scope nat_scope.

Lemma ragged_scans_fail_aux (hist : list Z) (bs : list nat) :
  List.length hist mod 256 <> 0 ->
  _getsum {| h := hist; bands := bs |} = Err IndexError /\
  _getsum2 {| h := hist; bands := bs |} = Err IndexError.
Proof.
  intros Hr. destruct (last_start hist Hr) as [Hin Hshort]. split.
  - unfold _getsum. cbn [h].
    apply (mapM_raises _ _ _ _ Hin).
    + apply (scan_short
               (fun j hij s => (s + float_of_int (Z.of_nat j * hij))%Q)).
      exact Hshort.
    + intros s _.
      apply (scan_cases
               (fun j hij s => (s + float_of_int (Z.of_nat j * hij))%Q)).
  - unfold _getsum2. cbn [h].
    apply (mapM_raises _ _ _ _ Hin).
    + apply (scan_short
               (fun j hij s =>
                  (s + float_of_int (Z.of_nat j ^ 2) * float_of_int hij)%Q)).
      exact Hshort.
    + intros s _.
      apply (scan_cases
               (fun j hij s =>
                  (s + float_of_int (Z.of_nat j ^ 2) * float_of_int hij)%Q)).
Qed.

(** X13.  On a list whose length is not a multiple of 256, the scans that
    read 256 bins a band fail: [_getextrema], [_getsum] and [_getsum2] raise
    [IndexError], on the last band, which is cut short. *)
Theorem ragged_scans_fail (self : Stat) :
  List.length (h self) mod 256 <> 0 ->
  _getextrema self = Err IndexError /\
  _getsum self = Err IndexError /\
  _getsum2 self = Err IndexError.
Proof.
  intros Hr. destruct (last_start (h self) Hr) as [Hin Hshort].
  split; [|split].
  - unfold _getextrema.
    apply (mapM_raises _ _ _ _ Hin).
    + unfold minmax, range.
      apply (foldM_raises _ _ _
               (List.length (h self) - List.length (h self) / 256 * 256)).
      * apply in_seq. lia.
      * intros [n x]. unfold getitem.
        rewrite (proj2 (nth_error_None _ _)); [reflexivity|].
        rewrite length_skipn. lia.
      * intros j [n x] _. unfold getitem.
        destruct (nth_error _ j) as [hj|]; cbn [rbind Ok Err]; [|eauto].
        right. destruct (negb (hj =? 0)%Z); eauto.
    + intros s _. unfold minmax.
      apply foldM_cases. intros j [n x]. unfold getitem.
      destruct (nth_error _ j) as [hj|]; cbn [rbind Ok Err]; [|eauto].
      right. destruct (negb (hj =? 0)%Z); eauto.
  - unfold _getsum.
    apply (mapM_raises _ _ _ _ Hin).
    + apply (scan_short
               (fun j hij s => (s + float_of_int (Z.of_nat j * hij))%Q)).
      exact Hshort.
    + intros s _.
      apply (scan_cases
               (fun j hij s => (s + float_of_int (Z.of_nat j * hij))%Q)).
  - unfold _getsum2.
    apply (mapM_raises _ _ _ _ Hin).
    + apply (scan_short
               (fun j hij s =>
                  (s + float_of_int (Z.of_nat j ^ 2) * float_of_int hij)%Q)).
      exact Hshort.
    + intros s _.
      apply (scan_cases
               (fun j hij s =>
                  (s + float_of_int (Z.of_nat j ^ 2) * float_of_int hij)%Q)).
Qed.

End RaggedProperties.

Lemma ragged_scans_fail_witness :
  _getextrema {| h := repeat 1%Z 300; bands := [0%nat] |} = Err IndexError /\
  _getsum {| h := repeat 1%Z 300; bands := [0%nat] |} = Err IndexError /\
  _getsum2 {| h := repeat 1%Z 300; bands := [0%nat] |} = Err IndexError.
Proof.
  apply (ragged_scans_fail {| h := repeat 1%Z 300; bands := [0%nat] |}).
  discriminate.
Defined.

Section RaggedStatistics.

Local Open Scope nat_scope.
Context {Mask : Type}.
Variable sqrt : float -> float.

(** X14.  The statistics of a list whose length is not a multiple of 256.
    A list of fewer than 256 values has no band: the mean, the median, the
    rms, the variance and the standard deviation are all the empty list.  A
    longer list has its complete bands, and the mean, the variance, the rms
    and the standard deviation fail with [IndexError], raised by the sums
    over the last, incomplete run of values. *)
Theorem ragged_statistics (mask : option Mask) (hist : list Z) (st : Stat) :
  __init__ (PyList hist) mask = Ok st ->
  (List.length hist < 256 ->
   _getmean st = Ok [] /\ _getmedian st = Ok [] /\ _getrms sqrt st = Ok [] /\
   _getvar st = Ok [] /\ _getstddev sqrt st = Ok [])
  /\
  (256 <= List.length hist -> List.length hist mod 256 <> 0 ->
   _getmean st = Err IndexError /\ _getvar st = Err IndexError /\
   _getrms sqrt st = Err IndexError /\ _getstddev sqrt st = Err IndexError).
Proof.
  intros Hinit. apply init_list in Hinit. subst st. split.
  - intros Hl.
    unfold _getmean, _getmedian, _getrms, _getvar, _getstddev. cbn [bands].
    rewrite (Nat.div_small _ _ Hl). repeat split.
  - intros Hl Hr.
    pose proof (fun bs => proj1 (ragged_scans_fail_aux hist bs Hr)) as Hsum.
    pose proof (fun bs => proj2 (ragged_scans_fail_aux hist bs Hr)) as Hsum2.
    assert (Hb : exists q, range (List.length hist / 256) = 0 :: seq 1 q).
    { destruct (List.length hist / 256) as [|q] eqn:Q.
      - apply Nat.div_small_iff in Q; lia.
      - exists q. reflexivity. }
    destruct Hb as [q Hb]. rewrite Hb.
    assert (Hc0 : exists c (cs : list Z),
               map (fun k => Zsum (band_bins hist k))
                   (seq 0 ((List.length hist + 255) / 256)) = c :: cs).
    { destruct ((List.length hist + 255) / 256) as [|m] eqn:M.
      - apply Nat.div_small_iff in M; lia.
      - cbn [seq map]. eauto. }
    destruct Hc0 as [c [cs Hc0]].
    assert (Hvar : _getvar {| h := hist; bands := 0 :: seq 1 q |}
                   = Err IndexError).
    { unfold _getvar. cbn [bands mapM].
      rewrite getcount_any, Hc0. cbn [rbind Ok getitem nth_error].
      rewrite Hsum2. reflexivity. }
    unfold _getmean, _getrms, _getstddev. cbn [bands mapM].
    rewrite Hsum, Hsum2, Hvar. repeat split; assumption.
Qed.

End RaggedStatistics.

Lemma ragged_statistics_witness :
  _getmean {| h := repeat 1%Z 100; bands := [] |} = Ok [] /\
  _getmean {| h := repeat 1%Z 300; bands := [0%nat] |} = Err IndexError.
Proof.
  split.
  - destruct (@ragged_statistics unit (fun x => x) None (repeat 1%Z 100)
                {| h := repeat 1%Z 100; bands := [] |} eq_refl) as [H _].
    apply H. vm_compute. lia.
  - destruct (@ragged_statistics unit (fun x => x) None (repeat 1%Z 300)
                {| h := repeat 1%Z 300; bands := [0%nat] |} eq_refl) as [_ H].
    apply H; [vm_compute; lia|discriminate].
Defined.

Section EmptyBandDeviation.

Local Open Scope nat_scope.
Context {Mask : Type}.
Variable sqrt : float -> float.

Lemma getvar_empty_band (hist : list Z) (nb k : nat) :
  List.length hist = nb * 256 -> k < nb ->
  (forall j, j < 256 -> bin hist k j = 0%Z) ->
  _getvar {| h := hist; bands := seq 0 nb |} = Err ZeroDivisionError.
Proof.
  intros Hlen Hk Hzero.
  assert (Hcount : Zsum (band_bins hist k) = 0%Z).
  { apply Zsum_zero. rewrite (band_bins_length hist nb Hlen) by exact Hk.
    exact Hzero. }
  assert (Hin : In k (seq 0 nb)) by (apply in_seq; lia).
  unfold _getvar. cbn [bands h].
  rewrite (getsum_bands hist nb Hlen (seq 0 nb)),
          (getsum2_bands hist nb Hlen (seq 0 nb)),
          (getcount_bands hist nb Hlen (seq 0 nb)).
  apply (mapM_raises _ _ _ k Hin); cbn [rbind Ok].
  - rewrite !getitem_map_seq by exact Hk. cbn [rbind Ok].
    rewrite Hcount. rewrite truediv_zero. reflexivity.
  - intros i Hi. apply in_seq in Hi.
    rewrite !getitem_map_seq by lia. cbn [rbind Ok].
    destruct (truediv_cases (band_sum hist i * band_sum hist i)%Q
                (float_of_int (Zsum (band_bins hist i)))) as [E|E];
      rewrite E; cbn [rbind Err Ok]; [left; reflexivity|].
    match goal with
    | |- context [truediv ?x ?y] => destruct (truediv_cases x y) as [E'|E']
    end; rewrite E'; eauto.
Qed.

(** X15.  The standard deviation is computed from the variance, and fails
    with it: over a histogram of [nb] bands in which the 256 bins of some
    band are all zero, [_getstddev] fails with [EmptyChannel]. *)
Theorem stddev_empty_band (mask : option Mask) (hist : list Z) (nb : nat)
    (st : Stat) (k : nat) :
  List.length hist = nb * 256 ->
  __init__ (PyList hist) mask = Ok st ->
  k < nb ->
  (forall j, j < 256 -> bin hist k j = 0%Z) ->
  _getstddev sqrt st = Err EmptyChannel.
Proof.
  intros Hlen Hinit Hk Hzero. apply init_list in Hinit. subst st.
  rewrite (bands_of_length hist nb Hlen).
  pose proof (getvar_empty_band hist nb k Hlen Hk Hzero) as Hvar.
  unfold _getstddev. cbn [bands].
  destruct nb as [|nb]; [lia|]. cbn [seq mapM].
  cbn [seq] in Hvar. rewrite Hvar. reflexivity.
Qed.

End EmptyBandDeviation.

Lemma stddev_empty_band_witness :
  _getstddev (fun x => x) {| h := two_band_histogram; bands := range 2 |}
  = Err EmptyChannel.
Proof.
  apply (@stddev_empty_band unit (fun x => x) None two_band_histogram 2 _ 1%nat
           eq_refl eq_refl); [lia|].
  intros j Hj. unfold bin, band_bins.
  replace (skipn (1 * 256) two_band_histogram) with (repeat 0%Z 256)
    by reflexivity.
  rewrite firstn_all2 by (rewrite repeat_length; lia).
  apply nth_repeat_lt. lia.
Defined.

Section BetweenExtrema.

Local Open Scope nat_scope.

Lemma map_nth_seq (l : list Z) :
  map (fun j => nth j l 0%Z) (seq 0 (List.length l)) = l.
Proof.
  induction l as [|x l IH]; [reflexivity|].
  cbn [List.length seq map nth]. f_equal.
  rewrite <- seq_shift, map_map. exact IH.
Qed.

(** The bounds of a weighted sum whose weights vanish outside [lo..hi]. *)
Lemma weighted_sum_bounds (f : nat -> Z) (lo hi : nat) (l : list nat) :
  (forall j, In j l -> (0 <= f j)%Z /\ (f j <> 0%Z -> lo <= j <= hi)) ->
  (Z.of_nat lo * Zsum (map f l)
   <= Zsum (map (fun j => Z.of_nat j * f j) l)
   <= Z.of_nat hi * Zsum (map f l))%Z.
Proof.
  induction l as [|j l IH]; intros H; cbn [map Zsum fold_right]; [lia|].
  fold (Zsum (map f l)). fold (Zsum (map (fun j => Z.of_nat j * f j)%Z l)).
  destruct (H j (or_introl eq_refl)) as [Hpos Hin].
  specialize (IH (fun x Hx => H x (or_intror Hx))).
  destruct (Z.eq_dec (f j) 0) as [E|E]; [rewrite E; lia|].
  specialize (Hin E). nia.
Qed.

Lemma fold_sum_inject (f : nat -> Z) (l : list nat) : forall (s : Q) (z : Z),
  (s == inject_Z z)%Q ->
  (fold_left (fun s j => s + float_of_int (f j)) l s
   == inject_Z (z + Zsum (map f l)))%Q.
Proof.
  induction l as [|j l IH]; intros s z Hs; cbn [fold_left map Zsum fold_right].
  - rewrite Z.add_0_r. exact Hs.
  - fold (Zsum (map f l)). rewrite (IH _ (z + f j)%Z).
    + rewrite Z.add_assoc. reflexivity.
    + unfold float_of_int. rewrite inject_Z_plus, Hs. reflexivity.
Qed.

Lemma band_sum_inject hist i :
  (band_sum hist i
   == inject_Z (Zsum (map (fun j => Z.of_nat j * bin hist i j)%Z (seq 0 256))))%Q.
Proof.
  unfold band_sum.
  rewrite (fold_sum_inject (fun j => (Z.of_nat j * bin hist i j)%Z) _ 0%Q 0%Z);
    reflexivity.
Qed.

Variable hist : list Z.
Variable nb : nat.
Hypothesis Hlen : List.length hist = nb * 256.

Lemma count_as_bins i :
  i < nb -> Zsum (map (bin hist i) (seq 0 256)) = Zsum (band_bins hist i).
Proof.
  intros Hi. unfold bin.
  rewrite <- (band_bins_length hist nb Hlen i Hi) at 1.
  rewrite map_nth_seq. reflexivity.
Qed.

(** What [_getextrema] returned for band [i]. *)
Lemma extrema_of_band bs ext i lo hi :
  _getextrema {| h := hist; bands := bs |} = Ok ext ->
  nth_error ext i = Some (lo, hi) ->
  i < nb /\ extrema_inv (band_bins hist i) 256 (lo, hi).
Proof.
  unfold _getextrema; cbn [h]. rewrite (starts_of_length hist nb Hlen).
  intros E Hn. apply mapM_nth in E as [L N].
  rewrite length_map, length_seq in L.
  assert (Hi : i < nb).
  { rewrite <- L. apply nth_error_Some. rewrite Hn. discriminate. }
  split; [exact Hi|].
  assert (Hs : nth_error (map (fun k => k * 256) (seq 0 nb)) i = Some (i * 256)).
  { rewrite nth_error_map, nth_error_seq.
    destruct (Nat.ltb_spec i nb); [reflexivity|lia]. }
  specialize (N i _ _ Hs Hn).
  destruct (minmax_bins (band_bins hist i)) as [p [Ep Ip]];
    [apply (band_bins_length hist nb Hlen); exact Hi|].
  assert (Eq : minmax (skipn (i * 256) hist) = minmax (band_bins hist i)).
  { unfold minmax. apply foldM_ext. intros a [n x] Ha. apply in_seq in Ha.
    rewrite getitem_tail by lia. reflexivity. }
  rewrite Eq, Ep in N. inversion N; subst. exact Ip.
Qed.

(** A band with a positive count has a non-zero bin. *)
Lemma extrema_of_counted_band i lo hi :
  i < nb -> (0 < Zsum (band_bins hist i))%Z ->
  extrema_inv (band_bins hist i) 256 (lo, hi) ->
  lo <= hi < 256 /\
  (forall j, j < 256 -> bin hist i j <> 0%Z -> lo <= j <= hi).
Proof.
  intros Hi Hc [[Z0 _]|(R & Hn & Hx & Lo & Hi')]; cbn [fst snd] in *.
  - exfalso. rewrite Zsum_zero in Hc; [lia|].
    intros j Hj. apply Z0.
    rewrite (band_bins_length hist nb Hlen i Hi) in Hj. exact Hj.
  - split; [exact R|]. intros j Hj Hnz. unfold bin in Hnz.
    destruct (Nat.lt_ge_cases j lo) as [A|A]; [exfalso; apply Hnz, Lo, A|].
    destruct (Nat.lt_ge_cases hi j) as [B|B]; [exfalso; apply Hnz, Hi'; lia|].
    lia.
Qed.

End BetweenExtrema.

Section BetweenExtremaProperties.

Local Open Scope nat_scope.
Context {Mask : Type}.

(** X16.  The mean lies between the extrema: over a histogram of [nb] bands
    of non-negative counts, when [_getmean] and [_getextrema] both return,
    the mean of every band is at least the index of its first non-zero bin
    and at most the index of its last one.  In particular the mean of a
    band whose counts are all in bin [k] is [k]. *)
Theorem mean_between_extrema (mask : option Mask) (hist : list Z) (nb : nat)
    (st : Stat) (means : list float) (ext : list (nat * nat))
    (i : nat) (q : float) (lo hi : nat) :
  valid_histogram hist nb ->
  __init__ (PyList hist) mask = Ok st ->
  _getmean st = Ok means ->
  _getextrema st = Ok ext ->
  nth_error means i = Some q ->
  nth_error ext i = Some (lo, hi) ->
  (inject_Z (Z.of_nat lo) <= q /\ q <= inject_Z (Z.of_nat hi))%Q.
Proof.
  intros [Hlen Hpos] Hinit Hmean Hext Hq Hlohi.
  apply init_list in Hinit. subst st.
  destruct (extrema_of_band hist nb Hlen _ ext i lo hi Hext Hlohi) as [Hi Inv].
  unfold _getmean in Hmean. cbn [bands h] in Hmean.
  rewrite (bands_of_length hist nb Hlen) in Hmean.
  rewrite (getsum_bands hist nb Hlen (seq 0 nb)),
          (getcount_bands hist nb Hlen (seq 0 nb)) in Hmean.
  apply mapM_nth in Hmean as [_ N].
  assert (Hs : nth_error (seq 0 nb) i = Some i).
  { rewrite nth_error_seq. destruct (Nat.ltb_spec i nb); [reflexivity|lia]. }
  specialize (N i i q Hs Hq). cbn [rbind Ok] in N.
  rewrite !getitem_map_seq in N by exact Hi. cbn [rbind Ok] in N.
  unfold truediv in N.
  destruct (Qeq_bool (float_of_int (Zsum (band_bins hist i))) 0) eqn:Z0;
    [discriminate|].
  inversion N; subst q; clear N.
  pose proof (Zsum_nonneg _ (band_bins_nonneg hist i Hpos)) as Hc.
  assert (Hcpos : (0 < Zsum (band_bins hist i))%Z).
  { apply Qeq_bool_neq in Z0. unfold float_of_int in Z0.
    change 0%Q with (inject_Z 0) in Z0. rewrite inject_Z_injective in Z0. lia. }
  destruct (extrema_of_counted_band hist nb Hlen i lo hi Hi Hcpos Inv)
    as [R Hsupp].
  pose proof (weighted_sum_bounds (bin hist i) lo hi (seq 0 256)) as B.
  rewrite (count_as_bins hist nb Hlen i Hi) in B.
  specialize (B (fun j Hj => conj (bin_nonneg hist i j Hpos)
                               (Hsupp j (proj2 (proj1 (in_seq _ _ _) Hj))))).
  assert (Qpos : (0 < float_of_int (Zsum (band_bins hist i)))%Q).
  { unfold float_of_int. change 0%Q with (inject_Z 0). rewrite <- Zlt_Qlt.
    exact Hcpos. }
  split.
  - apply Qle_shift_div_l; [exact Qpos|].
    rewrite band_sum_inject. unfold float_of_int.
    rewrite <- inject_Z_mult, <- Zle_Qle. lia.
  - apply Qle_shift_div_r; [exact Qpos|].
    rewrite band_sum_inject. unfold float_of_int.
    rewrite <- inject_Z_mult, <- Zle_Qle. lia.
Qed.

Lemma cumulative_zero_below bins m :
  (forall j, j <= m -> nth j bins 0%Z = 0%Z) -> cumulative bins m = 0%Z.
Proof.
  intros H. unfold cumulative. apply Zsum_zero. intros j Hj.
  rewrite nth_firstn. rewrite length_firstn in Hj.
  destruct (Nat.ltb_spec j (S m)); [apply H; lia|reflexivity].
Qed.

Lemma cumulative_all_above bins m :
  (forall j, m < j -> nth j bins 0%Z = 0%Z) -> cumulative bins m = Zsum bins.
Proof.
  intros H. unfold cumulative.
  rewrite <- (firstn_skipn (S m) bins) at 2. rewrite Zsum_app.
  rewrite (Zsum_zero (skipn (S m) bins)); [lia|].
  intros j _. rewrite nth_skipn. apply H. lia.
Qed.

(** X17.  The median lies between the extrema: over a histogram of [nb]
    bands of non-negative counts, the median of a band with a positive
    count is at least the index of its first non-zero bin and at most the
    index of its last one. *)
Theorem median_between_extrema (mask : option Mask) (hist : list Z) (nb : nat)
    (st : Stat) (medians : list nat) (ext : list (nat * nat))
    (i m lo hi : nat) :
  valid_histogram hist nb ->
  __init__ (PyList hist) mask = Ok st ->
  _getmedian st = Ok medians ->
  _getextrema st = Ok ext ->
  nth_error medians i = Some m ->
  nth_error ext i = Some (lo, hi) ->
  (0 < Zsum (band_bins hist i))%Z ->
  lo <= m <= hi.
Proof.
  intros [Hlen Hpos] Hinit Hmed Hext Hm Hlohi Hcpos.
  apply init_list in Hinit. subst st.
  destruct (extrema_of_band hist nb Hlen _ ext i lo hi Hext Hlohi) as [Hi Inv].
  unfold _getmedian in Hmed. cbn [bands h] in Hmed.
  rewrite (bands_of_length hist nb Hlen) in Hmed.
  rewrite (getcount_bands hist nb Hlen (seq 0 nb)) in Hmed.
  apply mapM_nth in Hmed as [_ N].
  assert (Hs : nth_error (seq 0 nb) i = Some i).
  { rewrite nth_error_seq. destruct (Nat.ltb_spec i nb); [reflexivity|lia]. }
  specialize (N i i m Hs Hm). cbn [rbind Ok] in N.
  rewrite getitem_map_seq in N by exact Hi. cbn [rbind Ok] in N.
  pose proof (band_bins_length hist nb Hlen i Hi) as Hb.
  destruct (median_scan_band hist i (Zsum (band_bins hist i) / 2) Hb)
    as [m' [Em [Hm' C]]].
  rewrite Em in N. inversion N; subst m'; clear N.
  destruct Inv as [[Z0 _]|(R & Hn & Hx & Lo & Hi')]; cbn [fst snd] in *.
  { exfalso. rewrite Zsum_zero in Hcpos; [lia|].
    intros j Hj. apply Z0. rewrite Hb in Hj. exact Hj. }
  assert (Hhalf : (0 <= Zsum (band_bins hist i) / 2 < Zsum (band_bins hist i))%Z)
    by (split; [apply Z.div_pos; lia|apply Z.div_lt; lia]).
  assert (Hall : forall j, hi < j -> nth j (band_bins hist i) 0%Z = 0%Z).
  { intros j Hj. destruct (Nat.lt_ge_cases j 256) as [A|A]; [apply Hi'; lia|].
    apply nth_overflow. lia. }
  pose proof (cumulative_all_above _ hi Hall) as Chi.
  destruct C as [[G Below]|[AllBelow ->]].
  - split.
    + destruct (Nat.lt_ge_cases m lo) as [A|A]; [|exact A]. exfalso.
      rewrite cumulative_zero_below in G; [lia|].
      intros j Hj. apply Lo. lia.
    + destruct (Nat.lt_ge_cases hi m) as [A|A]; [|exact A]. exfalso.
      specialize (Below hi A). lia.
  - exfalso. specialize (AllBelow hi ltac:(lia)). lia.
Qed.

End BetweenExtremaProperties.

Lemma mean_between_extrema_witness :
  (inject_Z 0 <= 10 # 4 /\ 10 # 4 <= inject_Z 10)%Q.
Proof.
  assert (V : valid_histogram example_histogram 1).
  { split; [reflexivity|]. apply Forall_forall. intros x Hx.
    unfold example_histogram in Hx.
    apply in_app_or in Hx; destruct Hx as [Hx|Hx];
      [cbn [In] in Hx; lia|apply repeat_spec in Hx; subst; lia]. }
  exact (@mean_between_extrema unit None example_histogram 1
           {| h := example_histogram; bands := range 1 |}
           [10 # 4] [(0, 10)%nat] 0 (10 # 4) 0 10
           V eq_refl eq_refl eq_refl eq_refl eq_refl).
Defined.

Lemma median_between_extrema_witness : (0 <= 0 <= 10)%nat.
Proof.
  assert (V : valid_histogram example_histogram 1).
  { split; [reflexivity|]. apply Forall_forall. intros x Hx.
    unfold example_histogram in Hx.
    apply in_app_or in Hx; destruct Hx as [Hx|Hx];
      [cbn [In] in Hx; lia|apply repeat_spec in Hx; subst; lia]. }
  exact (@median_between_extrema unit None example_histogram 1
           {| h := example_histogram; bands := range 1 |}
           [0%nat] [(0, 10)%nat] 0 0 0 10
           V eq_refl eq_refl eq_refl eq_refl eq_refl eq_refl).
Defined.

Section Truncated.

Local Open Scope nat_scope.

Lemma read_token_blank fuel o ws :
  forallb is_ws ws = true -> List.length ws < fuel ->
  _read_token fuel (mkfile o ws) =
  (Raised UnexpectedEndOfHeader, mkfile (o + List.length ws) []).
Proof.
  intros Hw Hf. unfold _read_token, bind.
  rewrite <- (app_nil_r ws) at 1.
  rewrite loop_skip_ws by (rewrite ?app_nil_r; assumption).
  rewrite loop_eof by lia. reflexivity.
Qed.

Lemma blank_not_ws_head ws :
  forallb is_ws ws = true -> ends_token ws = true.
Proof.
  destruct ws as [|c ws]; [reflexivity|]. cbn [forallb ends_token].
  intros H. apply andb_true_iff in H as [H _]. exact H.
Qed.

(** X18.  A file that holds a magic number of [MODES] and then nothing but
    white space is cut short: [_open] fails with [UnexpectedEndOfHeader],
    with the whole file read. *)
Theorem open_truncated fuel head mode0 ws :
  dict_get MODES head = Some mode0 ->
  forallb is_ws ws = true ->
  List.length (head ++ ws) < fuel ->
  _open fuel (open_bytes (head ++ ws)) =
  (Raised UnexpectedEndOfHeader, mkfile (List.length (head ++ ws)) []).
Proof.
  intros Hd Hw Hf. rewrite length_app in *.
  assert (Hhead : forallb (fun c => negb (is_ws c)) head = true
                  /\ List.length head <= 6).
  { apply modes_keys in Hd. cbn [In] in Hd.
    repeat (destruct Hd as [Hd|Hd];
            [inversion Hd; subst; split; [reflexivity|cbn; lia]|]).
    contradiction. }
  destruct Hhead as [Hnw Hl6].
  destruct (Nat.eq_dec (List.length head) 6) as [E6|N6].
  - rewrite (open_after_magic fuel _ head (mkfile (0 + List.length head) ws)).
    2:{ unfold _read_magic, open_bytes.
        rewrite read_magic_full by assumption. reflexivity. }
    rewrite Hd. unfold bind at 1. unfold read_int, bind at 1.
    rewrite read_token_blank by (auto; lia).
    reflexivity.
  - rewrite (open_after_magic fuel _ head
               (after_token (0 + List.length head) ws)).
    2:{ unfold _read_magic, open_bytes.
        rewrite read_magic_run by (auto using blank_not_ws_head; lia).
        reflexivity. }
    rewrite Hd. unfold bind at 1. unfold read_int, bind at 1.
    destruct ws as [|c ws]; cbn [after_token].
    + rewrite (read_token_blank fuel _ []) by (auto; cbn in *; lia).
      cbn [List.length]. first [reflexivity | do 2 f_equal; lia].
    + cbn [forallb] in Hw. apply andb_true_iff in Hw as [_ Hw].
      cbn [List.length] in *.
      rewrite read_token_blank by (auto; lia).
      first [reflexivity | do 2 f_equal; lia].
Qed.

Lemma open_truncated_witness :
  _open 5 (open_bytes (b"P6" ++ [LF])) =
  (Raised UnexpectedEndOfHeader, mkfile 3 []).
Proof.
  apply (open_truncated 5 (b"P6") "RGB" [LF]); first [reflexivity | cbn; lia].
Defined.

End Truncated.

(* ===================================================================== *)
(** * Attributes computed on first access *)
(* ===================================================================== *)

Section Simulation.

Variable sqrt : float -> float.

Lemma keeps_refl (self : ImageStatLazy.object) : consistent sqrt self -> keeps sqrt self self.
Proof. intros H. repeat split; auto. Qed.

Lemma keeps_trans (s1 s2 s3 : ImageStatLazy.object) :
  keeps sqrt s1 s2 -> keeps sqrt s2 s3 -> keeps sqrt s1 s3.
Proof.
  intros (E1 & C1 & X1) (E2 & C2 & X2). repeat split; auto; congruence.
Qed.

Lemma keeps_consistent (s1 s2 : ImageStatLazy.object) : keeps sqrt s1 s2 -> consistent sqrt s2.
Proof. intros (_ & C & _). exact C. Qed.

Lemma simulates_ret {A} (a : A) self :
  consistent sqrt self -> simulates sqrt (ImageStatLazy.ret a) (Ok a) self.
Proof. intros C. exists self. split; [reflexivity|apply keeps_refl, C]. Qed.

Lemma simulates_lift {A} (r : result A) self :
  consistent sqrt self -> simulates sqrt (ImageStatLazy.lift r) r self.
Proof.
  intros C. exists self. split; [|apply keeps_refl, C].
  destruct r; reflexivity.
Qed.

Lemma simulates_read_stat self :
  consistent sqrt self ->
  simulates sqrt ImageStatLazy.read_stat (Ok (ImageStatLazy.stat self)) self.
Proof. intros C. exists self. split; [reflexivity|apply keeps_refl, C]. Qed.

Lemma simulates_bind {A B} (m : ImageStatLazy.L A) (k : A -> ImageStatLazy.L B) p kp self :
  simulates sqrt m p self ->
  (forall a self1, p = Ok a -> keeps sqrt self self1 ->
                   simulates sqrt (k a) (kp a) self1) ->
  simulates sqrt (ImageStatLazy.bind m k) (rbind p kp) self.
Proof.
  intros (self1 & E1 & K1) Hk. unfold simulates, ImageStatLazy.bind.
  rewrite E1. destruct p as [e|a]; cbn [embed rbind].
  - exists self1. split; [reflexivity|exact K1].
  - destruct (Hk a self1 eq_refl K1) as (self2 & E2 & K2).
    exists self2. split; [exact E2|]. eapply keeps_trans; eassumption.
Qed.

Lemma simulates_mapL {A B} (f : A -> ImageStatLazy.L B) (fp : A -> result B) (l : list A) :
  forall self,
  consistent sqrt self ->
  (forall a self1, keeps sqrt self self1 -> simulates sqrt (f a) (fp a) self1) ->
  simulates sqrt (ImageStatLazy.mapL f l) (mapM fp l) self.
Proof.
  induction l as [|a l IH]; intros self C Hf; cbn [ImageStatLazy.mapL mapM].
  - apply simulates_ret, C.
  - apply simulates_bind; [apply Hf, keeps_refl, C|].
    intros v self1 _ K1.
    apply simulates_bind.
    + apply IH; [eapply keeps_consistent; exact K1|].
      intros x self2 K2. apply Hf. eapply keeps_trans; eassumption.
    + intros vs self2 _ K2. apply simulates_ret.
      eapply keeps_consistent; exact K2.
Qed.

End Simulation.

Section LazyAccess.

Variable sqrt : float -> float.

Lemma stat_value_method name st :
  ImageStatLazy.is_method name = true -> stat_value sqrt name st = None.
Proof.
  unfold ImageStatLazy.is_method. intros H. apply existsb_exists in H.
  destruct H as [m [Hin E]]. apply String.eqb_eq in E. subst m.
  cbn [ImageStatLazy.method_names In] in Hin.
  repeat (destruct Hin as [<-|Hin]; [reflexivity|]). contradiction.
Qed.

Lemma getattr_eq fuel name self :
  ImageStatLazy.getattr sqrt (S fuel) name self =
  match ImageStatLazy.lookup name self with
  | Some v => (ImageStatLazy.Returned v, self)
  | None =>
      (if String.prefix "_get" name
       then ImageStatLazy.raise (ImageStatLazy.AttributeError name)
       else
         ImageStatLazy.bind (ImageStatLazy.getattr sqrt fuel ("_get" ++ name))
           (fun m =>
              ImageStatLazy.bind
                (ImageStatLazy.call sqrt (ImageStatLazy.getattr sqrt fuel) m)
                (fun v =>
                   ImageStatLazy.bind (ImageStatLazy.setattr name v)
                     (fun _ => ImageStatLazy.ret v)))) self
  end.
Proof. reflexivity. Qed.

(** The lookup of a method finds the method. *)
Lemma getattr_method fuel name self :
  ImageStatLazy.is_method name = true -> consistent sqrt self ->
  ImageStatLazy.getattr sqrt (S fuel) name self =
  (ImageStatLazy.Returned (ImageStatLazy.VMethod name), self).
Proof.
  intros Hm C. rewrite getattr_eq. unfold ImageStatLazy.lookup.
  assert (A : ImageStatLazy.assoc name (ImageStatLazy.attrs self) = None).
  { destruct (ImageStatLazy.assoc name (ImageStatLazy.attrs self)) eqn:A;
      [|reflexivity].
    apply C in A. rewrite (stat_value_method _ _ Hm) in A. discriminate. }
  rewrite A, Hm.
  unfold ImageStatLazy.is_method in Hm. apply existsb_exists in Hm.
  destruct Hm as [m [Hin E]]. apply String.eqb_eq in E. subst m.
  cbn [ImageStatLazy.method_names In] in Hin.
  repeat (destruct Hin as [<-|Hin]; [reflexivity|]). contradiction.
Qed.

(** One access to an attribute that its method computes. *)
Lemma getattr_computes fuel name body p :
  String.eqb name "h" = false -> String.eqb name "bands" = false ->
  ImageStatLazy.is_method name = false ->
  String.prefix "_get" name = false ->
  ImageStatLazy.is_method ("_get" ++ name) = true ->
  ImageStatLazy.call sqrt (ImageStatLazy.getattr sqrt (S fuel))
    (ImageStatLazy.VMethod ("_get" ++ name)) = body ->
  forall st,
  stat_value sqrt name st = Some p ->
  (forall self, consistent sqrt self -> ImageStatLazy.stat self = st ->
                simulates sqrt body p self) ->
  provides sqrt (ImageStatLazy.getattr sqrt (S (S fuel))) name p st.
Proof.
  intros Hh Hb Hnm Hpre Hm Hcall st Hp Hbody self C Hst.
  rewrite getattr_eq. unfold ImageStatLazy.lookup. rewrite Hh, Hb.
  destruct (ImageStatLazy.assoc name (ImageStatLazy.attrs self)) as [v|] eqn:A.
  - pose proof (C name v A) as Hv. rewrite Hst, Hp in Hv. injection Hv as ->.
    exists self. split; [reflexivity|]. split; [apply keeps_refl, C|].
    intros v' E. injection E as <-. exact A.
  - rewrite Hnm, Hpre. unfold ImageStatLazy.bind at 1.
    rewrite (getattr_method fuel _ self Hm C).
    unfold ImageStatLazy.bind at 1. rewrite Hcall.
    destruct (Hbody self C Hst) as (self1 & E1 & K1). rewrite E1.
    destruct p as [e|v]; cbn [embed].
    + exists self1. split; [reflexivity|]. split; [exact K1|]. discriminate.
    + destruct K1 as (S1 & C1 & X1).
      eexists. split; [reflexivity|]. cbn [ImageStatLazy.attrs ImageStatLazy.stat].
      split; [split; [exact S1|split]|].
      * intros n w. cbn [ImageStatLazy.assoc ImageStatLazy.attrs ImageStatLazy.stat].
        destruct (String.eqb_spec name n) as [<-|N].
        -- intros W. injection W as <-. rewrite S1, Hst. exact Hp.
        -- intros W. apply C1. exact W.
      * intros n w W. cbn [ImageStatLazy.assoc ImageStatLazy.attrs].
        destruct (String.eqb_spec name n) as [<-|N]; [congruence|].
        apply X1. exact W.
      * intros v' E. injection E as <-. cbn [ImageStatLazy.assoc ImageStatLazy.attrs].
        rewrite String.eqb_refl. reflexivity.
Qed.

(** ** The bodies of the methods *)

Lemma keeps_on st self self1 :
  ImageStatLazy.stat self = st -> keeps sqrt self self1 ->
  consistent sqrt self1 /\ ImageStatLazy.stat self1 = st.
Proof. intros <- (E & C & _). split; [exact C|exact E]. Qed.

Lemma simulates_bind_on {A B} (m : ImageStatLazy.L A) (k : A -> ImageStatLazy.L B)
    p kp st self :
  ImageStatLazy.stat self = st ->
  simulates sqrt m p self ->
  (forall a self1, consistent sqrt self1 -> ImageStatLazy.stat self1 = st ->
                   simulates sqrt (k a) (kp a) self1) ->
  simulates sqrt (ImageStatLazy.bind m k) (rbind p kp) self.
Proof.
  intros Hst Hm Hk. apply simulates_bind; [exact Hm|].
  intros a self1 _ K. destruct (keeps_on _ _ _ Hst K) as [C1 S1].
  apply Hk; assumption.
Qed.

Lemma simulates_mapL_on {A B} (f : A -> ImageStatLazy.L B) (fp : A -> result B)
    (l : list A) st self :
  consistent sqrt self -> ImageStatLazy.stat self = st ->
  (forall a self1, consistent sqrt self1 -> ImageStatLazy.stat self1 = st ->
                   simulates sqrt (f a) (fp a) self1) ->
  simulates sqrt (ImageStatLazy.mapL f l) (mapM fp l) self.
Proof.
  intros C Hst Hf. apply simulates_mapL; [exact C|].
  intros a self1 K. destruct (keeps_on _ _ _ Hst K) as [C1 S1].
  apply Hf; assumption.
Qed.

Lemma simulates_lift_bind {A B} (r : result A) (k : A -> ImageStatLazy.L B) kp st self :
  consistent sqrt self -> ImageStatLazy.stat self = st ->
  (forall a self1, consistent sqrt self1 -> ImageStatLazy.stat self1 = st ->
                   simulates sqrt (k a) (kp a) self1) ->
  simulates sqrt (ImageStatLazy.bind (ImageStatLazy.lift r) k) (rbind r kp) self.
Proof.
  intros C Hst Hk. eapply simulates_bind_on; [exact Hst|apply simulates_lift, C|exact Hk].
Qed.

Lemma simulates_read_stat_bind {B} (k : Stat -> ImageStatLazy.L B) p self :
  simulates sqrt (k (ImageStatLazy.stat self)) p self ->
  simulates sqrt (ImageStatLazy.bind ImageStatLazy.read_stat k) p self.
Proof. intros H. exact H. Qed.

(** [self.name[...]] for an attribute that holds a list of floats. *)
Lemma access_floats get name (P : Stat -> result (list float)) st
    {B} (k : list float -> ImageStatLazy.L B) kp self :
  provides sqrt get name (do v <- P st; Ok (ImageStatLazy.VFloats v)) st ->
  consistent sqrt self -> ImageStatLazy.stat self = st ->
  (forall v self1, consistent sqrt self1 -> ImageStatLazy.stat self1 = st ->
                   simulates sqrt (k v) (kp v) self1) ->
  simulates sqrt
    (ImageStatLazy.bind (get name)
       (fun x => ImageStatLazy.bind (ImageStatLazy.as_floats x) k))
    (rbind (P st) kp) self.
Proof.
  intros Hp C Hst Hk. destruct (Hp self C Hst) as (self1 & E & K & _).
  unfold simulates. unfold ImageStatLazy.bind at 1. rewrite E.
  destruct (P st) as [e|v]; cbn [rbind embed Ok].
  - exists self1. split; [reflexivity|exact K].
  - destruct (keeps_on _ _ _ Hst K) as [C1 S1].
    destruct (Hk v self1 C1 S1) as (self2 & E2 & K2).
    exists self2. split; [exact E2|eapply keeps_trans; eassumption].
Qed.

(** [self.name[...]] for an attribute that holds a list of integers. *)
Lemma access_ints get name (P : Stat -> result (list Z)) st
    {B} (k : list Z -> ImageStatLazy.L B) kp self :
  provides sqrt get name (do v <- P st; Ok (ImageStatLazy.VInts v)) st ->
  consistent sqrt self -> ImageStatLazy.stat self = st ->
  (forall v self1, consistent sqrt self1 -> ImageStatLazy.stat self1 = st ->
                   simulates sqrt (k v) (kp v) self1) ->
  simulates sqrt
    (ImageStatLazy.bind (get name)
       (fun x => ImageStatLazy.bind (ImageStatLazy.as_ints x) k))
    (rbind (P st) kp) self.
Proof.
  intros Hp C Hst Hk. destruct (Hp self C Hst) as (self1 & E & K & _).
  unfold simulates. unfold ImageStatLazy.bind at 1. rewrite E.
  destruct (P st) as [e|v]; cbn [rbind embed Ok].
  - exists self1. split; [reflexivity|exact K].
  - destruct (keeps_on _ _ _ Hst K) as [C1 S1].
    destruct (Hk v self1 C1 S1) as (self2 & E2 & K2).
    exists self2. split; [exact E2|eapply keeps_trans; eassumption].
Qed.

(** A method that reads [self.h] only. *)
Lemma body_reads_h {A} (P : Stat -> result A) (V : A -> ImageStatLazy.value) st self :
  consistent sqrt self -> ImageStatLazy.stat self = st ->
  simulates sqrt
    (ImageStatLazy.bind ImageStatLazy.read_stat
       (fun s => ImageStatLazy.bind (ImageStatLazy.lift (P s))
                   (fun v => ImageStatLazy.ret (V v))))
    (do v <- P st; Ok (V v)) self.
Proof.
  intros C Hst. apply simulates_read_stat_bind. rewrite Hst.
  eapply simulates_lift_bind; [exact C|exact Hst|].
  intros a self1 C1 _. apply simulates_ret, C1.
Qed.

(** A method that makes one value a band. *)
Lemma body_per_band {A} (f : nat -> ImageStatLazy.L A) (fp : nat -> result A)
    (V : list A -> ImageStatLazy.value) st self :
  consistent sqrt self -> ImageStatLazy.stat self = st ->
  (forall i self1, consistent sqrt self1 -> ImageStatLazy.stat self1 = st ->
                   simulates sqrt (f i) (fp i) self1) ->
  simulates sqrt
    (ImageStatLazy.bind ImageStatLazy.read_stat
       (fun s => ImageStatLazy.bind (ImageStatLazy.mapL f (bands s))
                   (fun v => ImageStatLazy.ret (V v))))
    (do v <- mapM fp (bands st); Ok (V v)) self.
Proof.
  intros C Hst Hf. apply simulates_read_stat_bind. rewrite Hst.
  eapply simulates_bind_on; [exact Hst| |].
  - eapply simulates_mapL_on; [exact C|exact Hst|exact Hf].
  - intros a self1 C1 _. apply simulates_ret, C1.
Qed.

Section Bodies.

Variable get : string -> ImageStatLazy.L ImageStatLazy.value.
Variable st : Stat.

Hypothesis get_count :
  provides sqrt get "count" (do v <- _getcount st; Ok (ImageStatLazy.VInts v)) st.
Hypothesis get_sum :
  provides sqrt get "sum" (do v <- _getsum st; Ok (ImageStatLazy.VFloats v)) st.
Hypothesis get_sum2 :
  provides sqrt get "sum2" (do v <- _getsum2 st; Ok (ImageStatLazy.VFloats v)) st.

Lemma body_mean self :
  consistent sqrt self -> ImageStatLazy.stat self = st ->
  simulates sqrt (ImageStatLazy._getmean get)
    (do v <- _getmean st; Ok (ImageStatLazy.VFloats v)) self.
Proof.
  intros C Hst. unfold ImageStatLazy._getmean, _getmean.
  apply body_per_band; [exact C|exact Hst|].
  intros i s1 C1 S1.
  apply (access_floats get "sum" _getsum); [exact get_sum|exact C1|exact S1|].
  intros sum s2 C2 S2. eapply simulates_lift_bind; [exact C2|exact S2|].
  intros sum_i s3 C3 S3.
  apply (access_ints get "count" _getcount); [exact get_count|exact C3|exact S3|].
  intros count s4 C4 S4. eapply simulates_lift_bind; [exact C4|exact S4|].
  intros count_i s5 C5 S5. apply simulates_lift, C5.
Qed.

Lemma body_median self :
  consistent sqrt self -> ImageStatLazy.stat self = st ->
  simulates sqrt (ImageStatLazy._getmedian get)
    (do v <- _getmedian st; Ok (ImageStatLazy.VNats v)) self.
Proof.
  intros C Hst. unfold ImageStatLazy._getmedian, _getmedian.
  apply body_per_band; [exact C|exact Hst|].
  intros i s1 C1 S1.
  apply (access_ints get "count" _getcount); [exact get_count|exact C1|exact S1|].
  intros count s2 C2 S2. eapply simulates_lift_bind; [exact C2|exact S2|].
  intros count_i s3 C3 S3. cbv zeta.
  apply simulates_read_stat_bind. rewrite S3. apply simulates_lift, C3.
Qed.

Lemma body_rms self :
  consistent sqrt self -> ImageStatLazy.stat self = st ->
  simulates sqrt (ImageStatLazy._getrms sqrt get)
    (do v <- _getrms sqrt st; Ok (ImageStatLazy.VFloats v)) self.
Proof.
  intros C Hst. unfold ImageStatLazy._getrms, _getrms.
  apply body_per_band; [exact C|exact Hst|].
  intros i s1 C1 S1.
  apply (access_floats get "sum2" _getsum2); [exact get_sum2|exact C1|exact S1|].
  intros sum2 s2 C2 S2. eapply simulates_lift_bind; [exact C2|exact S2|].
  intros sum2_i s3 C3 S3.
  apply (access_ints get "count" _getcount); [exact get_count|exact C3|exact S3|].
  intros count s4 C4 S4. eapply simulates_lift_bind; [exact C4|exact S4|].
  intros count_i s5 C5 S5. eapply simulates_lift_bind; [exact C5|exact S5|].
  intros q s6 C6 S6. apply simulates_lift, C6.
Qed.

Lemma body_var self :
  consistent sqrt self -> ImageStatLazy.stat self = st ->
  simulates sqrt (ImageStatLazy._getvar get)
    (do v <- _getvar st; Ok (ImageStatLazy.VFloats v)) self.
Proof.
  intros C Hst. unfold ImageStatLazy._getvar, _getvar.
  apply body_per_band; [exact C|exact Hst|].
  intros i s1 C1 S1.
  apply (access_ints get "count" _getcount); [exact get_count|exact C1|exact S1|].
  intros count s2 C2 S2. eapply simulates_lift_bind; [exact C2|exact S2|].
  intros n s3 C3 S3.
  apply (access_floats get "sum2" _getsum2); [exact get_sum2|exact C3|exact S3|].
  intros sum2 s4 C4 S4. eapply simulates_lift_bind; [exact C4|exact S4|].
  intros sum2_i s5 C5 S5.
  apply (access_floats get "sum" _getsum); [exact get_sum|exact C5|exact S5|].
  intros sum s6 C6 S6. eapply simulates_lift_bind; [exact C6|exact S6|].
  intros sum_i s7 C7 S7. eapply simulates_lift_bind; [exact C7|exact S7|].
  intros q s8 C8 S8. apply simulates_lift, C8.
Qed.

End Bodies.

Lemma body_stddev get st self :
  provides sqrt get "var" (do v <- _getvar st; Ok (ImageStatLazy.VFloats v)) st ->
  consistent sqrt self -> ImageStatLazy.stat self = st ->
  simulates sqrt (ImageStatLazy._getstddev sqrt get)
    (do v <- _getstddev sqrt st; Ok (ImageStatLazy.VFloats v)) self.
Proof.
  intros get_var C Hst. unfold ImageStatLazy._getstddev, _getstddev.
  apply body_per_band; [exact C|exact Hst|].
  intros i s1 C1 S1.
  apply (access_floats get "var" _getvar); [exact get_var|exact C1|exact S1|].
  intros var s2 C2 S2. eapply simulates_lift_bind; [exact C2|exact S2|].
  intros var_i s3 C3 S3. apply simulates_lift, C3.
Qed.

End LazyAccess.

Section LazyLevels.

Variable sqrt : float -> float.

(** The attributes that the methods compute. *)
Lemma stat_value_names name st p :
  stat_value sqrt name st = Some p ->
  In name [ "extrema"; "count"; "sum"; "sum2"; "mean"; "median"; "rms";
            "var"; "stddev" ]%string.
Proof.
  unfold stat_value. intros H. cbn [In].
  repeat match type of H with
         | (if String.eqb name ?n then _ else _) = _ =>
             destruct (String.eqb_spec name n) as [->|_]; [tauto|]
         end.
  discriminate H.
Qed.

Lemma stat_value_public name st p :
  stat_value sqrt name st = Some p ->
  String.eqb name "h" = false /\ String.eqb name "bands" = false /\
  String.prefix "_get" name = false /\ ImageStatLazy.is_method name = false.
Proof.
  intros H. apply stat_value_names in H. cbn [In] in H.
  repeat (destruct H as [<-|H]; [repeat split; reflexivity|]). contradiction.
Qed.

(** The four attributes computed from [self.h]. *)
Lemma level_extrema f st :
  provides sqrt (ImageStatLazy.getattr sqrt (S (S f))) "extrema"
    (do v <- _getextrema st; Ok (ImageStatLazy.VPairs v)) st.
Proof.
  eapply getattr_computes; try reflexivity.
  intros self C Hst. apply (body_reads_h sqrt _getextrema); assumption.
Qed.

Lemma level_count f st :
  provides sqrt (ImageStatLazy.getattr sqrt (S (S f))) "count"
    (do v <- _getcount st; Ok (ImageStatLazy.VInts v)) st.
Proof.
  eapply getattr_computes; try reflexivity.
  intros self C Hst. apply (body_reads_h sqrt _getcount); assumption.
Qed.

Lemma level_sum f st :
  provides sqrt (ImageStatLazy.getattr sqrt (S (S f))) "sum"
    (do v <- _getsum st; Ok (ImageStatLazy.VFloats v)) st.
Proof.
  eapply getattr_computes; try reflexivity.
  intros self C Hst. apply (body_reads_h sqrt _getsum); assumption.
Qed.

Lemma level_sum2 f st :
  provides sqrt (ImageStatLazy.getattr sqrt (S (S f))) "sum2"
    (do v <- _getsum2 st; Ok (ImageStatLazy.VFloats v)) st.
Proof.
  eapply getattr_computes; try reflexivity.
  intros self C Hst. apply (body_reads_h sqrt _getsum2); assumption.
Qed.

(** The four attributes computed from those. *)
Lemma level_mean f st :
  provides sqrt (ImageStatLazy.getattr sqrt (S (S (S f)))) "mean"
    (do v <- _getmean st; Ok (ImageStatLazy.VFloats v)) st.
Proof.
  eapply getattr_computes; try reflexivity.
  intros self C Hst.
  apply (body_mean sqrt _ st (level_count f st) (level_sum f st)); assumption.
Qed.

Lemma level_median f st :
  provides sqrt (ImageStatLazy.getattr sqrt (S (S (S f)))) "median"
    (do v <- _getmedian st; Ok (ImageStatLazy.VNats v)) st.
Proof.
  eapply getattr_computes; try reflexivity.
  intros self C Hst.
  apply (body_median sqrt _ st (level_count f st)); assumption.
Qed.

Lemma level_rms f st :
  provides sqrt (ImageStatLazy.getattr sqrt (S (S (S f)))) "rms"
    (do v <- _getrms sqrt st; Ok (ImageStatLazy.VFloats v)) st.
Proof.
  eapply getattr_computes; try reflexivity.
  intros self C Hst.
  apply (body_rms sqrt _ st (level_count f st) (level_sum2 f st)); assumption.
Qed.

Lemma level_var f st :
  provides sqrt (ImageStatLazy.getattr sqrt (S (S (S f)))) "var"
    (do v <- _getvar st; Ok (ImageStatLazy.VFloats v)) st.
Proof.
  eapply getattr_computes; try reflexivity.
  intros self C Hst.
  apply (body_var sqrt _ st (level_count f st) (level_sum f st) (level_sum2 f st));
    assumption.
Qed.

(** The standard deviation, computed from the variance. *)
Lemma level_stddev f st :
  provides sqrt (ImageStatLazy.getattr sqrt (S (S (S (S f))))) "stddev"
    (do v <- _getstddev sqrt st; Ok (ImageStatLazy.VFloats v)) st.
Proof.
  eapply getattr_computes; try reflexivity.
  intros self C Hst.
  apply (body_stddev sqrt _ st self (level_var f st)); assumption.
Qed.

Lemma getattr_provides fuel name st p :
  (4 <= fuel)%nat -> stat_value sqrt name st = Some p ->
  provides sqrt (ImageStatLazy.getattr sqrt fuel) name p st.
Proof.
  intros Hf H.
  destruct fuel as [|[|[|[|f]]]]; try lia. clear Hf.
  pose proof (stat_value_names _ _ _ H) as Hin. cbn [In] in Hin.
  repeat (destruct Hin as [<-|Hin];
          [injection H as <-;
           first [ apply level_extrema | apply level_count | apply level_sum
                 | apply level_sum2 | apply level_mean | apply level_median
                 | apply level_rms | apply level_var | apply level_stddev ]|]).
  contradiction.
Qed.

End LazyLevels.

Section LazyProperties.

Variable sqrt : float -> float.

Lemma new_consistent st : consistent sqrt (ImageStatLazy.new st).
Proof. intros name v H. discriminate H. Qed.

Lemma prefix_underscore name :
  String.prefix "_" name = false ->
  String.prefix "_get" name = false /\ ImageStatLazy.is_method name = false /\
  forall st, stat_value sqrt ("_get" ++ name) st = None.
Proof.
  intros H. split; [|split].
  - destruct name as [|c name]; [reflexivity|].
    cbn [String.prefix] in *.
    destruct (ascii_dec "_" c) as [E|E]; [|reflexivity].
    destruct name; discriminate H.
  - destruct (ImageStatLazy.is_method name) eqn:M; [|reflexivity].
    unfold ImageStatLazy.is_method in M. apply existsb_exists in M.
    destruct M as [m [Hin E]]. apply String.eqb_eq in E. subst m.
    cbn [ImageStatLazy.method_names In] in Hin.
    repeat (destruct Hin as [<-|Hin]; [discriminate H|]). contradiction.
  - intros st. reflexivity.
Qed.

Lemma unset name self :
  consistent sqrt self ->
  stat_value sqrt name (ImageStatLazy.stat self) = None ->
  ImageStatLazy.assoc name (ImageStatLazy.attrs self) = None.
Proof.
  intros C H.
  destruct (ImageStatLazy.assoc name (ImageStatLazy.attrs self)) eqn:A;
    [|reflexivity].
  apply C in A. congruence.
Qed.

Lemma no_method name st :
  stat_value sqrt name st = None ->
  ImageStatLazy.is_method ("_get" ++ name) = false.
Proof.
  unfold stat_value. intros H.
  repeat match type of H with
         | (if String.eqb name ?n then _ else _) = _ =>
             destruct (String.eqb name n) eqn:?; [discriminate H|]
         end.
  unfold ImageStatLazy.is_method, ImageStatLazy.method_names.
  cbn [existsb]. cbn [String.append String.eqb Ascii.eqb Bool.eqb].
  repeat match goal with E : String.eqb name _ = false |- _ => rewrite E; clear E end.
  reflexivity.
Qed.

(** X19.  The first access to one of the nine attributes of a [Stat]
    (with fuel for the attributes it is computed from) gives what the
    method of that name gives, a value or an exception, and leaves [h],
    [bands] and the attributes set before as they were.  When it gives a
    value, the value is kept in the object: every later access returns it
    and changes nothing. *)
Theorem attribute_computed_once (fuel : nat) (name : string) (st : Stat)
    (p : result ImageStatLazy.value) (self : ImageStatLazy.object) :
  (4 <= fuel)%nat ->
  stat_value sqrt name st = Some p ->
  consistent sqrt self -> ImageStatLazy.stat self = st ->
  exists self',
    ImageStatLazy.getattr sqrt fuel name self = (embed p, self') /\
    keeps sqrt self self' /\
    forall v, p = Ok v ->
      forall fuel', (1 <= fuel')%nat ->
        ImageStatLazy.getattr sqrt fuel' name self' =
        (ImageStatLazy.Returned v, self').
Proof.
  intros Hf Hp C Hst.
  destruct (getattr_provides sqrt fuel name st p Hf Hp self C Hst)
    as (self' & E & K & A).
  exists self'. split; [exact E|]. split; [exact K|].
  intros v Ev fuel' Hf'. destruct fuel' as [|f']; [lia|].
  rewrite getattr_eq. unfold ImageStatLazy.lookup.
  destruct (stat_value_public sqrt _ _ _ Hp) as (Hh & Hb & _).
  rewrite Hh, Hb, (A v Ev). reflexivity.
Qed.

(** X20.  An access to a public name that is neither [h] nor [bands] nor
    one of the nine attributes fails with an [AttributeError] that names
    the missing method, [_get] followed by the name, and sets nothing. *)
Theorem unknown_attribute (fuel : nat) (name : string)
    (self : ImageStatLazy.object) :
  (2 <= fuel)%nat ->
  consistent sqrt self ->
  String.prefix "_" name = false ->
  name <> "h"%string -> name <> "bands"%string ->
  stat_value sqrt name (ImageStatLazy.stat self) = None ->
  ImageStatLazy.getattr sqrt fuel name self =
  (ImageStatLazy.Raised (ImageStatLazy.AttributeError ("_get" ++ name)), self).
Proof.
  intros Hf C Hu Hh Hb Hn. destruct fuel as [|[|f]]; try lia.
  destruct (prefix_underscore name Hu) as (Hpre & Hm & Hg).
  apply String.eqb_neq in Hh, Hb.
  rewrite getattr_eq. unfold ImageStatLazy.lookup.
  rewrite Hh, Hb, (unset name self C Hn), Hm, Hpre.
  unfold ImageStatLazy.bind at 1. rewrite getattr_eq.
  unfold ImageStatLazy.lookup.
  rewrite (unset ("_get" ++ name) self C (Hg _)), (no_method name _ Hn).
  replace (String.eqb ("_get" ++ name) "h") with false by reflexivity.
  replace (String.eqb ("_get" ++ name) "bands") with false by reflexivity.
  replace (String.prefix "_get" ("_get" ++ name)) with true
    by (destruct name; reflexivity).
  reflexivity.
Qed.

(** X21.  An access to a name that starts with [_get] and is not a method
    fails with an [AttributeError] of that very name: [__getattr__] never
    looks for [_get_get...]. *)
Theorem unknown_getter (fuel : nat) (name : string)
    (self : ImageStatLazy.object) :
  (1 <= fuel)%nat ->
  consistent sqrt self ->
  String.prefix "_get" name = true ->
  ImageStatLazy.is_method name = false ->
  ImageStatLazy.getattr sqrt fuel name self =
  (ImageStatLazy.Raised (ImageStatLazy.AttributeError name), self).
Proof.
  intros Hf C Hpre Hm. destruct fuel as [|f]; [lia|].
  assert (Hn : stat_value sqrt name (ImageStatLazy.stat self) = None).
  { destruct (stat_value sqrt name (ImageStatLazy.stat self)) eqn:E;
      [|reflexivity].
    apply stat_value_public in E. destruct E as (_ & _ & E & _). congruence. }
  assert (Hh : String.eqb name "h" = false).
  { destruct (String.eqb_spec name "h") as [->|]; [discriminate Hpre|reflexivity]. }
  assert (Hb : String.eqb name "bands" = false).
  { destruct (String.eqb_spec name "bands") as [->|]; [discriminate Hpre|reflexivity]. }
  rewrite getattr_eq. unfold ImageStatLazy.lookup.
  rewrite Hh, Hb, (unset name self C Hn), Hm, Hpre. reflexivity.
Qed.

End LazyProperties.

Lemma attribute_computed_once_witness :
  exists self',
    ImageStatLazy.getattr (fun x => x) 4 "median"
      (ImageStatLazy.new {| h := example_histogram; bands := range 1 |}) =
    (ImageStatLazy.Returned (ImageStatLazy.VNats [0%nat]), self') /\
    keeps (fun x => x)
      (ImageStatLazy.new {| h := example_histogram; bands := range 1 |}) self' /\
    forall v, Ok (ImageStatLazy.VNats [0%nat]) = Ok v ->
      forall fuel', (1 <= fuel')%nat ->
        ImageStatLazy.getattr (fun x => x) fuel' "median" self' =
        (ImageStatLazy.Returned v, self').
Proof.
  apply (attribute_computed_once (fun x => x) 4 "median"
           {| h := example_histogram; bands := range 1 |}
           (Ok (ImageStatLazy.VNats [0%nat]))
           (ImageStatLazy.new {| h := example_histogram; bands := range 1 |})).
  - lia.
  - vm_compute. reflexivity.
  - intros name v H. discriminate H.
  - reflexivity.
Defined.

Lemma unknown_attribute_witness :
  ImageStatLazy.getattr (fun x => x) 2 "foo"
    (ImageStatLazy.new {| h := example_histogram; bands := range 1 |}) =
  (ImageStatLazy.Raised (ImageStatLazy.AttributeError "_getfoo"),
   ImageStatLazy.new {| h := example_histogram; bands := range 1 |}).
Proof.
  apply (unknown_attribute (fun x => x) 2 "foo"
           (ImageStatLazy.new {| h := example_histogram; bands := range 1 |})).
  - lia.
  - intros name v H. discriminate H.
  - reflexivity.
  - discriminate.
  - discriminate.
  - reflexivity.
Defined.

Lemma unknown_getter_witness :
  ImageStatLazy.getattr (fun x => x) 1 "_getfoo"
    (ImageStatLazy.new {| h := example_histogram; bands := range 1 |}) =
  (ImageStatLazy.Raised (ImageStatLazy.AttributeError "_getfoo"),
   ImageStatLazy.new {| h := example_histogram; bands := range 1 |}).
Proof.
  apply (unknown_getter (fun x => x) 1 "_getfoo"
           (ImageStatLazy.new {| h := example_histogram; bands := range 1 |})).
  - lia.
  - intros name v H. discriminate H.
  - reflexivity.
  - reflexivity.
Defined.
